(** * LU-KPA-LEE-LIBROS: the speech playback hook, embedded and verified

    This development embeds [src/hooks/useSpeechSynthesis.ts] (and the later
    revision of the same hook that adds the duration-scaled watchdog), with
    what the player, the application and the parser do around it:

    - [JS]: the few primitives of JavaScript strings the hook relies on
      (strings are sequences of UTF-16 code units);
    - [Chunker]: [chunkText];
    - [Seek]: the position arithmetic of [skip];
    - [Hook]: the playback state machine (state, callbacks, effects);
    - [HookV2]: the handlers of the second revision of the hook kept in the
      same source file (error filtering, chapter clamp);
    - [SeekV2]: the position arithmetic of [skip] in that second revision;
    - [Player]: what the player computes from the hook and asks of it
      (progress in the chapter, the play/pause button, the voices offered);
    - [Library]: the library of the application, the stored progress of
      its books and the chapters the parser keeps;
    - [ChunkerFacts], [SeekFacts], [HookFacts]: what is proved of them;
    - [ChunkerMore], [SeekMore], [SeekTermination], [SeekV2Facts],
      [SeekV2Forward], [HookMore], [PlayerFacts], [LibraryFacts]: further
      properties of the same code.

    Conventions. A handler reads the state of the render it was created in
    and its [set...] calls make the next state; refs are in step with the
    state. The speech engine, the timers and the user are the environment:
    they deliver [event]s. Numbers are integers, except the playback rate
    and the durations computed from it, which are rationals (the source
    computes them in floating point). *)

From Stdlib Require Import ZArith QArith Qround Qminmax Lia Ascii String.
From stdpp Require Import base tactics option list strings gmap.

Local Open Scope Z_scope.

(** ** JavaScript strings *)

Module JS.

(** A string is its list of UTF-16 code units. *)
Abbreviation jschar := N (only parsing).
Abbreviation jsstring := (list N) (only parsing).

Definition length (s : jsstring) : Z := Z.of_nat (List.length s).

(** Literals of the source, as code units. *)
Definition of_string (s : string) : jsstring :=
  map N_of_ascii (String.list_ascii_of_string s).

Definition DOT : jschar := 46%N.
Definition QUESTION : jschar := 63%N.
Definition BANG : jschar := 33%N.

(** ECMAScript [WhiteSpace] and [LineTerminator] code points: what
    [String.prototype.trim] strips. *)
Definition isWhiteSpace (c : jschar) : bool :=
  ((c =? 9) || (c =? 10) || (c =? 11) || (c =? 12) || (c =? 13) || (c =? 32)
   || (c =? 160) || (c =? 5760)
   || ((8192 <=? c) && (c <=? 8202))
   || (c =? 8232) || (c =? 8233) || (c =? 8239) || (c =? 8287)
   || (c =? 12288) || (c =? 65279))%N.

Fixpoint trimStart (s : jsstring) : jsstring :=
  match s with
  | c :: s' => if isWhiteSpace c then trimStart s' else s
  | [] => []
  end.

Definition trimEnd (s : jsstring) : jsstring := rev (trimStart (rev s)).

Definition trim (s : jsstring) : jsstring := trimEnd (trimStart s).

(** [s.substring(a, b)]: both ends are clamped to [0, s.length] and swapped
    when out of order. *)
Definition clampIndex (s : jsstring) (i : Z) : nat :=
  Z.to_nat (Z.min (Z.max i 0) (length s)).

Definition substring (s : jsstring) (a b : Z) : jsstring :=
  let a' := clampIndex s a in
  let b' := clampIndex s b in
  let lo := Nat.min a' b' in
  let hi := Nat.max a' b' in
  take (hi - lo) (drop lo s).

(** [s.substring(a)]. *)
Definition substringFrom (s : jsstring) (a : Z) : jsstring :=
  substring s a (length s).

(** Search for [c] at positions [n], [n-1], ..., [0]. *)
Fixpoint lastIndexUpTo (c : jschar) (s : jsstring) (n : nat) : Z :=
  match s !! n with
  | Some d =>
      if (d =? c)%N then Z.of_nat n
      else match n with O => -1 | S m => lastIndexUpTo c s m end
  | None => match n with O => -1 | S m => lastIndexUpTo c s m end
  end.

(** [s.lastIndexOf(c, from)] for a one-character needle: the greatest index
    [k <= min(max(from,0), s.length - 1)] holding [c], or [-1]. *)
Definition lastIndexOf (s : jsstring) (c : jschar) (from : Z) : Z :=
  match s with
  | [] => -1
  | _ => lastIndexUpTo c s (Z.to_nat (Z.min (Z.max from 0) (length s - 1)))
  end.

(** Truthiness of a string: non-empty. *)
Definition truthy (s : jsstring) : bool :=
  match s with [] => false | _ => true end.

Definition stripWhiteSpace (s : jsstring) : jsstring :=
  filter (fun c => isWhiteSpace c = false) s.

(** The string does not start with a character [trim] strips. *)
Definition noLeadingSpace (s : jsstring) : Prop :=
  match s with
  | c :: _ => isWhiteSpace c = false
  | [] => True
  end.

End JS.

(** ** The chunker *)

Module Chunker.
Import JS.

Definition CHUNK_CHAR_LIMIT : Z := 250.

(** The end of the chunk that starts at [i]: the body of the [while] loop of
    [chunkText] up to the [substring] call. *)
Definition chunkEndAt (text : jsstring) (i : Z) : Z :=
  let chunkEnd := i + CHUNK_CHAR_LIMIT in
  if chunkEnd <? length text then
    let sentenceEnd := lastIndexOf text DOT chunkEnd in
    let sentenceEnd :=
      if sentenceEnd <=? i then lastIndexOf text QUESTION chunkEnd
      else sentenceEnd in
    let sentenceEnd :=
      if sentenceEnd <=? i then lastIndexOf text BANG chunkEnd
      else sentenceEnd in
    if sentenceEnd >? i then sentenceEnd + 1 else chunkEnd
  else chunkEnd.

(** The untrimmed slice cut at [i]. *)
Definition rawChunkAt (text : jsstring) (i : Z) : jsstring :=
  substring text i (chunkEndAt text i).

(** The [while (i < text.length)] loop; [fuel] bounds the number of
    iterations and [None] means it ran out. *)
Fixpoint chunkLoop (fuel : nat) (text : jsstring) (i : Z)
    (chunks : list jsstring) : option (list jsstring) :=
  if i <? length text then
    match fuel with
    | O => None
    | S fuel' =>
        let chunkEnd := chunkEndAt text i in
        let chunk := trim (substring text i chunkEnd) in
        let chunks := if truthy chunk then chunks ++ [chunk] else chunks in
        chunkLoop fuel' text chunkEnd chunks
    end
  else Some chunks.

(** [chunkText] with explicit fuel. *)
Definition chunkTextFuel (fuel : nat) (text : jsstring)
    : option (list jsstring) :=
  if truthy text then chunkLoop fuel text 0 [] else Some [].

(** One iteration per character is always enough (see [chunkText_total]). *)
Definition chunkText (text : jsstring) : list jsstring :=
  default [] (chunkTextFuel (List.length text) text).

End Chunker.

(** ** Position arithmetic of [skip] *)

Module Seek.
Import JS.

(** [chapterChunks]: the chunks of every chapter. *)
Abbreviation book := (list (list (list N))) (only parsing).

(** Array access by a number: [undefined] ([None]) outside [0, length). *)
Definition at_index {A} (l : list A) (i : Z) : option A :=
  if i <? 0 then None else l !! Z.to_nat i.

Record position := Position {
  chapterIndex : Z;
  chunkIndex : Z;
  charIndex : Z
}.

(** What running a piece of the source gives: a value, an uncaught
    [TypeError] (a property read on [undefined]), or no answer within the
    fuel. *)
Inductive outcome (A : Type) :=
| Ok (a : A)
| TypeError
| OutOfFuel.
Arguments Ok {A} a.
Arguments TypeError {A}.
Arguments OutOfFuel {A}.

Section Arithmetic.
Variable chapterChunks : book.

(** [chapterChunks.length] *)
Definition chapterCount : Z := Z.of_nat (List.length chapterChunks).

(** [chapterChunks[chap].length]: throws when the chapter is [undefined]. *)
Definition chunkCount (chap : Z) : option Z :=
  chs ← at_index chapterChunks chap; Some (Z.of_nat (List.length chs)).

(** [chapterChunks[chap][chunk].length]: throws when either is
    [undefined]. *)
Definition chunkLength (chap chunk : Z) : option Z :=
  chs ← at_index chapterChunks chap; t ← at_index chs chunk; Some (length t).

(** [chapterChunks[chap]?.[chunk]?.length ?? 0] *)
Definition chunkLengthOr0 (chap chunk : Z) : Z :=
  default 0 (chunkLength chap chunk).

(** [while (char < 0) { ... }] *)
Fixpoint skipBackward (fuel : nat) (chap chunk char : Z)
    : outcome position :=
  if char <? 0 then
    match fuel with
    | O => OutOfFuel
    | S fuel' =>
        let chunk := chunk - 1 in
        if chunk <? 0 then
          let chap := chap - 1 in
          if chap <? 0 then Ok (Position 0 0 0)
          else
            match chunkCount chap with
            | None => TypeError
            | Some n =>
                let chunk := n - 1 in
                match chunkLength chap chunk with
                | None => TypeError
                | Some len => skipBackward fuel' chap chunk (char + len)
                end
            end
        else
          match chunkLength chap chunk with
          | None => TypeError
          | Some len => skipBackward fuel' chap chunk (char + len)
          end
    end
  else Ok (Position chap chunk char).

(** [while (char >= (chapterChunks[chap]?.[chunk]?.length ?? 0)) { ... }] *)
Fixpoint skipForward (fuel : nat) (chap chunk char : Z)
    : outcome position :=
  if char >=? chunkLengthOr0 chap chunk then
    match fuel with
    | O => OutOfFuel
    | S fuel' =>
        match chunkLength chap chunk with
        | None => TypeError
        | Some len =>
            let char := char - len in
            let chunk := chunk + 1 in
            match chunkCount chap with
            | None => TypeError
            | Some n =>
                if chunk >=? n then
                  let chap := chap + 1 in
                  if chap >=? chapterCount then
                    let chap := chapterCount - 1 in
                    match chunkCount chap with
                    | None => TypeError
                    | Some n' =>
                        let chunk := n' - 1 in
                        match chunkLength chap chunk with
                        | None => TypeError
                        | Some len' => Ok (Position chap chunk (len' - 1))
                        end
                    end
                  else skipForward fuel' chap 0 char
                else skipForward fuel' chap chunk char
            end
        end
    end
  else Ok (Position chap chunk char).

(** Each iteration of either loop moves one chunk; one more than the number
    of chunks of the book is enough fuel. *)
Definition seekFuel : nat := S (List.length (concat chapterChunks)).

(** The two loops of [skip], from the position [p] and the signed character
    offset [charOffset]. *)
Definition seek (p : position) (charOffset : Z) : outcome position :=
  match skipBackward seekFuel (chapterIndex p) (chunkIndex p)
          (charIndex p + charOffset) with
  | Ok q => skipForward seekFuel (chapterIndex q) (chunkIndex q) (charIndex q)
  | TypeError => TypeError
  | OutOfFuel => OutOfFuel
  end.

End Arithmetic.

(** *** The coordinate system of the specification *)

(** The bounds invariant of a position: the chapter exists; the chunk exists
    in it, or is 0 in a chapter without chunks; the character offset is at
    most the length of the chunk. *)
Definition validPosition (b : book) (p : position) : bool :=
  match at_index b (chapterIndex p) with
  | None => false
  | Some chs =>
      match at_index chs (chunkIndex p) with
      | Some t => (0 <=? charIndex p) && (charIndex p <=? length t)
      | None =>
          match chs with
          | [] => (chunkIndex p =? 0) && (charIndex p =? 0)
          | _ => false
          end
      end
  end.

(** The position is on a character of its chunk. *)
Definition onCharacter (b : book) (p : position) : bool :=
  match chunkLength b (chapterIndex p) (chunkIndex p) with
  | Some len => (0 <=? charIndex p) && (charIndex p <? len)
  | None => false
  end.

(** Every chapter has a chunk and no chunk is empty: what the parser, which
    keeps only chapters with text, and [chunkText] give. *)
Definition wellFormed (b : book) : bool :=
  forallb (fun chs => match chs with
                      | [] => false
                      | _ => forallb truthy chs
                      end) b.

(** The last character of the last chunk of the last chapter. *)
Definition lastPosition (b : book) : position :=
  let chap := chapterCount b - 1 in
  let chunk := default 0 (chunkCount b chap) - 1 in
  Position chap chunk (chunkLengthOr0 b chap chunk - 1).

(** Positions in reading order. *)
Definition position_le (p q : position) : Prop :=
  chapterIndex p < chapterIndex q
  \/ (chapterIndex p = chapterIndex q
      /\ (chunkIndex p < chunkIndex q
          \/ (chunkIndex p = chunkIndex q /\ charIndex p <= charIndex q))).

Definition sumLengths (chs : list jsstring) : Z :=
  foldr (fun t acc => length t + acc) 0 chs.

(** The number of characters of the book. *)
Definition bookChars (b : book) : Z := sumLengths (concat b).

(** The number of characters before the chunk [chunk] of chapter [chap]. *)
Definition charsBefore (b : book) (chap chunk : nat) : Z :=
  sumLengths (concat (take chap b))
  + sumLengths (take chunk (default [] (b !! chap))).

(** The offset of a position from the start of the book. *)
Definition linear (b : book) (p : position) : Z :=
  charsBefore b (Z.to_nat (chapterIndex p)) (Z.to_nat (chunkIndex p))
  + charIndex p.

End Seek.

(** ** The playback hook *)

Module Hook.
Import JS Seek.

(** [number | 'end-of-chapter'] (the state holds [option] of it, [None]
    being [null]). *)
Inductive sleepTimerValue :=
| Seconds (n : Z)
| EndOfChapter.

(** A parsed JSON text. Numbers are the integers the hook itself writes. *)
#[local] Unset Elimination Schemes.
Inductive json :=
| JNull
| JBool (b : bool)
| JNum (n : Z)
| JStr (s : string)
| JArr (items : list json)
| JObj (fields : list (string * json)).
#[local] Set Elimination Schemes.

(** A [localStorage] item, by what [JSON.parse] makes of it. *)
Inductive item :=
| Malformed
| Parsed (j : json).

(** [o[key]] on a parsed object; a later duplicate key wins. *)
Fixpoint property (key : string) (fields : list (string * json))
    : option json :=
  match fields with
  | [] => None
  | (k, v) :: rest =>
      match property key rest with
      | Some w => Some w
      | None => if String.eqb k key then Some v else None
      end
  end.

(** A [SpeechSynthesisUtterance] with what its callbacks close over. [uId]
    stands for the identity of the object. *)
Record utterance := Utterance {
  uId : nat;
  uChapter : Z;
  uChunk : Z;
  uStart : Z;
  uText : jsstring
}.

(** The timer held by [watchdogTimerRef]: the utterance its callback closes
    over and its delay in milliseconds. *)
Record watchdog := Watchdog {
  wUtterance : utterance;
  wDelay : Q
}.

(** The two revisions of the hook differ in the watchdog only: a 2 s
    interval checking for 4 s without a boundary event, or one timeout
    scaled by the length of the text. *)
Inductive revision :=
| IntervalWatchdog
| TimeoutWatchdog.

Record state := State {
  isSpeaking : bool;
  isPaused : bool;
  currentChapterIndex : Z;
  currentChunkIndex : Z;
  currentCharIndex : Z;
  error : option string;
  playbackRate : Q;
  sleepTimer : option sleepTimerValue;
  utteranceRef : option utterance;
  watchdogTimerRef : option watchdog;
  lastBoundaryTime : Z;
  utteranceCount : nat;
  pendingSpeak : list position;
  storedProgress : option item
}.

Definition setIsSpeaking (b : bool) (s : state) : state :=
  State b (isPaused s) (currentChapterIndex s) (currentChunkIndex s)
    (currentCharIndex s) (error s) (playbackRate s) (sleepTimer s)
    (utteranceRef s) (watchdogTimerRef s) (lastBoundaryTime s)
    (utteranceCount s) (pendingSpeak s) (storedProgress s).

Definition setIsPaused (b : bool) (s : state) : state :=
  State (isSpeaking s) b (currentChapterIndex s) (currentChunkIndex s)
    (currentCharIndex s) (error s) (playbackRate s) (sleepTimer s)
    (utteranceRef s) (watchdogTimerRef s) (lastBoundaryTime s)
    (utteranceCount s) (pendingSpeak s) (storedProgress s).

Definition setCurrentChapterIndex (n : Z) (s : state) : state :=
  State (isSpeaking s) (isPaused s) n (currentChunkIndex s)
    (currentCharIndex s) (error s) (playbackRate s) (sleepTimer s)
    (utteranceRef s) (watchdogTimerRef s) (lastBoundaryTime s)
    (utteranceCount s) (pendingSpeak s) (storedProgress s).

Definition setCurrentChunkIndex (n : Z) (s : state) : state :=
  State (isSpeaking s) (isPaused s) (currentChapterIndex s) n
    (currentCharIndex s) (error s) (playbackRate s) (sleepTimer s)
    (utteranceRef s) (watchdogTimerRef s) (lastBoundaryTime s)
    (utteranceCount s) (pendingSpeak s) (storedProgress s).

Definition setCurrentCharIndex (n : Z) (s : state) : state :=
  State (isSpeaking s) (isPaused s) (currentChapterIndex s)
    (currentChunkIndex s) n (error s) (playbackRate s) (sleepTimer s)
    (utteranceRef s) (watchdogTimerRef s) (lastBoundaryTime s)
    (utteranceCount s) (pendingSpeak s) (storedProgress s).

Definition setError (e : option string) (s : state) : state :=
  State (isSpeaking s) (isPaused s) (currentChapterIndex s)
    (currentChunkIndex s) (currentCharIndex s) e (playbackRate s)
    (sleepTimer s) (utteranceRef s) (watchdogTimerRef s)
    (lastBoundaryTime s) (utteranceCount s) (pendingSpeak s)
    (storedProgress s).

Definition setPlaybackRate (r : Q) (s : state) : state :=
  State (isSpeaking s) (isPaused s) (currentChapterIndex s)
    (currentChunkIndex s) (currentCharIndex s) (error s) r (sleepTimer s)
    (utteranceRef s) (watchdogTimerRef s) (lastBoundaryTime s)
    (utteranceCount s) (pendingSpeak s) (storedProgress s).

Definition setSleepTimer (t : option sleepTimerValue) (s : state) : state :=
  State (isSpeaking s) (isPaused s) (currentChapterIndex s)
    (currentChunkIndex s) (currentCharIndex s) (error s) (playbackRate s) t
    (utteranceRef s) (watchdogTimerRef s) (lastBoundaryTime s)
    (utteranceCount s) (pendingSpeak s) (storedProgress s).

Definition setUtteranceRef (u : option utterance) (s : state) : state :=
  State (isSpeaking s) (isPaused s) (currentChapterIndex s)
    (currentChunkIndex s) (currentCharIndex s) (error s) (playbackRate s)
    (sleepTimer s) u (watchdogTimerRef s) (lastBoundaryTime s)
    (utteranceCount s) (pendingSpeak s) (storedProgress s).

Definition setWatchdogTimerRef (w : option watchdog) (s : state) : state :=
  State (isSpeaking s) (isPaused s) (currentChapterIndex s)
    (currentChunkIndex s) (currentCharIndex s) (error s) (playbackRate s)
    (sleepTimer s) (utteranceRef s) w (lastBoundaryTime s)
    (utteranceCount s) (pendingSpeak s) (storedProgress s).

Definition setLastBoundaryTime (t : Z) (s : state) : state :=
  State (isSpeaking s) (isPaused s) (currentChapterIndex s)
    (currentChunkIndex s) (currentCharIndex s) (error s) (playbackRate s)
    (sleepTimer s) (utteranceRef s) (watchdogTimerRef s) t
    (utteranceCount s) (pendingSpeak s) (storedProgress s).

Definition setUtteranceCount (n : nat) (s : state) : state :=
  State (isSpeaking s) (isPaused s) (currentChapterIndex s)
    (currentChunkIndex s) (currentCharIndex s) (error s) (playbackRate s)
    (sleepTimer s) (utteranceRef s) (watchdogTimerRef s)
    (lastBoundaryTime s) n (pendingSpeak s) (storedProgress s).

Definition setPendingSpeak (l : list position) (s : state) : state :=
  State (isSpeaking s) (isPaused s) (currentChapterIndex s)
    (currentChunkIndex s) (currentCharIndex s) (error s) (playbackRate s)
    (sleepTimer s) (utteranceRef s) (watchdogTimerRef s)
    (lastBoundaryTime s) (utteranceCount s) l (storedProgress s).

Definition setStoredProgress (i : option item) (s : state) : state :=
  State (isSpeaking s) (isPaused s) (currentChapterIndex s)
    (currentChunkIndex s) (currentCharIndex s) (error s) (playbackRate s)
    (sleepTimer s) (utteranceRef s) (watchdogTimerRef s)
    (lastBoundaryTime s) (utteranceCount s) (pendingSpeak s) i.

(** The [useState] initial values, with the item found in [localStorage]
    under the book's progress key. *)
Definition initialState (stored : option item) : state :=
  State false false 0 0 0 None 1%Q None None None 0 0 [] stored.

Definition currentPosition (s : state) : position :=
  Position (currentChapterIndex s) (currentChunkIndex s) (currentCharIndex s).

(** [PlaybackStatus], as the two booleans encode it. *)
Inductive playbackStatus :=
| Idle
| Speaking
| Paused.

Definition status (s : state) : option playbackStatus :=
  match isSpeaking s, isPaused s with
  | false, false => Some Idle
  | true, false => Some Speaking
  | false, true => Some Paused
  | true, true => None
  end.

(** The two booleans are not both true. *)
Definition exclusive (s : state) : Prop :=
  isSpeaking s && isPaused s = false.

(** The timer held watches the current utterance, issued before. *)
Definition armed (s : state) : Prop :=
  match watchdogTimerRef s with
  | Some w =>
      utteranceRef s = Some (wUtterance w)
      /\ (uId (wUtterance w) < utteranceCount s)%nat
  | None => True
  end.

Definition sameUtterance (u v : utterance) : bool := Nat.eqb (uId u) (uId v).

Definition isUtterance (r : option utterance) (u : utterance) : bool :=
  match r with Some v => sameUtterance v u | None => false end.

Definition isWatchdog (r : option watchdog) (w : watchdog) : bool :=
  match r with
  | Some v => sameUtterance (wUtterance v) (wUtterance w)
  | None => false
  end.

Definition sleepTimer_eqb (a b : option sleepTimerValue) : bool :=
  match a, b with
  | None, None => true
  | Some EndOfChapter, Some EndOfChapter => true
  | Some (Seconds m), Some (Seconds n) => m =? n
  | _, _ => false
  end.

(** [Math.round]: the nearest integer, halves going up. *)
Definition Math_round (x : Q) : Z := Qfloor (x + (1 # 2))%Q.

(** [JSON.stringify({ currentChapterIndex, currentChunkIndex })], parsed. *)
Definition progressRecord (s : state) : json :=
  JObj [("currentChapterIndex"%string, JNum (currentChapterIndex s));
        ("currentChunkIndex"%string, JNum (currentChunkIndex s))].

(** What the callbacks of the user interface, the speech engine and the
    timers deliver to the hook. *)
Inductive event :=
| Play (chapterIdx chunkIdx : Z)
| Pause
| Resume
| JumpToChapter (chapterIdx : Z) (playOnJump : bool)
| NextChapter
| PrevChapter
| Skip (seconds : Q)
| SetPlaybackRate (rate : Q)
| SetSleepTimer (value : option sleepTimerValue)
| SpeakTimeout                       (* the oldest pending 50 ms timeout *)
| EngineBoundary (u : utterance) (name : string) (charIndex : Z)
| EngineEnd (u : utterance)
| EngineError (u : utterance) (kind : string)
| WatchdogTimer (engineSpeaking : bool)  (* the timer of watchdogTimerRef *)
| SleepTick.

Section Machine.
Variable chapterChunks : book.
Variable rev : revision.

(** [clearWatchdog] *)
Definition clearWatchdog (s : state) : state := setWatchdogTimerRef None s.

(** [pause] *)
Definition pause (s : state) : state :=
  setIsPaused true (setIsSpeaking false (clearWatchdog s)).

(** [Math.max(5000, estimatedDurationMs + 10000)], over the rationals. *)
Definition watchdogTimeout (textLength : Z) (rate : Q) : Q :=
  let estimatedDurationMs := ((inject_Z textLength / (15 * rate)) * 1000)%Q in
  Qmax 5000 (estimatedDurationMs + 10000)%Q.

(** The timer [speak] starts for the utterance [u]. *)
Definition armWatchdog (now : Z) (u : utterance) (s : state) : state :=
  match rev with
  | IntervalWatchdog =>
      setWatchdogTimerRef (Some (Watchdog u 2000%Q)) (setLastBoundaryTime now s)
  | TimeoutWatchdog =>
      setWatchdogTimerRef
        (Some (Watchdog u (watchdogTimeout (length (uText u)) (playbackRate s))))
        s
  end.

(** [speak(chapterIdx, chunkIdx, charIdx)] *)
Definition speak (now : Z) (chapterIdx chunkIdx charIdx : Z) (s : state)
    : state :=
  let s := clearWatchdog s in
  let textToSpeak :=
    chs ← at_index chapterChunks chapterIdx;
    t ← at_index chs chunkIdx;
    Some (substringFrom t charIdx) in
  match textToSpeak with
  | Some text =>
      if truthy text then
        let u := Utterance (utteranceCount s) chapterIdx chunkIdx charIdx text in
        armWatchdog now u
          (setUtteranceRef (Some u) (setUtteranceCount (S (utteranceCount s)) s))
      else setIsSpeaking false s
  | None => setIsSpeaking false s
  end.

(** [utterance.onboundary] *)
Definition onboundary (now : Z) (u : utterance) (name : string)
    (charIndex : Z) (s : state) : state :=
  let s := match rev with
           | IntervalWatchdog => setLastBoundaryTime now s
           | TimeoutWatchdog => s
           end in
  if String.eqb name "word" then setCurrentCharIndex (uStart u + charIndex) s
  else s.

(** [utterance.onend] *)
Definition onend (now : Z) (u : utterance) (s : state) : state :=
  let s := clearWatchdog s in
  if negb (isSpeaking s) then s
  else
    let nextChunk := uChunk u + 1 in
    match chunkCount chapterChunks (uChapter u) with
    | None => s
    | Some n =>
        if nextChunk <? n then
          speak now (uChapter u) nextChunk 0
            (setCurrentCharIndex 0 (setCurrentChunkIndex nextChunk s))
        else
          match sleepTimer s with
          | Some EndOfChapter => setSleepTimer None (pause s)
          | _ =>
              let nextChapter := uChapter u + 1 in
              if nextChapter <? chapterCount chapterChunks then
                speak now nextChapter 0 0
                  (setCurrentCharIndex 0
                     (setCurrentChunkIndex 0
                        (setCurrentChapterIndex nextChapter s)))
              else setIsSpeaking false s
          end
    end.

(** [utterance.onerror]: the kind of the error is not looked at. *)
Definition onerror (u : utterance) (kind : string) (s : state) : state :=
  setIsSpeaking false
    (clearWatchdog (setError (Some "Ocurrió un error al leer el texto."%string) s)).

(** The callback of the watchdog timer; [engineSpeaking] is what
    [window.speechSynthesis.speaking] reads when it runs. *)
Definition onwatchdog (now : Z) (w : watchdog) (engineSpeaking : bool)
    (s : state) : state :=
  match rev with
  | IntervalWatchdog =>
      if now - lastBoundaryTime s >? 4000 then onend now (wUtterance w) s
      else s
  | TimeoutWatchdog =>
      if isUtterance (utteranceRef s) (wUtterance w) && engineSpeaking
      then onend now (wUtterance w) s
      else s
  end.

(** The [setTimeout(..., 50)] every restart ends with. *)
Definition speakLater (p : position) (s : state) : state :=
  setPendingSpeak (pendingSpeak s ++ [p]) s.

(** [play] *)
Definition play (chapterIdx chunkIdx : Z) (s : state) : state :=
  speakLater (Position chapterIdx chunkIdx 0)
    (setIsSpeaking true
       (setIsPaused false
          (setCurrentCharIndex 0
             (setCurrentChunkIndex chunkIdx
                (setCurrentChapterIndex chapterIdx (setError None s)))))).

(** [resume] *)
Definition resume (s : state) : state :=
  setIsPaused false (setIsSpeaking true (setError None s)).

(** [jumpToChapter] *)
Definition jumpToChapter (chapterIdx : Z) (playOnJump : bool) (s : state)
    : state :=
  let s := setIsSpeaking playOnJump
             (setIsPaused false
                (setCurrentCharIndex 0
                   (setCurrentChunkIndex 0
                      (setCurrentChapterIndex chapterIdx s)))) in
  if playOnJump then speakLater (Position chapterIdx 0 0) s else s.

(** [handleNextChapter] *)
Definition handleNextChapter (s : state) : state :=
  if currentChapterIndex s <? chapterCount chapterChunks - 1 then
    jumpToChapter (currentChapterIndex s + 1) (isSpeaking s || isPaused s) s
  else s.

(** [handlePrevChapter] *)
Definition handlePrevChapter (s : state) : state :=
  if currentChapterIndex s >? 0 then
    jumpToChapter (currentChapterIndex s - 1) (isSpeaking s || isPaused s) s
  else s.

(** [Math.round(seconds * 15 * playbackRate)] *)
Definition charOffsetOf (seconds rate : Q) : Z :=
  Math_round (seconds * 15 * rate)%Q.

(** [skip]: an exception in the loops leaves before any state is set. *)
Definition skip (seconds : Q) (s : state) : state :=
  if negb (isSpeaking s) && negb (isPaused s) then s
  else
    match seek chapterChunks (currentPosition s)
            (charOffsetOf seconds (playbackRate s)) with
    | Ok q =>
        let s' := setCurrentCharIndex (charIndex q)
                    (setCurrentChunkIndex (chunkIndex q)
                       (setCurrentChapterIndex (chapterIndex q) s)) in
        let s' := if isPaused s then setIsSpeaking true (setIsPaused false s')
                  else s' in
        speakLater q s'
    | _ => s
    end.

(** The callback of the 50 ms timeout: speak if still supposed to. *)
Definition onSpeakTimeout (now : Z) (s : state) : state :=
  match pendingSpeak s with
  | [] => s
  | p :: rest =>
      let s := setPendingSpeak rest s in
      if isSpeaking s then
        speak now (chapterIndex p) (chunkIndex p) (charIndex p) s
      else s
  end.

(** The tick of the interval the sleep-timer effect installs; the interval
    exists only while speaking with a positive number of seconds left. *)
Definition onSleepTick (s : state) : state :=
  match sleepTimer s with
  | Some (Seconds t) =>
      if isSpeaking s && (t >? 0) then setSleepTimer (Some (Seconds (t - 1))) s
      else s
  | _ => s
  end.

Definition handle (now : Z) (e : event) (s : state) : state :=
  match e with
  | Play c k => play c k s
  | Pause => pause s
  | Resume => resume s
  | JumpToChapter c b => jumpToChapter c b s
  | NextChapter => handleNextChapter s
  | PrevChapter => handlePrevChapter s
  | Skip seconds => skip seconds s
  | SetPlaybackRate r => setPlaybackRate r s
  | SetSleepTimer v => setSleepTimer v s
  | SpeakTimeout => onSpeakTimeout now s
  | EngineBoundary u name i => onboundary now u name i s
  | EngineEnd u => onend now u s
  | EngineError u kind => onerror u kind s
  | WatchdogTimer b =>
      match watchdogTimerRef s with
      | Some w => onwatchdog now w b s
      | None => s
      end
  | SleepTick => onSleepTick s
  end.

(** *** Effects: run after a render when one of their dependencies changed *)

(** "Save progress whenever it changes" *)
Definition saveProgressEffect (prev s : state) : state :=
  let changed :=
    negb (Bool.eqb (isSpeaking prev) (isSpeaking s)
          && Bool.eqb (isPaused prev) (isPaused s)
          && (currentChapterIndex prev =? currentChapterIndex s)
          && (currentChunkIndex prev =? currentChunkIndex s)) in
  if changed && (isSpeaking s || isPaused s)
  then setStoredProgress (Some (Parsed (progressRecord s))) s
  else s.

(** "Cleanup effect" *)
Definition cleanupEffect (prev s : state) : state :=
  let changed :=
    negb (Bool.eqb (isSpeaking prev) (isSpeaking s)
          && Bool.eqb (isPaused prev) (isPaused s)) in
  if changed && negb (isSpeaking s) && negb (isPaused s)
  then setUtteranceRef None (clearWatchdog s)
  else s.

(** "Robust sleep timer logic" *)
Definition sleepTimerEffect (prev s : state) : state :=
  let changed :=
    negb (sleepTimer_eqb (sleepTimer prev) (sleepTimer s)
          && Bool.eqb (isSpeaking prev) (isSpeaking s)) in
  if changed then
    match sleepTimer s with
    | Some (Seconds t) =>
        if negb (isSpeaking s) then s
        else if t <=? 0 then setSleepTimer None (pause s)
        else s
    | _ => s
    end
  else s.

(** The effects of one render, in the order of the source. *)
Definition commit (prev s : state) : state :=
  sleepTimerEffect prev (cleanupEffect prev (saveProgressEffect prev s)).

(** A render and, when an effect set state, the render that follows. *)
Definition effects (prev s : state) : state :=
  commit s (commit prev s).

(** One event: its handler, then the effects. *)
Definition step (now : Z) (e : event) (s : state) : state :=
  effects s (handle now e s).

(** A run: events with the time each arrives at. *)
Fixpoint run (es : list (Z * event)) (s : state) : state :=
  match es with
  | [] => s
  | (now, e) :: rest => run rest (step now e s)
  end.

(** One-second ticks of the sleep timer, at the given times. *)
Definition sleepTicks (times : list Z) : list (Z * event) :=
  map (fun t => (t, SleepTick)) times.

End Machine.

(** "Load progress from localStorage": [None] when the stored
    [currentChunkIndex] is neither a number nor absent, which the type
    [PlaybackProgress] excludes. *)
Definition loadProgressEffect (s : state) : option state :=
  match storedProgress s with
  | Some (Parsed (JObj fields)) =>
      match property "currentChapterIndex" fields with
      | Some (JNum n) =>
          match property "currentChunkIndex" fields with
          | None | Some JNull =>
              Some (setCurrentChunkIndex 0 (setCurrentChapterIndex n s))
          | Some (JNum k) =>
              Some (setCurrentChunkIndex k (setCurrentChapterIndex n s))
          | Some _ => None
          end
      | _ => Some s
      end
  | _ => Some s
  end.

(** Mounting the hook on a book: the initial state, then the load effect. *)
Definition mount (stored : option item) : option state :=
  loadProgressEffect (initialState stored).

End Hook.

(** ** The second revision of the hook: the handlers that differ *)

Module HookV2.
Import JS Seek Hook.

(** [saveProgress] *)
Definition saveProgress (s : state) : state :=
  setStoredProgress (Some (Parsed (progressRecord s))) s.

(** [cancel] *)
Definition cancel (s : state) : state :=
  saveProgress
    (setCurrentCharIndex 0
       (setIsPaused false
          (setIsSpeaking false
             (setUtteranceRef None (setWatchdogTimerRef None s))))).

(** [utterance.onerror]: 'canceled' and 'interrupted' are expected. *)
Definition onerror (kind : string) (s : state) : state :=
  if String.eqb kind "interrupted" || String.eqb kind "canceled" then s
  else
    cancel
      (setError
         (Some ("Ocurrió un error en la síntesis de voz: " ++ kind)%string) s).

(** The effect on [chapters]: [chapterCount] is [chapters.length]. *)
Definition chaptersEffect (chapterCount : Z) (s : state) : state :=
  setCurrentCharIndex 0
    (setCurrentChunkIndex
       (if chapterCount >? 0 then currentChunkIndex s else 0)
       (setCurrentChapterIndex
          (Z.min (currentChapterIndex s) (chapterCount - 1)) s)).

End HookV2.

(** ** Books and states used as concrete inputs *)

Module Examples.
Import JS Seek Hook.

Definition oneChapter : list (list (list N)) :=
  [[of_string "ab"; of_string "cd"]].

Definition twoChapters : list (list (list N)) :=
  [[of_string "ab"; of_string "cde"]; [of_string "f"; of_string "gh"]].

Definition emptyFirstChapter : list (list (list N)) :=
  [[]; [of_string "ab"]].

Definition emptyMiddleChapter : list (list (list N)) :=
  [[of_string "ab"]; []; [of_string "cd"]].

(** [play(0, 0)] on [oneChapter], after the 50 ms timeout. *)
Definition playingFirstChunk (rev : revision) : state :=
  run oneChapter rev [(0, Play 0 0); (50, SpeakTimeout)] (initialState None).

Definition firstChunkUtterance : utterance :=
  Utterance 0 0 0 0 (of_string "ab").

(** [play(0, 1)] on [oneChapter], after the 50 ms timeout. *)
Definition playingLastChunk (rev : revision) : state :=
  run oneChapter rev [(0, Play 0 1); (50, SpeakTimeout)] (initialState None).

Definition lastChunkUtterance : utterance :=
  Utterance 0 0 1 0 (of_string "cd").

(** The same after [skip(0)], before its 50 ms timeout. *)
Definition skipped : state :=
  step oneChapter TimeoutWatchdog 60 (Skip 0)
    (playingFirstChunk TimeoutWatchdog).

(** The same with the sleep timer set to 30 seconds. *)
Definition playingWithTimer : state :=
  step oneChapter TimeoutWatchdog 60 (SetSleepTimer (Some (Seconds 30)))
    (playingFirstChunk TimeoutWatchdog).

(** Thirty ticks, one second apart. *)
Definition thirtyTicks : list Z := map (fun i => 1000 * i) (seqZ 1 30).

(** The same after the boundary event of a word at offset 1. *)
Definition midFirstChunk : state :=
  step oneChapter TimeoutWatchdog 70
    (EngineBoundary firstChunkUtterance "word" 1)
    (playingFirstChunk TimeoutWatchdog).

(** A text of 252 characters with its first full stop at index 250. *)
Definition stopAtLimit : list N :=
  repeat 97%N 250 ++ of_string ".b".

End Examples.

(** ** Position arithmetic of [skip] in the second revision *)

Module SeekV2.
Import JS Seek.

Section Arithmetic.
Variable chapterChunks : book.

(** [while (targetCharInChunk >= currentChunkLength
            && currentChunkLength > 0) { ... }] *)
Fixpoint skipForward (fuel : nat) (chapterIdx chunkIdx target : Z)
    : outcome position :=
  let currentChunkLength := chunkLengthOr0 chapterChunks chapterIdx chunkIdx in
  if (target >=? currentChunkLength) && (currentChunkLength >? 0) then
    match fuel with
    | O => OutOfFuel
    | S fuel' =>
        let target := target - currentChunkLength in
        let chunkIdx := chunkIdx + 1 in
        match chunkCount chapterChunks chapterIdx with
        | None => TypeError
        | Some n =>
            if chunkIdx >=? n then
              let chapterIdx := chapterIdx + 1 in
              if chapterIdx >=? chapterCount chapterChunks then
                let chapterIdx := chapterCount chapterChunks - 1 in
                match chunkCount chapterChunks chapterIdx with
                | None => TypeError
                | Some n' =>
                    let chunkIdx := n' - 1 in
                    match chunkLength chapterChunks chapterIdx chunkIdx with
                    | None => TypeError
                    | Some len' => Ok (Position chapterIdx chunkIdx len')
                    end
                end
              else skipForward fuel' chapterIdx 0 target
            else skipForward fuel' chapterIdx chunkIdx target
        end
    end
  else Ok (Position chapterIdx chunkIdx target).

(** The position [skip] restarts from: the backward loop is the one of the
    first revision; the character offset is brought within the chunk with
    [Math.max(0, Math.min(target, finalChunkLength))]. *)
Definition seek (p : position) (charOffset : Z) : outcome position :=
  match skipBackward chapterChunks (seekFuel chapterChunks)
          (chapterIndex p) (chunkIndex p) (charIndex p + charOffset) with
  | Ok q =>
      match skipForward (seekFuel chapterChunks)
              (chapterIndex q) (chunkIndex q) (charIndex q) with
      | Ok r =>
          let finalChunkLength :=
            chunkLengthOr0 chapterChunks (chapterIndex r) (chunkIndex r) in
          Ok (Position (chapterIndex r) (chunkIndex r)
                (Z.max 0 (Z.min (charIndex r) finalChunkLength)))
      | TypeError => TypeError
      | OutOfFuel => OutOfFuel
      end
  | TypeError => TypeError
  | OutOfFuel => OutOfFuel
  end.

(** The chunk exists, or it is chunk 0 of a chapter without chunks. *)
Definition inChapter (c k : nat) : Prop :=
  exists chs, chapterChunks !! c = Some chs
    /\ (is_Some (chs !! k) \/ (chs = [] /\ k = 0%nat)).

(** One past the last character of the last chunk of the last chapter:
    where the forward loop stops at the end of the book. *)
Definition endPosition : position :=
  let chapterIdx := chapterCount chapterChunks - 1 in
  let chunkIdx := default 0 (chunkCount chapterChunks chapterIdx) - 1 in
  Position chapterIdx chunkIdx
    (chunkLengthOr0 chapterChunks chapterIdx chunkIdx).

End Arithmetic.
End SeekV2.

(** ** Conditions on the states of the hook *)

Module HookAux.
Import JS Seek Hook.

(** The sleep timer is not a number of seconds that has run out. *)
Definition timerRunning (s : state) : bool :=
  match sleepTimer s with
  | Some (Seconds t) => 0 <? t
  | _ => true
  end.

(** Speaking with the timer running, or paused: the effects then only
    store the progress. *)
Definition steady (s : state) : bool :=
  (isSpeaking s && timerRunning s) || (negb (isSpeaking s) && isPaused s).

(** Playing or paused. *)
Definition active (s : state) : bool := isSpeaking s || isPaused s.

(** When active, the stored progress is the current chapter and chunk. *)
Definition progressInStep (s : state) : Prop :=
  active s = true -> storedProgress s = Some (Parsed (progressRecord s)).

(** The utterance is one [speak] makes on this book: its text is its chunk
    from its start offset, which is not negative. *)
Definition issued (chapterChunks : book) (u : utterance) : Prop :=
  exists chs t,
    at_index chapterChunks (uChapter u) = Some chs
    /\ at_index chs (uChunk u) = Some t
    /\ 0 <= uStart u
    /\ uText u = substringFrom t (uStart u).

End HookAux.

(** ** What the player shows and asks of the hook *)

Module Player.
Import JS Seek Hook.

(** [for (let i = 0; i < currentChunkIndex; i++)
       spokenChars += chunksInChapter[i].length] *)
Fixpoint spokenChars (chunksInChapter : list (list N)) (i count : nat)
    (acc : Z) : outcome Z :=
  match count with
  | O => Ok acc
  | S count' =>
      match chunksInChapter !! i with
      | None => TypeError
      | Some t => spokenChars chunksInChapter (S i) count' (acc + length t)
      end
  end.

(** [chapterProgressPercentage], over the rationals. *)
Definition chapterProgressPercentage (chapterChunks : book) (p : position)
    : outcome Q :=
  match at_index chapterChunks (chapterIndex p) with
  | None => Ok 0%Q
  | Some chunksInChapter =>
      match chunksInChapter with
      | [] => Ok 0%Q
      | _ =>
          let totalCharsInChapter :=
            fold_left (fun acc chunk => acc + length chunk) chunksInChapter 0 in
          if totalCharsInChapter =? 0 then Ok 0%Q
          else
            match spokenChars chunksInChapter 0
                    (Z.to_nat (chunkIndex p)) 0 with
            | Ok spoken =>
                Ok (inject_Z (spoken + charIndex p)
                    / inject_Z totalCharsInChapter * 100)%Q
            | TypeError => TypeError
            | OutOfFuel => OutOfFuel
            end
      end
  end.

(** [handlePlayPause] of the player, with its silent audio element
    mounted: what it calls on the hook. *)
Definition handlePlayPause (s : state) : event :=
  if isSpeaking s then Pause
  else if isPaused s then Resume
  else Play (currentChapterIndex s) (currentChunkIndex s).

(** A [SpeechSynthesisVoice], as far as the hook reads it. *)
Record voice := Voice {
  voiceURI : string;
  lang : string
}.

(** [handleVoicesChanged]: from the voices of the engine and the voice saved
    under 'lukpaleelibros-voice', the voices listed and the one selected;
    [None] when nothing is set because the engine has no voice yet. *)
Definition handleVoicesChanged (availableVoices : list voice)
    (savedVoiceURI : option string) : option (list voice * string) :=
  match availableVoices with
  | [] => None
  | first :: _ =>
      let latAmSpanishVoices :=
        List.filter (fun v => String.prefix "es-" (lang v)
                              && negb (String.prefix "es-ES" (lang v)))
          availableVoices in
      let anySpanishVoices :=
        List.filter (fun v => String.prefix "es-" (lang v)) availableVoices in
      let voicesToSet :=
        match latAmSpanishVoices with
        | [] => anySpanishVoices
        | _ => latAmSpanishVoices
        end in
      let voicesToSet :=
        match voicesToSet with [] => availableVoices | _ => voicesToSet end in
      let kept :=
        match savedVoiceURI with
        | Some uri =>
            negb (String.eqb uri "")
            && existsb (fun v => String.eqb (voiceURI v) uri) voicesToSet
        | None => false
        end in
      Some (voicesToSet,
            if kept then default ""%string savedVoiceURI
            else voiceURI (List.hd first voicesToSet))
  end.

End Player.

(** ** The library of the application and the parser's chapters *)

Module Library.
Import JS Seek Hook.

(** [EpubData] *)
Record epubData := EpubData {
  title : string;
  coverUrl : option string;
  chapters : list (list N);
  filename : string
}.

(** [chapterChunks]: [epubData.chapters.map(chunkText)] *)
Definition chapterChunksOf (e : epubData) : book :=
  map Chunker.chunkText (chapters e).

(** The text of one spine item, from the [textContent] of its paragraphs
    and headings ([None] for a null [textContent]): each is trimmed, the
    empty ones are dropped, and the rest joined by a blank line; an item
    with none left gives no chapter. *)
Definition chapterOfParagraphs (texts : list (option (list N)))
    : option (list N) :=
  let paragraphs :=
    omap (fun t => match t with
                   | Some text => if truthy (trim text) then Some (trim text)
                                  else None
                   | None => None
                   end) texts in
  match paragraphs with
  | [] => None
  | first :: rest =>
      Some (first ++ concat (map (fun p => [10%N; 10%N] ++ p) rest))
  end.

(** The chapters of a book: the spine items that give one. *)
Definition chaptersOfSpine (items : list (list (option (list N))))
    : list (list N) :=
  omap chapterOfParagraphs items.

(** The updater given to [setLibrary] when a file has been parsed:
    [prev.some(book => book.filename === epubData.filename) ? prev
     : [...prev, epubData]]. *)
Definition addBook (prev : list epubData) (e : epubData) : list epubData :=
  if existsb (fun book => String.eqb (filename book) (filename e)) prev
  then prev
  else prev ++ [e].

(** [`lukpaleelibros-progress-${filename}`] *)
Definition progressKey (name : string) : string :=
  ("lukpaleelibros-progress-" ++ name)%string.

(** [handleBookDelete]: on the library and on [localStorage]. *)
Definition handleBookDelete (name : string)
    (app : list epubData * gmap string item)
    : list epubData * gmap string item :=
  (List.filter (fun book => negb (String.eqb (filename book) name))
     (fst app),
   delete (progressKey name) (snd app)).

(** Mounting the hook on a book reads the item under its key. *)
Definition openBook (storage : gmap string item) (e : epubData)
    : option state :=
  mount (storage !! progressKey (filename e)).

End Library.

(** ** More concrete inputs *)

Module MoreExamples.
Import JS Seek Hook Library Examples.

Definition blankText : list N := of_string "   ".
Definition paddedText : list N := of_string "  Hola. ".

(** [play(0, 0)] on [oneChapter], then [pause] before the 50 ms timeout. *)
Definition pausedBeforeRestart : state :=
  run oneChapter TimeoutWatchdog [(0, Play 0 0); (10, Pause)]
    (initialState None).

(** [play(0, 1)] on [oneChapter], before the 50 ms timeout. *)
Definition startedSecondChunk : state :=
  step oneChapter TimeoutWatchdog 0 (Play 0 1) (initialState None).


(** [play(0, 0)] on [twoChapters], the timeout, then [pause]. *)
Definition pausedInFirstChapter : state :=
  run twoChapters TimeoutWatchdog
    [(0, Play 0 0); (50, SpeakTimeout); (60, Pause)] (initialState None).

(** [play(0, 0)] on [emptyMiddleChapter], after the 50 ms timeout. *)
Definition playingBeforeEmptyChapter : state :=
  run emptyMiddleChapter TimeoutWatchdog [(0, Play 0 0); (50, SpeakTimeout)]
    (initialState None).

(** The same with the sleep timer set to 'end-of-chapter'. *)
Definition playingUntilChapterEnd : state :=
  step emptyMiddleChapter TimeoutWatchdog 60
    (SetSleepTimer (Some EndOfChapter)) playingBeforeEmptyChapter.

(** A book of one chapter, as the parser gives it. *)
Definition holaBook : epubData :=
  EpubData "Hola" None
    (chaptersOfSpine [[Some (of_string " Hola. "); None; Some blankText]])
    "hola.epub".

End MoreExamples.

(** ** Facts about the chunker *)

(** Split a conjunction of closed facts, leaving each to evaluation. *)
Ltac split_all := repeat match goal with |- _ /\ _ => split end.

Module ChunkerFacts.
Import JS Chunker Examples.

(** *** Trimming *)

Lemma trimStart_split (s : list N) :
  exists l, s = l ++ trimStart s /\ stripWhiteSpace l = [].
Proof.
  induction s as [|c s (l & Hl & Hws)]; [now exists []|].
  simpl. destruct (isWhiteSpace c) eqn:Hc.
  - exists (c :: l). split; [simpl; congruence|].
    unfold stripWhiteSpace in *. rewrite filter_cons_False; [done|].
    rewrite Hc. discriminate.
  - now exists [].
Qed.

Lemma trimStart_noLeadingSpace (s : list N) : noLeadingSpace (trimStart s).
Proof.
  induction s as [|c s IH]; simpl; [done|].
  destruct (isWhiteSpace c) eqn:Hc; [exact IH|exact Hc].
Qed.

Lemma trimStart_fixed (s : list N) : noLeadingSpace s -> trimStart s = s.
Proof. destruct s as [|c s]; simpl; [done|]. now intros ->. Qed.

Lemma trimEnd_split (s : list N) :
  exists l, s = trimEnd s ++ l /\ stripWhiteSpace l = [].
Proof.
  destruct (trimStart_split (rev s)) as (l & Hl & Hws).
  exists (rev l). split.
  - unfold trimEnd. rewrite <- rev_app_distr, <- Hl. now rewrite rev_involutive.
  - unfold stripWhiteSpace in *. rewrite rev_alt.
    change (rev_append l []) with (reverse l).
    now rewrite filter_reverse, Hws.
Qed.

Lemma trimEnd_noLeadingSpace (s : list N) :
  noLeadingSpace s -> noLeadingSpace (trimEnd s).
Proof.
  intros H. destruct (trimEnd_split s) as (l & Hl & _).
  destruct (trimEnd s) as [|c t]; [done|].
  rewrite Hl in H. exact H.
Qed.

Lemma trim_fixed (s : list N) : trim (trim s) = trim s.
Proof.
  assert (Hfront : noLeadingSpace (trim s)).
  { apply trimEnd_noLeadingSpace, trimStart_noLeadingSpace. }
  assert (Hback : noLeadingSpace (rev (trim s))).
  { unfold trim, trimEnd. rewrite rev_involutive.
    apply trimStart_noLeadingSpace. }
  unfold trim at 1. rewrite (trimStart_fixed _ Hfront).
  unfold trimEnd at 1. rewrite (trimStart_fixed _ Hback).
  apply rev_involutive.
Qed.

Lemma stripWhiteSpace_app (s t : list N) :
  stripWhiteSpace (s ++ t) = stripWhiteSpace s ++ stripWhiteSpace t.
Proof. apply filter_app. Qed.

Lemma stripWhiteSpace_trim (s : list N) :
  stripWhiteSpace (trim s) = stripWhiteSpace s.
Proof.
  unfold trim.
  destruct (trimStart_split s) as (l & Hl & Hws).
  destruct (trimEnd_split (trimStart s)) as (r & Hr & Hws').
  rewrite Hl at 2. rewrite Hr at 2.
  rewrite !stripWhiteSpace_app, Hws, Hws', app_nil_r. reflexivity.
Qed.

Lemma trim_length_le (s : list N) : length (trim s) <= length s.
Proof.
  unfold trim.
  destruct (trimStart_split s) as (l & Hl & _).
  destruct (trimEnd_split (trimStart s)) as (r & Hr & _).
  unfold length. rewrite Hl at 2. rewrite Hr at 2. rewrite !length_app. lia.
Qed.

(** *** Slices and the cut point *)

Lemma substring_length (s : list N) (a e : Z) :
  0 <= a <= e -> length (substring s a e) <= e - a.
Proof.
  intros H. unfold substring, clampIndex, length.
  rewrite length_take, length_drop. lia.
Qed.

Lemma substring_drop (s : list N) (a e : Z) :
  0 <= a <= e ->
  substring s a e ++ drop (Z.to_nat e) s = drop (Z.to_nat a) s.
Proof.
  intros H. unfold substring, clampIndex, length.
  destruct (Z.le_gt_cases (Z.of_nat (List.length s)) a) as [Hout|Hin].
  - rewrite (drop_ge s (Z.to_nat e)), (drop_ge s (Z.to_nat a)) by lia.
    rewrite app_nil_r. apply length_zero_iff_nil.
    rewrite length_take, length_drop. lia.
  - replace (Z.to_nat (Z.min (Z.max a 0) (Z.of_nat (List.length s))))
      with (Z.to_nat a) by lia.
    set (hi := Z.to_nat (Z.min (Z.max e 0) (Z.of_nat (List.length s)))).
    rewrite Nat.min_l, Nat.max_r by lia.
    destruct (Z.le_gt_cases e (Z.of_nat (List.length s))) as [He|He].
    + replace hi with (Z.to_nat e) by lia.
      replace (Z.to_nat e) with (Z.to_nat a + (Z.to_nat e - Z.to_nat a))%nat
        at 2 by lia.
      rewrite <- drop_drop. apply take_drop.
    + rewrite (drop_ge s (Z.to_nat e)) by lia. rewrite app_nil_r.
      apply take_ge. rewrite length_drop. lia.
Qed.

Lemma lastIndexUpTo_le (c : N) (s : list N) (n : nat) :
  lastIndexUpTo c s n <= Z.of_nat n.
Proof.
  induction n as [|n IH]; simpl; repeat case_match; lia.
Qed.

Lemma lastIndexOf_le (s : list N) (c : N) (from : Z) :
  0 <= from -> lastIndexOf s c from <= from.
Proof.
  intros H. unfold lastIndexOf. destruct s as [|d s]; [lia|].
  etransitivity; [apply lastIndexUpTo_le|]. lia.
Qed.

(** The cut is after the start and at most 251 characters further: one more
    than [CHUNK_CHAR_LIMIT], when the terminator found is at the index
    [i + CHUNK_CHAR_LIMIT] itself. *)
Lemma chunkEndAt_bounds (text : list N) (i : Z) :
  0 <= i -> i < chunkEndAt text i <= i + CHUNK_CHAR_LIMIT + 1.
Proof.
  intros Hi. unfold chunkEndAt, CHUNK_CHAR_LIMIT.
  pose proof (lastIndexOf_le text DOT (i + 250)).
  pose proof (lastIndexOf_le text QUESTION (i + 250)).
  pose proof (lastIndexOf_le text BANG (i + 250)).
  repeat case_match; lia.
Qed.

(** *** The loop *)

Lemma chunkLoop_spec (text : list N) (fuel : nat) :
  forall (i : Z) (chunks : list (list N)),
    0 <= i -> (Z.to_nat (length text - i) <= fuel)%nat ->
    exists more,
      chunkLoop fuel text i chunks = Some (chunks ++ more)
      /\ Forall (fun c => c <> [] /\ trim c = c
                          /\ length c <= CHUNK_CHAR_LIMIT + 1) more
      /\ stripWhiteSpace (concat more)
         = stripWhiteSpace (drop (Z.to_nat i) text).
Proof.
  induction fuel as [|fuel IH]; intros i chunks Hi Hfuel.
  - exists []. cbn [chunkLoop].
    replace (i <? length text) with false by (symmetry; apply Z.ltb_ge; lia).
    rewrite app_nil_r. split; [done|]. split; [constructor|].
    rewrite drop_ge; [done|]. unfold length in *. lia.
  - cbn [chunkLoop]. destruct (Z.ltb_spec i (length text)) as [Hlt|Hge].
    2:{ exists []. rewrite app_nil_r. split; [done|]. split; [constructor|].
        rewrite drop_ge; [done|]. unfold length in *. lia. }
    pose proof (chunkEndAt_bounds text i Hi) as Hcut.
    set (e := chunkEndAt text i) in *.
    set (chunk := trim (substring text i e)).
    pose proof (substring_drop text i e ltac:(lia)) as Hsplit.
    pose proof (substring_length text i e ltac:(lia)) as Hlen.
    pose proof (trim_length_le (substring text i e)) as Htrim.
    destruct (IH e (if truthy chunk then chunks ++ [chunk] else chunks))
      as (more & Hrun & Hall & Hstrip); [lia|lia|].
    rewrite Hrun. rewrite <- Hsplit, stripWhiteSpace_app, <- Hstrip.
    rewrite <- (stripWhiteSpace_trim (substring text i e)). fold chunk.
    destruct (truthy chunk) eqn:Htruthy.
    + exists (chunk :: more). rewrite <- app_assoc. split; [done|]. split.
      * constructor; [|exact Hall].
        split; [intros E; now rewrite E in Htruthy|].
        split; [apply trim_fixed|]. unfold chunk, CHUNK_CHAR_LIMIT in *. lia.
      * simpl. now rewrite stripWhiteSpace_app.
    + exists more. split; [done|]. split; [exact Hall|].
      destruct chunk; [done|discriminate].
Qed.

(** [chunkText] returns: one iteration per character is enough. *)
Lemma chunkText_total (text : list N) :
  chunkTextFuel (List.length text) text = Some (chunkText text).
Proof.
  unfold chunkText, chunkTextFuel. destruct (truthy text); [|done].
  destruct (chunkLoop_spec text (List.length text) 0 [])
    as (more & -> & _); [lia|unfold length; lia|done].
Qed.

(** The parts of C1 that hold: the chunks are non-empty and equal to their
    own trim, and without whitespace their concatenation is the text
    without whitespace. No chunk is longer than 251 characters. *)
Lemma chunkText_spec (text : list N) :
  Forall (fun c => c <> [] /\ trim c = c
                   /\ length c <= CHUNK_CHAR_LIMIT + 1) (chunkText text)
  /\ stripWhiteSpace (concat (chunkText text)) = stripWhiteSpace text.
Proof.
  unfold chunkText, chunkTextFuel. destruct text as [|c text]; [done|].
  cbn [truthy].
  destruct (chunkLoop_spec (c :: text) (List.length (c :: text)) 0 [])
    as (more & -> & Hall & Hstrip); [lia|unfold length; lia|].
  cbn [default from_option id app]. split; [exact Hall|exact Hstrip].
Qed.

(** C1 on the code: the text of 250 letters, a full stop and one more
    letter is cut after the full stop, which [lastIndexOf] finds at index
    250, and its first chunk has 251 characters, before and after
    trimming. *)
Theorem chunk_exceeds_limit :
  length stopAtLimit = 252
  /\ lastIndexOf stopAtLimit DOT (0 + CHUNK_CHAR_LIMIT) = 250
  /\ rawChunkAt stopAtLimit 0 = repeat 97%N 250 ++ [DOT]
  /\ chunkText stopAtLimit = [repeat 97%N 250 ++ [DOT]; of_string "b"]
  /\ length (repeat 97%N 250 ++ [DOT]) = 251
  /\ ~ Forall (fun c => length c <= CHUNK_CHAR_LIMIT) (chunkText stopAtLimit).
Proof.
  split_all; try (vm_compute; reflexivity).
  intros H. apply Forall_inv in H. vm_compute in H. now apply H.
Qed.

End ChunkerFacts.

(** ** Facts about the seek arithmetic *)

Module SeekFacts.
Import JS Seek Examples.

Lemma at_index_of_nat {A} (l : list A) (i : nat) :
  at_index l (Z.of_nat i) = l !! i.
Proof.
  unfold at_index. destruct (Z.ltb_spec (Z.of_nat i) 0); [lia|].
  now rewrite Nat2Z.id.
Qed.

Lemma at_index_Some {A} (l : list A) (i : Z) (x : A) :
  at_index l i = Some x -> exists n : nat, i = Z.of_nat n /\ l !! n = Some x.
Proof.
  unfold at_index. destruct (Z.ltb_spec i 0); [discriminate|].
  intros H0. exists (Z.to_nat i). split; [lia|done].
Qed.

Lemma length_nonneg (t : jsstring) : 0 <= length t.
Proof. unfold length. lia. Qed.

Lemma truthy_length (t : jsstring) : truthy t = true -> 0 < length t.
Proof. destruct t; [discriminate|]. unfold length. simpl. lia. Qed.

Lemma sumLengths_app (l1 l2 : list jsstring) :
  sumLengths (l1 ++ l2) = sumLengths l1 + sumLengths l2.
Proof. induction l1 as [|t l1 IH]; simpl; [done|]. rewrite IH. lia. Qed.

Lemma sumLengths_nonneg (l : list jsstring) : 0 <= sumLengths l.
Proof.
  induction l as [|t l IH]; simpl; [done|]. pose proof (length_nonneg t). lia.
Qed.

Lemma sumLengths_take_S (l : list jsstring) (k : nat) (t : jsstring) :
  l !! k = Some t ->
  sumLengths (take (S k) l) = sumLengths (take k l) + length t.
Proof.
  intros Hk. rewrite (take_S_r _ _ _ Hk), sumLengths_app. simpl. lia.
Qed.

Lemma sumLengths_take_le (l : list jsstring) (i j : nat) :
  (i <= j)%nat -> sumLengths (take i l) <= sumLengths (take j l).
Proof.
  intros Hij. rewrite <- (take_drop i (take j l)), sumLengths_app.
  rewrite take_take, Nat.min_l by done.
  pose proof (sumLengths_nonneg (drop i (take j l))). lia.
Qed.

Lemma sumLengths_concat_take_S (b : book) (c : nat) (chs : list jsstring) :
  b !! c = Some chs ->
  sumLengths (concat (take (S c) b))
  = sumLengths (concat (take c b)) + sumLengths chs.
Proof.
  intros Hc. rewrite (take_S_r _ _ _ Hc), concat_app, sumLengths_app.
  simpl. rewrite app_nil_r. lia.
Qed.

Lemma sumLengths_concat_take_le (b : book) (i j : nat) :
  (i <= j)%nat ->
  sumLengths (concat (take i b)) <= sumLengths (concat (take j b)).
Proof.
  intros Hij. rewrite <- (take_drop i (take j b)), concat_app, sumLengths_app.
  rewrite take_take, Nat.min_l by done.
  pose proof (sumLengths_nonneg (concat (drop i (take j b)))). lia.
Qed.

Section Book.
Variable b : book.

Lemma charsBefore_nonneg (c k : nat) : 0 <= charsBefore b c k.
Proof.
  unfold charsBefore.
  pose proof (sumLengths_nonneg (concat (take c b))).
  pose proof (sumLengths_nonneg (take k (default [] (b !! c)))). lia.
Qed.

Lemma charsBefore_S_chunk (c k : nat) chs t :
  b !! c = Some chs -> chs !! k = Some t ->
  charsBefore b c (S k) = charsBefore b c k + length t.
Proof.
  intros Hc Hk. unfold charsBefore. rewrite Hc. simpl.
  rewrite (sumLengths_take_S _ _ _ Hk). lia.
Qed.

Lemma charsBefore_S_chapter (c : nat) chs :
  b !! c = Some chs ->
  charsBefore b (S c) 0 = charsBefore b c (List.length chs).
Proof.
  intros Hc. unfold charsBefore. rewrite Hc. simpl.
  rewrite (sumLengths_concat_take_S _ _ _ Hc), firstn_all.
  try rewrite take_0. simpl. lia.
Qed.

Lemma charsBefore_end : charsBefore b (List.length b) 0 = bookChars b.
Proof.
  unfold charsBefore, bookChars. rewrite firstn_all. try rewrite take_0. simpl. lia.
Qed.

Lemma charsBefore_chunk_le (c i j : nat) :
  (i <= j)%nat -> charsBefore b c i <= charsBefore b c j.
Proof.
  intros Hij. unfold charsBefore.
  pose proof (sumLengths_take_le (default [] (b !! c)) i j Hij). lia.
Qed.

Lemma charsBefore_chapter_le (c c' k : nat) chs :
  b !! c = Some chs -> (c < c')%nat ->
  charsBefore b c k <= charsBefore b c' 0.
Proof.
  intros Hc Hlt.
  assert (H1 : charsBefore b c k <= charsBefore b (S c) 0).
  { rewrite (charsBefore_S_chapter _ _ Hc). unfold charsBefore. rewrite Hc.
    simpl. rewrite firstn_all.
    pose proof (sumLengths_take_le chs k (List.length chs)) as H.
    rewrite firstn_all in H.
    destruct (Nat.le_gt_cases k (List.length chs)) as [Hk|Hk].
    - specialize (H Hk). lia.
    - rewrite (take_ge chs k) by lia. lia. }
  assert (H2 : charsBefore b (S c) 0 <= charsBefore b c' 0).
  { unfold charsBefore. try rewrite !take_0. simpl.
    pose proof (sumLengths_concat_take_le b (S c) c'). lia. }
  lia.
Qed.

Lemma charsBefore_le_total (c k : nat) : charsBefore b c k <= bookChars b.
Proof.
  destruct (b !! c) as [chs|] eqn:Hc.
  - rewrite <- charsBefore_end.
    apply (charsBefore_chapter_le _ _ _ _ Hc).
    apply lookup_lt_Some in Hc. lia.
  - unfold charsBefore, bookChars. rewrite Hc. simpl.
    rewrite take_nil. simpl.
    pose proof (sumLengths_concat_take_le b c (List.length b)) as H.
    rewrite firstn_all in H.
    destruct (Nat.le_gt_cases c (List.length b)) as [Hk|Hk].
    + specialize (H Hk). lia.
    + rewrite (take_ge b c) by lia. lia.
Qed.

(** Accesses of the source, at indices known to exist. *)

Lemma chunkCount_at (c : nat) chs :
  b !! c = Some chs ->
  chunkCount b (Z.of_nat c) = Some (Z.of_nat (List.length chs)).
Proof. intros Hc. unfold chunkCount. now rewrite at_index_of_nat, Hc. Qed.

Lemma chunkLength_at (c k : nat) chs t :
  b !! c = Some chs -> chs !! k = Some t ->
  chunkLength b (Z.of_nat c) (Z.of_nat k) = Some (length t).
Proof.
  intros Hc Hk. unfold chunkLength. rewrite at_index_of_nat, Hc. simpl.
  now rewrite at_index_of_nat, Hk.
Qed.

Lemma chunkLengthOr0_at (c k : nat) chs t :
  b !! c = Some chs -> chs !! k = Some t ->
  chunkLengthOr0 b (Z.of_nat c) (Z.of_nat k) = length t.
Proof.
  intros Hc Hk. unfold chunkLengthOr0.
  now rewrite (chunkLength_at _ _ _ _ Hc Hk).
Qed.

Lemma chunkLength_Some (c k len : Z) :
  chunkLength b c k = Some len ->
  exists (c' k' : nat) chs t,
    c = Z.of_nat c' /\ k = Z.of_nat k' /\ b !! c' = Some chs
    /\ chs !! k' = Some t /\ len = length t.
Proof.
  unfold chunkLength. intros H.
  destruct (at_index b c) as [chs|] eqn:Hc; [|discriminate]. simpl in H.
  destruct (at_index chs k) as [t|] eqn:Hk; [|discriminate]. simpl in H.
  apply at_index_Some in Hc as (c' & -> & Hc).
  apply at_index_Some in Hk as (k' & -> & Hk).
  exists c', k', chs, t. repeat split; try done. congruence.
Qed.

Lemma chapterCount_eq : chapterCount b = Z.of_nat (List.length b).
Proof. reflexivity. Qed.

Hypothesis wf : wellFormed b = true.

Lemma wf_chapter (c : nat) chs :
  b !! c = Some chs -> exists t, chs !! 0%nat = Some t.
Proof.
  intros Hc. unfold wellFormed in wf. rewrite forallb_forall in wf.
  apply list_elem_of_lookup_2, list_elem_of_In in Hc.
  specialize (wf _ Hc). destruct chs as [|t chs]; [discriminate|].
  now exists t.
Qed.

Lemma wf_chunk (c k : nat) chs t :
  b !! c = Some chs -> chs !! k = Some t -> 0 < length t.
Proof.
  intros Hc Hk. unfold wellFormed in wf. rewrite forallb_forall in wf.
  apply list_elem_of_lookup_2, list_elem_of_In in Hc.
  specialize (wf _ Hc). destruct chs as [|t0 chs]; [discriminate|].
  rewrite forallb_forall in wf.
  apply list_elem_of_lookup_2, list_elem_of_In in Hk.
  apply truthy_length, wf, Hk.
Qed.

Lemma wf_last_chunk (c : nat) chs :
  b !! c = Some chs ->
  exists t, chs !! pred (List.length chs) = Some t
            /\ (0 < List.length chs)%nat.
Proof.
  intros Hc. destruct (wf_chapter _ _ Hc) as [t0 Ht0].
  apply lookup_lt_Some in Ht0.
  destruct (lookup_lt_is_Some_2 chs (pred (List.length chs))) as [t Ht];
    [lia|].
  exists t. split; [done|lia].
Qed.

(** The forward loop: from a chunk that exists and a non-negative offset
    into it, it stops on a character, at the same distance from the start
    of the book unless that is past the last character. *)
Lemma skipForward_spec (fuel : nat) : forall (c k : nat) (x : Z) chs t,
  b !! c = Some chs -> chs !! k = Some t -> 0 <= x ->
  (List.length (concat (drop c b)) - k <= fuel)%nat ->
  exists q, skipForward b fuel (Z.of_nat c) (Z.of_nat k) x = Ok q
    /\ onCharacter b q = true
    /\ linear b q = Z.min (charsBefore b c k + x) (bookChars b - 1).
Proof.
  induction fuel as [|fuel IH]; intros c k x chs t Hc Hk Hx Hfuel.
  all: assert (Hmu : (k < List.length chs)%nat
                     /\ (List.length (concat (drop c b))
                         = List.length chs
                           + List.length (concat (drop (S c) b)))%nat).
  all: try (split; [eapply lookup_lt_Some; eauto|];
            rewrite (drop_S _ _ _ Hc); simpl; now rewrite length_app).
  all: destruct Hmu as [Hklt Hlen].
  { lia. }
  pose proof (wf_chunk _ _ _ _ Hc Hk) as Hpos.
  pose proof (charsBefore_S_chunk _ _ _ _ Hc Hk) as HB1.
  pose proof (charsBefore_le_total c (S k)) as Htot.
  cbn [skipForward].
  rewrite (chunkLengthOr0_at _ _ _ _ Hc Hk), (chunkLength_at _ _ _ _ Hc Hk).
  destruct (Z.geb_spec x (length t)) as [Hge|Hlt].
  2:{ eexists. split; [reflexivity|]. split.
      - unfold onCharacter. cbn. rewrite (chunkLength_at _ _ _ _ Hc Hk).
        apply andb_true_intro. split; [apply Z.leb_le|apply Z.ltb_lt]; lia.
      - unfold linear. cbn. rewrite !Nat2Z.id. lia. }
  rewrite (chunkCount_at _ _ Hc).
  destruct (Z.geb_spec (Z.of_nat k + 1) (Z.of_nat (List.length chs)))
    as [Hlast|Hmore].
  - assert (Hk1 : S k = List.length chs) by lia.
    pose proof (charsBefore_S_chapter _ _ Hc) as HB2.
    rewrite <- Hk1 in HB2.
    rewrite chapterCount_eq.
    destruct (Z.geb_spec (Z.of_nat c + 1) (Z.of_nat (List.length b)))
      as [Hend|Hnext].
    + assert (Hc1 : S c = List.length b).
      { apply lookup_lt_Some in Hc. lia. }
      replace (Z.of_nat (List.length b) - 1) with (Z.of_nat c) by lia.
      rewrite (chunkCount_at _ _ Hc).
      replace (Z.of_nat (List.length chs) - 1) with (Z.of_nat k) by lia.
      rewrite (chunkLength_at _ _ _ _ Hc Hk).
      pose proof charsBefore_end as HB3. rewrite <- Hc1 in HB3.
      eexists. split; [reflexivity|]. split.
      * unfold onCharacter. cbn. rewrite (chunkLength_at _ _ _ _ Hc Hk).
        apply andb_true_intro. split; [apply Z.leb_le|apply Z.ltb_lt]; lia.
      * unfold linear. cbn. rewrite !Nat2Z.id. lia.
    + destruct (lookup_lt_is_Some_2 b (S c)) as [chs' Hc']; [lia|].
      destruct (wf_chapter _ _ Hc') as [t' Hk'].
      replace (Z.of_nat c + 1) with (Z.of_nat (S c)) by lia.
      destruct (IH (S c) 0%nat (x - length t) chs' t' Hc' Hk') as (q & Hq & Hon & Hlin);
        [lia|lia|].
      exists q. split; [exact Hq|]. split; [exact Hon|]. rewrite Hlin. lia.
  - destruct (lookup_lt_is_Some_2 chs (S k)) as [t' Hk']; [lia|].
    replace (Z.of_nat k + 1) with (Z.of_nat (S k)) by lia.
    destruct (IH c (S k) (x - length t) chs t' Hc Hk') as (q & Hq & Hon & Hlin);
      [lia|lia|].
    exists q. split; [exact Hq|]. split; [exact Hon|]. rewrite Hlin. lia.
Qed.

(** The backward loop: it stops on a chunk that exists, at the same
    distance from the start of the book, or at the start when that would be
    before it. *)
Lemma skipBackward_spec (fuel : nat) : forall (c k : nat) (x : Z) chs t,
  b !! c = Some chs -> chs !! k = Some t ->
  (List.length (concat (take c b)) + k < fuel)%nat ->
  exists (c' k' : nat) (x' : Z) chs' t',
    skipBackward b fuel (Z.of_nat c) (Z.of_nat k) x
    = Ok (Position (Z.of_nat c') (Z.of_nat k') x')
    /\ b !! c' = Some chs' /\ chs' !! k' = Some t' /\ 0 <= x'
    /\ (x < 0 -> x' < length t')
    /\ (0 <= x -> c' = c /\ k' = k /\ x' = x)
    /\ charsBefore b c' k' + x' = Z.max 0 (charsBefore b c k + x).
Proof.
  induction fuel as [|fuel IH]; intros c k x chs t Hc Hk Hfuel; [lia|].
  pose proof (charsBefore_nonneg c k) as Hnn.
  cbn [skipBackward].
  destruct (Z.ltb_spec x 0) as [Hneg|Hpos].
  2:{ exists c, k, x, chs, t. repeat split; try done; lia. }
  destruct k as [|k0].
  - replace (Z.of_nat 0 - 1 <? 0) with true by (symmetry; apply Z.ltb_lt; lia).
    destruct c as [|c0].
    + replace (Z.of_nat 0 - 1 <? 0) with true
        by (symmetry; apply Z.ltb_lt; lia).
      pose proof (wf_chunk _ _ _ _ Hc Hk) as Hlen.
      exists 0%nat, 0%nat, 0, chs, t. repeat split; try done; try lia.
      unfold charsBefore in *. simpl in *. lia.
    + replace (Z.of_nat (S c0) - 1 <? 0) with false
        by (symmetry; apply Z.ltb_ge; lia).
      replace (Z.of_nat (S c0) - 1) with (Z.of_nat c0) by lia.
      destruct (lookup_lt_is_Some_2 b c0) as [chs0 Hc0];
        [apply lookup_lt_Some in Hc; lia|].
      destruct (wf_last_chunk _ _ Hc0) as (t0 & Hk0 & Hn0).
      rewrite (chunkCount_at _ _ Hc0).
      replace (Z.of_nat (List.length chs0) - 1)
        with (Z.of_nat (pred (List.length chs0))) by lia.
      rewrite (chunkLength_at _ _ _ _ Hc0 Hk0).
      pose proof (charsBefore_S_chunk _ _ _ _ Hc0 Hk0) as HB1.
      pose proof (charsBefore_S_chapter _ _ Hc0) as HB2.
      replace (S (pred (List.length chs0))) with (List.length chs0) in HB1
        by lia.
      assert (Hlen : (List.length (concat (take (S c0) b))
                      = List.length (concat (take c0 b))
                        + List.length chs0)%nat).
      { rewrite (take_S_r _ _ _ Hc0), concat_app, length_app. simpl.
        rewrite app_nil_r. lia. }
      destruct (IH c0 (pred (List.length chs0)) (x + length t0) chs0 t0
                  Hc0 Hk0) as (c' & k' & x' & chs' & t' & Hq & Hc' & Hk'
                               & Hx' & Hlt & Hsame & Hlin); [lia|].
      exists c', k', x', chs', t'. rewrite Hq.
      repeat split; try done; try lia.
      intros _. destruct (Z.lt_ge_cases (x + length t0) 0) as [Hn|Hp];
        [auto|].
      destruct (Hsame Hp) as (-> & -> & ->).
      assert (t' = t0) by congruence. subst t'. lia.
  - replace (Z.of_nat (S k0) - 1 <? 0) with false
      by (symmetry; apply Z.ltb_ge; lia).
    replace (Z.of_nat (S k0) - 1) with (Z.of_nat k0) by lia.
    destruct (lookup_lt_is_Some_2 chs k0) as [t0 Hk0];
      [apply lookup_lt_Some in Hk; lia|].
    rewrite (chunkLength_at _ _ _ _ Hc Hk0).
    pose proof (charsBefore_S_chunk _ _ _ _ Hc Hk0) as HB1.
    destruct (IH c k0 (x + length t0) chs t0 Hc Hk0)
      as (c' & k' & x' & chs' & t' & Hq & Hc' & Hk' & Hx' & Hlt & Hsame
          & Hlin); [lia|].
    exists c', k', x', chs', t'. rewrite Hq.
    repeat split; try done; try lia.
    intros _. destruct (Z.lt_ge_cases (x + length t0) 0) as [Hn|Hp];
      [auto|].
    destruct (Hsame Hp) as (-> & -> & ->).
    assert (t' = t0) by congruence. subst t'. lia.
Qed.

Lemma validPosition_chunk (p : position) :
  validPosition b p = true ->
  exists (c k : nat) chs t,
    chapterIndex p = Z.of_nat c /\ chunkIndex p = Z.of_nat k
    /\ b !! c = Some chs /\ chs !! k = Some t
    /\ 0 <= charIndex p <= length t.
Proof.
  unfold validPosition. intros H.
  destruct (at_index b (chapterIndex p)) as [chs|] eqn:Hc; [|discriminate].
  apply at_index_Some in Hc as (c & Hceq & Hc).
  destruct (at_index chs (chunkIndex p)) as [t|] eqn:Hk.
  - apply at_index_Some in Hk as (k & Hkeq & Hk).
    apply andb_prop in H as [H1 H2].
    apply Z.leb_le in H1. apply Z.leb_le in H2.
    exists c, k, chs, t. repeat split; done.
  - destruct (wf_chapter _ _ Hc) as [t Ht]. destruct chs; discriminate.
Qed.

Lemma concat_length_split (c : nat) chs :
  b !! c = Some chs ->
  (List.length (concat b)
   = List.length (concat (take c b)) + List.length chs
     + List.length (concat (drop (S c) b)))%nat.
Proof.
  intros Hc. rewrite <- (take_drop_middle _ _ _ Hc) at 1.
  rewrite concat_app. simpl. rewrite !length_app. lia.
Qed.

Lemma concat_drop_length (c : nat) :
  (List.length (concat (drop c b)) <= List.length (concat b))%nat.
Proof.
  rewrite <- (take_drop c b) at 2. rewrite concat_app, length_app. lia.
Qed.

(** [skip] lands on the character whose distance from the start of the book
    is the requested one, brought back within the book. *)
Lemma seek_spec (p : position) (charOffset : Z) :
  validPosition b p = true ->
  exists q, seek b p charOffset = Ok q
    /\ onCharacter b q = true
    /\ linear b q
       = Z.min (Z.max 0 (linear b p + charOffset)) (bookChars b - 1).
Proof.
  intros Hp.
  destruct (validPosition_chunk _ Hp)
    as (c & k & chs & t & Hceq & Hkeq & Hc & Hk & Hx).
  unfold seek. rewrite Hceq, Hkeq.
  pose proof (concat_length_split _ _ Hc) as Hsplit.
  pose proof (lookup_lt_Some _ _ _ Hk) as Hklt.
  destruct (skipBackward_spec (seekFuel b) c k (charIndex p + charOffset)
              chs t Hc Hk)
    as (c' & k' & x' & chs' & t' & Hq & Hc' & Hk' & Hx' & _ & _ & Hlin).
  { unfold seekFuel. lia. }
  rewrite Hq. cbn [chapterIndex chunkIndex charIndex].
  destruct (skipForward_spec (seekFuel b) c' k' x' chs' t' Hc' Hk' Hx')
    as (q & Hq' & Hon & Hlin').
  { unfold seekFuel. pose proof (concat_drop_length c'). lia. }
  exists q. split; [exact Hq'|]. split; [exact Hon|].
  rewrite Hlin', Hlin. unfold linear. rewrite Hceq, Hkeq, !Nat2Z.id.
  f_equal. f_equal. lia.
Qed.

End Book.

(** *** Positions on a character are determined by their offset *)

Section Order.
Variable b : book.

Lemma onCharacter_chunk (p : position) :
  onCharacter b p = true ->
  exists (c k : nat) chs t,
    chapterIndex p = Z.of_nat c /\ chunkIndex p = Z.of_nat k
    /\ b !! c = Some chs /\ chs !! k = Some t
    /\ 0 <= charIndex p < length t.
Proof.
  unfold onCharacter. intros H.
  destruct (chunkLength b (chapterIndex p) (chunkIndex p)) as [len|] eqn:Hl;
    [|discriminate].
  apply chunkLength_Some in Hl as (c & k & chs & t & Ec & Ek & Hc & Hk & ->).
  apply andb_prop in H as [Hlo Hhi].
  apply Z.leb_le in Hlo. apply Z.ltb_lt in Hhi.
  exists c, k, chs, t. repeat split; done.
Qed.

Lemma onCharacter_valid (p : position) :
  onCharacter b p = true -> validPosition b p = true.
Proof.
  intros H.
  destruct (onCharacter_chunk _ H)
    as (c & k & chs & t & Hceq & Hkeq & Hc & Hk & Hx).
  unfold validPosition.
  rewrite Hceq, at_index_of_nat, Hc, Hkeq, at_index_of_nat, Hk.
  apply andb_true_intro. split; apply Z.leb_le; lia.
Qed.

Lemma linear_lt (p q : position) :
  onCharacter b p = true -> onCharacter b q = true ->
  chapterIndex p < chapterIndex q
  \/ (chapterIndex p = chapterIndex q /\ chunkIndex p < chunkIndex q) ->
  linear b p < linear b q.
Proof.
  intros Hp Hq Hlt.
  destruct (onCharacter_chunk _ Hp)
    as (c & k & chs & t & Hceq & Hkeq & Hc & Hk & Hx).
  destruct (onCharacter_chunk _ Hq)
    as (c' & k' & chs' & t' & Hceq' & Hkeq' & Hc' & Hk' & Hx').
  unfold linear. rewrite Hceq, Hkeq, Hceq', Hkeq', !Nat2Z.id.
  pose proof (charsBefore_S_chunk b _ _ _ _ Hc Hk) as HB1.
  destruct Hlt as [Hlt|[Heq Hlt]].
  - pose proof (charsBefore_chapter_le b c c' (S k) chs Hc) as H1.
    pose proof (charsBefore_chunk_le b c' 0 k') as H2. lia.
  - assert (c' = c) by lia. subst c'.
    pose proof (charsBefore_chunk_le b c (S k) k') as H2. lia.
Qed.

Lemma onCharacter_inj (p q : position) :
  onCharacter b p = true -> onCharacter b q = true ->
  linear b p = linear b q -> p = q.
Proof.
  intros Hp Hq Hlin.
  destruct (Z.lt_trichotomy (chapterIndex p) (chapterIndex q))
    as [H|[H|H]].
  - pose proof (linear_lt p q Hp Hq). lia.
  - destruct (Z.lt_trichotomy (chunkIndex p) (chunkIndex q))
      as [H'|[H'|H']].
    + pose proof (linear_lt p q Hp Hq). lia.
    + destruct p as [c k x], q as [c' k' x']. simpl in *. subst c' k'.
      unfold linear in Hlin. simpl in Hlin. f_equal. lia.
    + pose proof (linear_lt q p Hq Hp). lia.
  - pose proof (linear_lt q p Hq Hp). lia.
Qed.

Lemma onCharacter_position_le (p : position) :
  onCharacter b p = true ->
  position_le (Position 0 0 0) p /\ position_le p (lastPosition b).
Proof.
  intros Hp.
  destruct (onCharacter_chunk _ Hp)
    as (c & k & chs & t & Hceq & Hkeq & Hc & Hk & Hx).
  pose proof (lookup_lt_Some _ _ _ Hc) as Hclt.
  pose proof (lookup_lt_Some _ _ _ Hk) as Hklt.
  unfold position_le, lastPosition. cbn [chapterIndex chunkIndex charIndex].
  rewrite Hceq, Hkeq, chapterCount_eq. split; [lia|].
  destruct (decide (S c = List.length b)) as [Hlast|Hnot]; [|lia].
  right. split; [lia|].
  replace (Z.of_nat (List.length b) - 1) with (Z.of_nat c) by lia.
  rewrite (chunkCount_at _ _ _ Hc). cbn [default from_option id].
  destruct (decide (S k = List.length chs)) as [Hlastk|Hnotk]; [|lia].
  right. split; [lia|].
  replace (Z.of_nat (List.length chs) - 1) with (Z.of_nat k) by lia.
  rewrite (chunkLengthOr0_at _ _ _ _ _ Hc Hk). lia.
Qed.

Hypothesis wf : wellFormed b = true.
Hypothesis nonempty : b <> [].

Lemma start_onCharacter :
  onCharacter b (Position 0 0 0) = true /\ linear b (Position 0 0 0) = 0.
Proof.
  destruct b as [|chs b'] eqn:Hb; [done|]. rewrite <- Hb in *.
  assert (Hc : b !! 0%nat = Some chs) by now rewrite Hb.
  destruct (wf_chapter b wf _ _ Hc) as [t Hk].
  pose proof (wf_chunk b wf _ _ _ _ Hc Hk) as Hlen.
  split.
  - unfold onCharacter. cbn [chapterIndex chunkIndex charIndex].
    pose proof (chunkLength_at b 0 0 _ _ Hc Hk) as E.
    change (Z.of_nat 0) with 0 in E. rewrite E.
    apply andb_true_intro. split; [apply Z.leb_le|apply Z.ltb_lt]; lia.
  - reflexivity.
Qed.

Lemma lastPosition_onCharacter :
  onCharacter b (lastPosition b) = true
  /\ linear b (lastPosition b) = bookChars b - 1.
Proof.
  destruct (lookup_lt_is_Some_2 b (pred (List.length b))) as [chs Hc].
  { destruct b; [done|simpl; lia]. }
  pose proof (lookup_lt_Some _ _ _ Hc) as Hclt.
  destruct (wf_last_chunk b wf _ _ Hc) as (t & Hk & Hn).
  pose proof (wf_chunk b wf _ _ _ _ Hc Hk) as Hlen.
  unfold lastPosition. rewrite chapterCount_eq.
  replace (Z.of_nat (List.length b) - 1)
    with (Z.of_nat (pred (List.length b))) by lia.
  rewrite (chunkCount_at _ _ _ Hc). cbn [default from_option id].
  replace (Z.of_nat (List.length chs) - 1)
    with (Z.of_nat (pred (List.length chs))) by lia.
  rewrite (chunkLengthOr0_at _ _ _ _ _ Hc Hk). split.
  - unfold onCharacter. cbn [chapterIndex chunkIndex charIndex].
    rewrite (chunkLength_at _ _ _ _ _ Hc Hk).
    apply andb_true_intro. split; [apply Z.leb_le|apply Z.ltb_lt]; lia.
  - unfold linear. cbn [chapterIndex chunkIndex charIndex].
    rewrite !Nat2Z.id.
    pose proof (charsBefore_S_chunk b _ _ _ _ Hc Hk) as HB1.
    pose proof (charsBefore_S_chapter b _ _ Hc) as HB2.
    pose proof (charsBefore_end b) as HB3.
    replace (S (pred (List.length chs))) with (List.length chs) in HB1
      by lia.
    replace (S (pred (List.length b))) with (List.length b) in HB2 by lia.
    lia.
Qed.

End Order.

(** The chunks of chapters that have text form a well-formed book. *)
Lemma chunked_book_wellFormed (chapters : list (list N)) :
  Forall (fun text => stripWhiteSpace text <> []) chapters ->
  wellFormed (map Chunker.chunkText chapters) = true.
Proof.
  intros Hall. unfold wellFormed. apply forallb_forall. intros chs Hin.
  apply in_map_iff in Hin as (text & <- & Hin).
  rewrite Forall_forall in Hall.
  apply list_elem_of_In in Hin. specialize (Hall _ Hin).
  destruct (ChunkerFacts.chunkText_spec text) as [Hchunks Hstrip].
  destruct (Chunker.chunkText text) as [|c chs] eqn:E.
  - exfalso. apply Hall. rewrite <- Hstrip. reflexivity.
  - apply forallb_forall. intros t Ht. rewrite Forall_forall in Hchunks.
    apply list_elem_of_In in Ht. destruct (Hchunks _ Ht) as [Hne _].
    now destruct t.
Qed.

Lemma validPosition_nonempty (b : book) (p : position) :
  validPosition b p = true -> b <> [].
Proof.
  unfold validPosition, at_index. intros H ->.
  destruct (chapterIndex p <? 0); simpl in H; discriminate.
Qed.

(** C3, as amended. In a book whose chapters all have chunks, [skip] from a
    valid position and any signed character offset gives a position: it is
    valid, it lies between (0,0,0) and the last character of the last chunk
    of the last chapter in reading order, an offset that reaches the start
    of the book or goes before it gives (0,0,0), and an offset that reaches
    the last character or goes past it gives that last position. *)
Theorem skip_stays_in_range (b : book) (p : position) (charOffset : Z) :
  wellFormed b = true ->
  validPosition b p = true ->
  exists q, seek b p charOffset = Ok q
    /\ validPosition b q = true
    /\ position_le (Position 0 0 0) q
    /\ position_le q (lastPosition b)
    /\ (linear b p + charOffset <= 0 -> q = Position 0 0 0)
    /\ (bookChars b - 1 <= linear b p + charOffset -> q = lastPosition b).
Proof.
  intros wf Hp.
  pose proof (validPosition_nonempty _ _ Hp) as Hne.
  destruct (seek_spec b wf p charOffset Hp) as (q & Hq & Hon & Hlin).
  destruct (onCharacter_position_le b q Hon) as [Hlo Hhi].
  destruct (start_onCharacter b wf Hne) as [Hon0 Hlin0].
  destruct (lastPosition_onCharacter b wf Hne) as [HonL HlinL].
  assert (Htot : 0 <= bookChars b - 1).
  { rewrite <- HlinL.
    destruct (onCharacter_chunk b _ HonL)
      as (c & k & ? & ? & ? & ? & ? & ? & ?).
    unfold linear.
    pose proof (charsBefore_nonneg b
                  (Z.to_nat (chapterIndex (lastPosition b)))
                  (Z.to_nat (chunkIndex (lastPosition b)))).
    lia. }
  exists q. split; [exact Hq|].
  split; [now apply onCharacter_valid|].
  split; [exact Hlo|]. split; [exact Hhi|]. split.
  - intros Hle. apply (onCharacter_inj b); [done|done|]. lia.
  - intros Hge. apply (onCharacter_inj b); [done|done|]. lia.
Qed.

Lemma skip_stays_in_range_witness :
  wellFormed twoChapters = true
  /\ validPosition twoChapters (Position 0 1 2) = true
  /\ exists q, seek twoChapters (Position 0 1 2) 100 = Ok q
       /\ validPosition twoChapters q = true
       /\ position_le (Position 0 0 0) q
       /\ position_le q (lastPosition twoChapters)
       /\ (linear twoChapters (Position 0 1 2) + 100 <= 0
           -> q = Position 0 0 0)
       /\ (bookChars twoChapters - 1
             <= linear twoChapters (Position 0 1 2) + 100
           -> q = lastPosition twoChapters).
Proof.
  split; [reflexivity|]. split; [reflexivity|].
  apply (skip_stays_in_range twoChapters (Position 0 1 2) 100); reflexivity.
Defined.

(** C3, as stated, fails where a chapter has no chunk: in the book whose
    first chapter is empty, (1,0,0) satisfies the bounds invariant and
    stepping one character back reads [chapterChunks[0][-1].length], which
    throws; no position is produced. *)
Lemma skip_throws_before_empty_chapter :
  validPosition emptyFirstChapter (Position 1 0 0) = true
  /\ seek emptyFirstChapter (Position 1 0 0) (-1) = TypeError
  /\ ~ (exists q, seek emptyFirstChapter (Position 1 0 0) (-1) = Ok q
                  /\ position_le (Position 0 0 0) q
                  /\ position_le q (lastPosition emptyFirstChapter)).
Proof.
  split; [reflexivity|]. split; [reflexivity|].
  intros (q & Hq & _). vm_compute in Hq. discriminate.
Qed.

(** C4, as amended. In a book whose chapters all have chunks, from a
    position on a character of its chunk (charIndex below the length of the
    chunk) and for a positive offset [k] that does not run past the last
    character, [skip] by [+k] and then by [-k] gives the position back. *)
Theorem skip_forth_and_back (b : book) (p : position) (k : Z) :
  wellFormed b = true ->
  onCharacter b p = true ->
  0 < k ->
  linear b p + k <= bookChars b - 1 ->
  exists q, seek b p k = Ok q /\ seek b q (- k) = Ok p.
Proof.
  intros wf Hon Hk Hfit.
  pose proof (onCharacter_valid b p Hon) as Hp.
  destruct (seek_spec b wf p k Hp) as (q & Hq & Honq & Hlin).
  pose proof (onCharacter_valid b q Honq) as Hvq.
  destruct (seek_spec b wf q (- k) Hvq) as (r & Hr & Honr & Hlinr).
  exists q. split; [exact Hq|]. rewrite Hr. f_equal.
  apply (onCharacter_inj b); [done|done|].
  destruct (onCharacter_chunk b _ Hon) as (c & j & ? & ? & ? & ? & ? & ? & ?).
  assert (0 <= linear b p).
  { unfold linear.
    pose proof (charsBefore_nonneg b (Z.to_nat (chapterIndex p))
                  (Z.to_nat (chunkIndex p))). lia. }
  lia.
Qed.

Lemma skip_forth_and_back_witness :
  wellFormed twoChapters = true
  /\ onCharacter twoChapters (Position 0 0 1) = true
  /\ 0 < 4
  /\ linear twoChapters (Position 0 0 1) + 4 <= bookChars twoChapters - 1
  /\ exists q, seek twoChapters (Position 0 0 1) 4 = Ok q
       /\ seek twoChapters q (- 4) = Ok (Position 0 0 1).
Proof.
  split; [reflexivity|]. split; [reflexivity|]. split; [reflexivity|].
  split; [vm_compute; discriminate|].
  apply (skip_forth_and_back twoChapters (Position 0 0 1) 4);
    [reflexivity|reflexivity|reflexivity|vm_compute; discriminate].
Defined.

(** C4, as stated, fails at a valid position that is not on a character
    (charIndex equal to the length of the chunk, which the bounds invariant
    allows): one character forth and back from (0,0,2) in the chapter
    "ab","cd" gives (0,1,0), and neither seek clamps. It also fails across a
    chapter without chunks, where the forward loop throws. *)
Lemma skip_forth_and_back_fails :
  (validPosition oneChapter (Position 0 0 2) = true
   /\ 0 <= linear oneChapter (Position 0 0 2) - 1
   /\ linear oneChapter (Position 0 0 2) + 1 <= bookChars oneChapter - 1
   /\ seek oneChapter (Position 0 0 2) 1 = Ok (Position 0 1 1)
   /\ seek oneChapter (Position 0 1 1) (-1) = Ok (Position 0 1 0)
   /\ Position 0 1 0 <> Position 0 0 2)
  /\ (validPosition emptyMiddleChapter (Position 0 0 1) = true
      /\ seek emptyMiddleChapter (Position 0 0 1) 1 = TypeError).
Proof.
  split_all; try (vm_compute; reflexivity); vm_compute; discriminate.
Qed.

End SeekFacts.

(** ** Facts about the playback hook *)

Module HookFacts.
Import JS Seek Hook Examples.

Lemma sleepTimer_eqb_refl (t : option sleepTimerValue) :
  sleepTimer_eqb t t = true.
Proof. destruct t as [[n|]|]; simpl; auto using Z.eqb_refl. Qed.

Lemma eqb_refl (x : bool) : Bool.eqb x x = true.
Proof. now destruct x. Qed.

Section Machine.
Variable b : list (list (list N)).

(** *** The flags *)

Lemma speak_flags rev now c k x s :
  isPaused (speak b rev now c k x s) = isPaused s
  /\ (isSpeaking (speak b rev now c k x s) = isSpeaking s
      \/ isSpeaking (speak b rev now c k x s) = false).
Proof.
  unfold speak, armWatchdog.
  repeat case_match; cbn; auto.
Qed.

Lemma exclusive_speak rev now c k x s :
  exclusive s -> exclusive (speak b rev now c k x s).
Proof.
  unfold exclusive. intros H.
  destruct (speak_flags rev now c k x s) as [-> [->| ->]]; [done|done].
Qed.

Lemma exclusive_onend rev now u s :
  exclusive s -> exclusive (onend b rev now u s).
Proof.
  intros H. unfold onend.
  repeat case_match; try apply exclusive_speak; try done;
    unfold exclusive in *; cbn in *; try done.
  all: destruct (isPaused s); auto.
Qed.

Lemma exclusive_handle rev now e s :
  exclusive s -> exclusive (handle b rev now e s).
Proof.
  intros H. destruct e; cbn [handle].
  - reflexivity.
  - reflexivity.
  - reflexivity.
  - unfold jumpToChapter. destruct playOnJump; reflexivity.
  - unfold handleNextChapter, jumpToChapter.
    repeat case_match; try done; reflexivity.
  - unfold handlePrevChapter, jumpToChapter.
    repeat case_match; try done; reflexivity.
  - unfold skip. unfold exclusive in *.
    repeat case_match; try done; cbn; try done.
    all: destruct (isSpeaking s), (isPaused s); done.
  - exact H.
  - exact H.
  - unfold onSpeakTimeout.
    repeat case_match; try apply exclusive_speak; done.
  - unfold onboundary. repeat case_match; exact H.
  - now apply exclusive_onend.
  - unfold exclusive. reflexivity.
  - unfold onwatchdog.
    repeat case_match; try apply exclusive_onend; done.
  - unfold onSleepTick. repeat case_match; exact H.
Qed.

Lemma exclusive_commit prev s :
  exclusive s -> exclusive (commit prev s).
Proof.
  unfold exclusive, commit, sleepTimerEffect, cleanupEffect,
    saveProgressEffect. intros H.
  repeat case_match; cbn in *; try done.
Qed.

Lemma exclusive_step rev now e s :
  exclusive s -> exclusive (step b rev now e s).
Proof.
  intros H. unfold step, effects.
  now apply exclusive_commit, exclusive_commit, exclusive_handle.
Qed.

(** *** What the effects leave alone *)

Lemma commit_indices prev s :
  currentChapterIndex (commit prev s) = currentChapterIndex s
  /\ currentChunkIndex (commit prev s) = currentChunkIndex s
  /\ currentCharIndex (commit prev s) = currentCharIndex s.
Proof.
  unfold commit, sleepTimerEffect, cleanupEffect, saveProgressEffect.
  repeat case_match; cbn; done.
Qed.

Lemma effects_indices prev s :
  currentChapterIndex (effects prev s) = currentChapterIndex s
  /\ currentChunkIndex (effects prev s) = currentChunkIndex s
  /\ currentCharIndex (effects prev s) = currentCharIndex s.
Proof.
  unfold effects.
  destruct (commit_indices s (commit prev s)) as (-> & -> & ->).
  apply commit_indices.
Qed.

Lemma commit_not_speaking prev s :
  isSpeaking s = false ->
  isSpeaking (commit prev s) = false
  /\ isPaused (commit prev s) = isPaused s
  /\ sleepTimer (commit prev s) = sleepTimer s
  /\ error (commit prev s) = error s.
Proof.
  unfold commit, sleepTimerEffect, cleanupEffect, saveProgressEffect.
  intros H. destruct s. cbn in H. subst. cbn.
  repeat case_match; cbn in *; done.
Qed.

Lemma effects_not_speaking prev s :
  isSpeaking s = false ->
  isSpeaking (effects prev s) = false
  /\ isPaused (effects prev s) = isPaused s
  /\ sleepTimer (effects prev s) = sleepTimer s
  /\ error (effects prev s) = error s.
Proof.
  intros H. unfold effects.
  destruct (commit_not_speaking prev s H) as (H1 & H2 & H3 & H4).
  destruct (commit_not_speaking s (commit prev s) H1) as (-> & -> & -> & ->).
  done.
Qed.

Lemma commit_same s : commit s s = s.
Proof.
  assert (Hsave : saveProgressEffect s s = s).
  { unfold saveProgressEffect. now rewrite !eqb_refl, !Z.eqb_refl. }
  assert (Hclean : cleanupEffect s s = s).
  { unfold cleanupEffect. now rewrite !eqb_refl. }
  assert (Hsleep : sleepTimerEffect s s = s).
  { unfold sleepTimerEffect. now rewrite eqb_refl, sleepTimer_eqb_refl. }
  unfold commit. now rewrite Hsave, Hclean, Hsleep.
Qed.

Lemma speak_indices rev now c k x s :
  currentChapterIndex (speak b rev now c k x s) = currentChapterIndex s
  /\ currentChunkIndex (speak b rev now c k x s) = currentChunkIndex s
  /\ currentCharIndex (speak b rev now c k x s) = currentCharIndex s.
Proof.
  unfold speak, armWatchdog. repeat case_match; cbn; done.
Qed.

Lemma status_Speaking s :
  status s = Some Speaking -> isSpeaking s = true /\ isPaused s = false.
Proof. unfold status. destruct (isSpeaking s), (isPaused s); done. Qed.

End Machine.

(** C9. The two booleans are never both true: this holds of the initial
    state, is kept by loading the stored progress, and is kept by every
    event from any state where it holds: play, pause, resume, chapter jumps,
    skip, the callbacks of the engine, the timers, and the expiry of the
    sleep timer, which is one of the effects of [step]. A state where it
    holds has exactly one of the three statuses. *)
Theorem flags_exclusive :
  (forall stored, exclusive (initialState stored))
  /\ (forall stored s, mount stored = Some s -> exclusive s)
  /\ (forall b rev now e s,
        exclusive s -> exclusive (step b rev now e s))
  /\ (forall s, exclusive s -> exists st, status s = Some st).
Proof.
  split; [reflexivity|]. split; [|split].
  - unfold mount, loadProgressEffect. intros stored s H.
    repeat case_match; simplify_eq; reflexivity.
  - intros. now apply exclusive_step.
  - unfold exclusive, status. intros s H.
    destruct (isSpeaking s), (isPaused s); try discriminate; eauto.
Qed.

Lemma flags_exclusive_witness :
  exclusive (playingFirstChunk TimeoutWatchdog)
  /\ exclusive (step oneChapter TimeoutWatchdog 60 Pause
                  (playingFirstChunk TimeoutWatchdog)).
Proof.
  split; [reflexivity|].
  apply (proj1 (proj2 (proj2 flags_exclusive))). reflexivity.
Defined.

(** *** The end of a segment *)

(** C2, as amended. When the engine reports the end of the segment at the
    current position while the status is Speaking: if more chunks remain in
    the chapter, currentChunkIndex goes up by exactly 1 and currentCharIndex
    is reset to 0; if neither a chunk nor a chapter remains and the sleep
    timer is not 'end-of-chapter', the status becomes Idle and
    currentChapterIndex and currentChunkIndex keep their values. *)
Theorem end_of_segment b rev now (u : utterance) (s : state) (n : Z) :
  status s = Some Speaking ->
  uChapter u = currentChapterIndex s ->
  uChunk u = currentChunkIndex s ->
  chunkCount b (uChapter u) = Some n ->
  (uChunk u + 1 < n ->
   currentChunkIndex (step b rev now (EngineEnd u) s)
   = currentChunkIndex s + 1
   /\ currentCharIndex (step b rev now (EngineEnd u) s) = 0)
  /\ (n <= uChunk u + 1 ->
      chapterCount b <= uChapter u + 1 ->
      sleepTimer s <> Some EndOfChapter ->
      status (step b rev now (EngineEnd u) s) = Some Idle
      /\ currentChapterIndex (step b rev now (EngineEnd u) s)
         = currentChapterIndex s
      /\ currentChunkIndex (step b rev now (EngineEnd u) s)
         = currentChunkIndex s).
Proof.
  intros Hst Hchap Hchunk Hn.
  destruct (status_Speaking s Hst) as [Hsp Hpa].
  unfold step. cbn [handle].
  destruct (effects_indices s (onend b rev now u s)) as (Ec & Ek & Ex).
  rewrite Ec, Ek, Ex. clear Ec Ek Ex.
  assert (Hidle : forall t, isSpeaking t = false -> isPaused t = false ->
                            status (effects s t) = Some Idle).
  { intros t H1 H2. unfold status.
    destruct (effects_not_speaking s t H1) as (-> & -> & _). now rewrite H2. }
  revert Hidle. generalize (effects s). intros eff Hidle.
  unfold onend. destruct s as [sp pa chap chunk char err rate timer uref wref
                                 lbt cnt pend stored].
  cbn in Hsp, Hpa, Hchap, Hchunk. subst sp pa.
  cbn -[speak]. rewrite Hn. split.
  - intros Hmore.
    replace (uChunk u + 1 <? n) with true by (symmetry; apply Z.ltb_lt; lia).
    match goal with
    | |- context [speak b rev now ?c ?k ?x ?t] =>
        destruct (speak_indices b rev now c k x t) as (_ & -> & ->)
    end.
    cbn. split; [lia|reflexivity].
  - intros Hlast Hend Htimer.
    replace (uChunk u + 1 <? n) with false by (symmetry; apply Z.ltb_ge; lia).
    replace (uChapter u + 1 <? chapterCount b) with false
      by (symmetry; apply Z.ltb_ge; lia).
    destruct timer as [[t|]|]; try done.
    all: split; [apply Hidle; reflexivity|cbn; done].
Qed.

Lemma end_of_segment_witness :
  status (playingFirstChunk TimeoutWatchdog) = Some Speaking
  /\ currentChunkIndex
       (step oneChapter TimeoutWatchdog 900 (EngineEnd firstChunkUtterance)
          (playingFirstChunk TimeoutWatchdog)) = 1
  /\ currentCharIndex
       (step oneChapter TimeoutWatchdog 900 (EngineEnd firstChunkUtterance)
          (playingFirstChunk TimeoutWatchdog)) = 0.
Proof.
  split; [reflexivity|].
  apply (proj1 (end_of_segment oneChapter TimeoutWatchdog 900
                  firstChunkUtterance (playingFirstChunk TimeoutWatchdog) 2
                  eq_refl eq_refl eq_refl eq_refl)).
  reflexivity.
Defined.

(** C2, as stated, fails when the sleep timer is 'end-of-chapter': at the
    end of the last chunk of the last chapter the hook pauses, so the status
    is Paused and not Idle. *)
Lemma end_of_book_with_chapter_timer :
  let s := step oneChapter TimeoutWatchdog 60
             (SetSleepTimer (Some EndOfChapter))
             (playingLastChunk TimeoutWatchdog) in
  status s = Some Speaking
  /\ utteranceRef s = Some lastChunkUtterance
  /\ currentPosition s = Position 0 1 0
  /\ chunkCount oneChapter 0 = Some 2
  /\ chapterCount oneChapter = 1
  /\ status (step oneChapter TimeoutWatchdog 900
               (EngineEnd lastChunkUtterance) s) = Some Paused
  /\ status (step oneChapter TimeoutWatchdog 900
               (EngineEnd lastChunkUtterance) s) <> Some Idle.
Proof.
  cbv zeta. split_all; try (vm_compute; reflexivity).
  all: vm_compute; discriminate.
Qed.

(** *** Engine errors *)

(** The handler does not look at the kind of the error: every kind sets
    the message and clears [isSpeaking]. *)
Lemma onerror_any_kind b rev now u kind s :
  error (step b rev now (EngineError u kind) s)
  = Some "Ocurrió un error al leer el texto."%string
  /\ isSpeaking (step b rev now (EngineError u kind) s) = false.
Proof.
  unfold step. cbn [handle]. unfold onerror.
  match goal with
  | |- context [effects s ?t] =>
      destruct (effects_not_speaking s t eq_refl) as (-> & _ & _ & ->)
  end.
  split; reflexivity.
Qed.

(** C5 on the hook. After [skip], the error 'interrupted' of the cancelled
    utterance sets the error message and takes the hook from Speaking to
    Idle; so does 'canceled', and so does every kind from every state. *)
Theorem interrupted_sets_error :
  status skipped = Some Speaking
  /\ error skipped = None
  /\ error (step oneChapter TimeoutWatchdog 61
              (EngineError firstChunkUtterance "interrupted") skipped)
     = Some "Ocurrió un error al leer el texto."%string
  /\ status (step oneChapter TimeoutWatchdog 61
               (EngineError firstChunkUtterance "interrupted") skipped)
     = Some Idle
  /\ status (step oneChapter TimeoutWatchdog 61
               (EngineError firstChunkUtterance "canceled") skipped)
     = Some Idle
  /\ (forall b rev now u kind s,
        error (step b rev now (EngineError u kind) s) <> None
        /\ isSpeaking (step b rev now (EngineError u kind) s) = false).
Proof.
  split_all.
  6:{ intros b rev now u kind s.
      destruct (onerror_any_kind b rev now u kind s) as [-> ->]. done. }
  all: vm_compute; reflexivity.
Qed.

(** The second revision of the hook does what C5 says: 'interrupted' and
    'canceled' change nothing, any other kind sets the error and leaves the
    hook idle. *)
Lemma onerror_v2_filters kind s :
  (kind = "interrupted"%string \/ kind = "canceled"%string ->
   HookV2.onerror kind s = s)
  /\ (kind <> "interrupted"%string -> kind <> "canceled"%string ->
      error (HookV2.onerror kind s)
      = Some ("Ocurrió un error en la síntesis de voz: " ++ kind)%string
      /\ status (HookV2.onerror kind s) = Some Idle).
Proof.
  unfold HookV2.onerror. split.
  - intros [-> | ->]; reflexivity.
  - intros H1 H2.
    apply String.eqb_neq in H1. apply String.eqb_neq in H2.
    rewrite H1, H2. split; reflexivity.
Qed.

(** *** Skip *)

(** [skip] moves the hook to the position the seek arithmetic gives. *)
Lemma skip_seeks b rev now seconds (s : state) (q : position) :
  isSpeaking s || isPaused s = true ->
  seek b (currentPosition s) (charOffsetOf seconds (playbackRate s)) = Ok q ->
  currentPosition (step b rev now (Skip seconds) s) = q.
Proof.
  intros Hon Hq. unfold step, currentPosition.
  destruct (effects_indices s (handle b rev now (Skip seconds) s))
    as (-> & -> & ->).
  cbn [handle]. unfold skip. rewrite Hq.
  replace (negb (isSpeaking s) && negb (isPaused s)) with false
    by (destruct (isSpeaking s), (isPaused s); done).
  destruct q. destruct (isPaused s); reflexivity.
Qed.

(** *** The watchdog *)

Lemma commit_watchdog prev s :
  watchdogTimerRef (commit prev s) = watchdogTimerRef s
  \/ watchdogTimerRef (commit prev s) = None.
Proof.
  unfold commit, sleepTimerEffect, cleanupEffect, saveProgressEffect.
  repeat case_match; cbn; auto.
Qed.

Lemma effects_watchdog prev s :
  watchdogTimerRef (effects prev s) = watchdogTimerRef s
  \/ watchdogTimerRef (effects prev s) = None.
Proof.
  unfold effects.
  destruct (commit_watchdog s (commit prev s)) as [-> | ->]; [|auto].
  apply commit_watchdog.
Qed.

Lemma speak_watchdog b rev now c k x s :
  watchdogTimerRef (speak b rev now c k x s) = None
  \/ exists w, watchdogTimerRef (speak b rev now c k x s) = Some w
               /\ uId (wUtterance w) = utteranceCount s.
Proof.
  unfold speak, armWatchdog. repeat case_match; cbn; eauto.
Qed.

Lemma onend_watchdog b rev now u s :
  watchdogTimerRef (onend b rev now u s) = None
  \/ exists w, watchdogTimerRef (onend b rev now u s) = Some w
               /\ uId (wUtterance w) = utteranceCount s.
Proof.
  unfold onend.
  repeat case_match; try (left; reflexivity).
  all: match goal with
       | |- context [speak ?b' ?r ?n ?c ?k ?x ?t] =>
           destruct (speak_watchdog b' r n c k x t) as [H'|(w & H' & Hid)]
       end; [left; exact H'|right; exists w; split; [exact H'|exact Hid]].
Qed.

(** The fired timer is not the one armed after the end of a segment. *)
Lemma end_clears_watchdog b rev now (w : watchdog) (s : state) :
  (uId (wUtterance w) < utteranceCount s)%nat ->
  isWatchdog
    (watchdogTimerRef (step b rev now (EngineEnd (wUtterance w)) s)) w
  = false.
Proof.
  intros Hfresh. unfold step. cbn [handle].
  destruct (effects_watchdog s (onend b rev now (wUtterance w) s))
    as [-> | ->]; [|reflexivity].
  destruct (onend_watchdog b rev now (wUtterance w) s)
    as [-> |(w' & -> & Hid)]; [reflexivity|].
  unfold isWatchdog, sameUtterance. apply Nat.eqb_neq. lia.
Qed.

(** *** The timer and the utterance it watches *)

Lemma armed_speak b rev now c k x s :
  armed (speak b rev now c k x s).
Proof.
  unfold speak, armWatchdog, armed.
  repeat case_match; cbn in *; simplify_eq; cbn; try done; split; try done; lia.
Qed.

Lemma armed_onend b rev now u s : armed (onend b rev now u s).
Proof.
  unfold onend. repeat case_match; try apply armed_speak; done.
Qed.

Lemma armed_handle b rev now e s :
  armed s -> armed (handle b rev now e s).
Proof.
  intros H. destruct e; cbn [handle].
  - exact H.
  - done.
  - exact H.
  - unfold jumpToChapter. destruct playOnJump; exact H.
  - unfold handleNextChapter, jumpToChapter. repeat case_match; exact H.
  - unfold handlePrevChapter, jumpToChapter. repeat case_match; exact H.
  - unfold skip. repeat case_match; exact H.
  - exact H.
  - exact H.
  - unfold onSpeakTimeout. repeat case_match; try apply armed_speak; exact H.
  - unfold onboundary. repeat case_match; exact H.
  - apply armed_onend.
  - done.
  - unfold onwatchdog. repeat case_match; try apply armed_onend; exact H.
  - unfold onSleepTick. repeat case_match; exact H.
Qed.

Lemma armed_commit prev s : armed s -> armed (commit prev s).
Proof.
  unfold armed, commit, sleepTimerEffect, cleanupEffect, saveProgressEffect.
  intros H. repeat case_match; cbn in *; simplify_eq; try done.
Qed.

(** In every state the hook reaches, the timer held by [watchdogTimerRef]
    watches the current utterance, which was issued before. *)
Lemma reachable_armed b rev stored es :
  armed (run b rev es (initialState stored)).
Proof.
  assert (H0 : armed (initialState stored)) by done.
  revert H0. generalize (initialState stored).
  induction es as [|[now e] es IH]; intros s Hs; [exact Hs|].
  cbn [run]. apply IH. unfold step, effects.
  now apply armed_commit, armed_commit, armed_handle.
Qed.

(** C6, as amended. When the timer of the watchdog fires: in the revision
    with the duration-scaled timeout, if the utterance of the timer is still
    the current one and the engine reports that it is speaking, the state
    becomes what the end of that segment would make it; in the revision with
    the interval, the same holds once more than 4 s passed without a
    boundary event. In both, the timer that fired is no longer the one held.
    The timeout [speak] arms is
    max(5000, length / (15 * rate) * 1000 + 10000) milliseconds. *)
Theorem watchdog_acts_as_end b now (w : watchdog) (s : state) :
  watchdogTimerRef s = Some w ->
  (uId (wUtterance w) < utteranceCount s)%nat ->
  (isUtterance (utteranceRef s) (wUtterance w) = true ->
   step b TimeoutWatchdog now (WatchdogTimer true) s
   = step b TimeoutWatchdog now (EngineEnd (wUtterance w)) s
   /\ isWatchdog
        (watchdogTimerRef (step b TimeoutWatchdog now (WatchdogTimer true) s))
        w = false)
  /\ (4000 < now - lastBoundaryTime s ->
      forall engineSpeaking,
        step b IntervalWatchdog now (WatchdogTimer engineSpeaking) s
        = step b IntervalWatchdog now (EngineEnd (wUtterance w)) s
        /\ isWatchdog
             (watchdogTimerRef
                (step b IntervalWatchdog now (WatchdogTimer engineSpeaking) s))
             w = false)
  /\ (forall c k x chs t,
        b !! c = Some chs -> chs !! k = Some t ->
        truthy (substringFrom t x) = true ->
        watchdogTimerRef
          (speak b TimeoutWatchdog now (Z.of_nat c) (Z.of_nat k) x s)
        = Some (Watchdog
                  (Utterance (utteranceCount s) (Z.of_nat c) (Z.of_nat k) x
                     (substringFrom t x))
                  (Qmax 5000
                     (inject_Z (length (substringFrom t x))
                      / (15 * playbackRate s) * 1000 + 10000)%Q))).
Proof.
  intros Hw Hfresh. split; [|split].
  - intros Hcur.
    assert (E : step b TimeoutWatchdog now (WatchdogTimer true) s
                = step b TimeoutWatchdog now (EngineEnd (wUtterance w)) s).
    { unfold step. cbn [handle]. rewrite Hw. unfold onwatchdog.
      now rewrite Hcur. }
    split; [exact E|]. rewrite E. now apply end_clears_watchdog.
  - intros Hstuck engineSpeaking.
    assert (E : step b IntervalWatchdog now (WatchdogTimer engineSpeaking) s
                = step b IntervalWatchdog now (EngineEnd (wUtterance w)) s).
    { unfold step. cbn [handle]. rewrite Hw. unfold onwatchdog.
      replace (now - lastBoundaryTime s >? 4000) with true; [done|].
      symmetry. apply Z.gtb_lt. lia. }
    split; [exact E|]. rewrite E. now apply end_clears_watchdog.
  - intros c k x chs t Hc Hk Htext. unfold speak.
    rewrite SeekFacts.at_index_of_nat, Hc. cbn [mbind option_bind].
    rewrite SeekFacts.at_index_of_nat, Hk. cbn [mbind option_bind].
    rewrite Htext. reflexivity.
Qed.

Lemma watchdog_acts_as_end_witness :
  watchdogTimerRef (playingFirstChunk TimeoutWatchdog)
  = Some (Watchdog firstChunkUtterance
            (watchdogTimeout 2 1))
  /\ step oneChapter TimeoutWatchdog 15000 (WatchdogTimer true)
       (playingFirstChunk TimeoutWatchdog)
     = step oneChapter TimeoutWatchdog 15000 (EngineEnd firstChunkUtterance)
         (playingFirstChunk TimeoutWatchdog).
Proof.
  split; [reflexivity|].
  apply (proj1 (watchdog_acts_as_end oneChapter 15000
                  (Watchdog firstChunkUtterance (watchdogTimeout 2 1))
                  (playingFirstChunk TimeoutWatchdog) eq_refl
                  (Nat.lt_0_succ 0))).
  reflexivity.
Defined.

(** C6, as stated, fails in the revision with the duration-scaled timeout:
    when the timer fires while the engine does not report speaking, the
    callback does nothing; the end of the segment would have moved to the
    next chunk, and the reference to the timer is kept. *)
Lemma watchdog_does_nothing_when_engine_idle :
  let s := playingFirstChunk TimeoutWatchdog in
  status s = Some Speaking
  /\ utteranceRef s = Some firstChunkUtterance
  /\ step oneChapter TimeoutWatchdog 15000 (WatchdogTimer false) s = s
  /\ currentChunkIndex
       (step oneChapter TimeoutWatchdog 15000 (WatchdogTimer false) s) = 0
  /\ currentChunkIndex
       (step oneChapter TimeoutWatchdog 15000
          (EngineEnd firstChunkUtterance) s) = 1
  /\ watchdogTimerRef
       (step oneChapter TimeoutWatchdog 15000 (WatchdogTimer false) s)
     = watchdogTimerRef s
  /\ watchdogTimerRef s <> None.
Proof.
  cbv zeta. split_all; try (vm_compute; reflexivity).
  all: vm_compute; discriminate.
Qed.

(** A chunk of 250 characters at rate 1 has a deadline of 250/15 s plus
    10 s. *)
Lemma watchdogTimeout_250 :
  (watchdogTimeout 250 1 == 80000 # 3)%Q.
Proof. reflexivity. Qed.

(** *** The sleep timer *)

Lemma run_app b rev es1 es2 s :
  run b rev (es1 ++ es2) s = run b rev es2 (run b rev es1 s).
Proof.
  revert s. induction es1 as [|[now e] es1 IH]; intros s; [done|].
  simpl. apply IH.
Qed.

(** A tick with more than one second left only counts down. *)
Lemma tick_counts_down b rev now s (t : Z) :
  isSpeaking s = true -> sleepTimer s = Some (Seconds t) -> 1 < t ->
  step b rev now SleepTick s = setSleepTimer (Some (Seconds (t - 1))) s.
Proof.
  intros Hsp Ht Hlt. unfold step. cbn [handle]. unfold onSleepTick.
  rewrite Ht, Hsp.
  replace (t >? 0) with true by (symmetry; apply Z.gtb_lt; lia).
  cbn [andb].
  assert (E : commit s (setSleepTimer (Some (Seconds (t - 1))) s)
              = setSleepTimer (Some (Seconds (t - 1))) s).
  { assert (E1 : (t =? t - 1) = false) by (apply Z.eqb_neq; lia).
    assert (E2 : (t - 1 <=? 0) = false) by (apply Z.leb_gt; lia).
    unfold commit, saveProgressEffect, cleanupEffect, sleepTimerEffect.
    destruct s as [sp pa chap chunk char err rate timer uref wref lbt cnt
                     pend stored].
    cbn in Hsp, Ht. subst sp timer. destruct pa; cbn.
    all: repeat (progress (rewrite ?E1, ?E2, ?Z.eqb_refl; cbn)).
    all: reflexivity. }
  unfold effects. rewrite E. apply commit_same.
Qed.

(** The tick that takes the timer to zero pauses and clears the timer. *)
Lemma commit_expires prev s :
  isSpeaking prev = true -> sleepTimer prev = Some (Seconds 1) ->
  isSpeaking s = true -> sleepTimer s = Some (Seconds 0) ->
  isSpeaking (commit prev s) = false
  /\ isPaused (commit prev s) = true
  /\ sleepTimer (commit prev s) = None.
Proof.
  intros Hp Htp Hs Hts.
  unfold commit, saveProgressEffect, cleanupEffect, sleepTimerEffect.
  destruct prev as [sp0 pa0 chap0 chunk0 char0 err0 rate0 timer0 uref0 wref0
                      lbt0 cnt0 pend0 stored0].
  destruct s as [sp pa chap chunk char err rate timer uref wref lbt cnt
                   pend stored].
  cbn in Hp, Htp, Hs, Hts. subst. cbn.
  repeat case_match; cbn; done.
Qed.

Lemma tick_expires b rev now s :
  isSpeaking s = true -> sleepTimer s = Some (Seconds 1) ->
  isSpeaking (step b rev now SleepTick s) = false
  /\ isPaused (step b rev now SleepTick s) = true
  /\ sleepTimer (step b rev now SleepTick s) = None.
Proof.
  intros Hsp Ht. unfold step. cbn [handle]. unfold onSleepTick.
  rewrite Ht, Hsp. cbn [andb Z.gtb Z.compare]. unfold effects.
  destruct (commit_expires s (setSleepTimer (Some (Seconds (1 - 1))) s)
              Hsp Ht Hsp eq_refl) as (H1 & H2 & H3).
  match goal with
  | |- context [commit ?p ?t] =>
      destruct (commit_not_speaking p t H1) as (-> & -> & -> & _)
  end.
  done.
Qed.

Lemma ticks_count_down b rev (times : list Z) : forall s (t : Z),
  isSpeaking s = true -> sleepTimer s = Some (Seconds t) ->
  Z.of_nat (List.length times) < t ->
  run b rev (sleepTicks times) s
  = setSleepTimer (Some (Seconds (t - Z.of_nat (List.length times)))) s.
Proof.
  induction times as [|now times IH]; intros s t Hsp Ht Hlt.
  - cbn. rewrite Z.sub_0_r, <- Ht. now destruct s.
  - cbn [sleepTicks map run List.length] in *.
    rewrite (tick_counts_down b rev now s t Hsp Ht) by lia.
    fold (sleepTicks times).
    rewrite (IH _ (t - 1)); [|done|done|lia].
    replace (t - 1 - Z.of_nat (List.length times))
      with (t - Z.of_nat (S (List.length times))) by lia.
    reflexivity.
Qed.

(** C7. With the sleep timer at 30 while Speaking, 30 one-second ticks
    leave the status Paused and the timer absent; after fewer ticks the
    hook is still Speaking with the seconds left. A tick does nothing while
    the hook is not speaking. *)
Theorem sleep_timer_30 b rev (s : state) :
  (status s = Some Speaking -> sleepTimer s = Some (Seconds 30) ->
   forall times : list Z,
     (List.length times = 30%nat ->
      status (run b rev (sleepTicks times) s) = Some Paused
      /\ sleepTimer (run b rev (sleepTicks times) s) = None)
     /\ ((List.length times < 30)%nat ->
         status (run b rev (sleepTicks times) s) = Some Speaking
         /\ sleepTimer (run b rev (sleepTicks times) s)
            = Some (Seconds (30 - Z.of_nat (List.length times)))))
  /\ (isSpeaking s = false ->
      forall now, step b rev now SleepTick s = s).
Proof.
  split.
  - intros Hst Ht times. destruct (status_Speaking s Hst) as [Hsp Hpa]. split.
    + intros Hlen.
      destruct (exists_last (l := times)) as (front & now & ->).
      { intros ->. discriminate. }
      rewrite length_app in Hlen. cbn in Hlen.
      unfold sleepTicks. rewrite map_app. fold (sleepTicks front).
      rewrite run_app. cbn [map run].
      rewrite (ticks_count_down b rev front s 30 Hsp Ht) by lia.
      replace (30 - Z.of_nat (List.length front)) with 1 by lia.
      destruct (tick_expires b rev now
                  (setSleepTimer (Some (Seconds 1)) s) Hsp eq_refl)
        as (H1 & H2 & H3).
      unfold status. now rewrite H1, H2, H3.
    + intros Hlen.
      rewrite (ticks_count_down b rev times s 30 Hsp Ht) by lia.
      unfold status. cbn. now rewrite Hsp, Hpa.
  - intros Hsp now. unfold step. cbn [handle]. unfold onSleepTick.
    rewrite Hsp. cbn [andb].
    assert (E : match sleepTimer s with
                | Some (Seconds _) => s
                | _ => s
                end = s) by now destruct (sleepTimer s) as [[?|]|].
    rewrite E. unfold effects. now rewrite !commit_same.
Qed.

Lemma sleep_timer_30_witness :
  status playingWithTimer = Some Speaking
  /\ sleepTimer playingWithTimer = Some (Seconds 30)
  /\ List.length thirtyTicks = 30%nat
  /\ status (run oneChapter TimeoutWatchdog (sleepTicks thirtyTicks)
               playingWithTimer) = Some Paused
  /\ sleepTimer (run oneChapter TimeoutWatchdog (sleepTicks thirtyTicks)
                   playingWithTimer) = None.
Proof.
  split; [reflexivity|]. split; [reflexivity|]. split; [reflexivity|].
  apply (proj1 (proj1 (sleep_timer_30 oneChapter TimeoutWatchdog
                         playingWithTimer)
                  eq_refl eq_refl thirtyTicks)).
  reflexivity.
Defined.

(** *** Stored progress *)

Lemma commit_stored prev s :
  storedProgress (commit prev s) = storedProgress s
  \/ storedProgress (commit prev s) = Some (Parsed (progressRecord s)).
Proof.
  unfold commit, sleepTimerEffect, cleanupEffect, saveProgressEffect.
  repeat case_match; cbn; auto.
Qed.

Lemma validPosition_beyond (b : list (list (list N))) (p : position) :
  chapterCount b <= chapterIndex p -> validPosition b p = false.
Proof.
  intros H. unfold validPosition, at_index.
  destruct (Z.ltb_spec (chapterIndex p) 0); [done|].
  rewrite lookup_ge_None_2; [done|]. unfold chapterCount in H. lia.
Qed.

(** C8. Pausing while speaking at (c, k, x) stores a record with the fields
    currentChapterIndex = c and currentChunkIndex = k and no others, so no
    currentCharIndex; mounting the hook on what was stored gives the
    position (c, k, 0) whatever x was. *)
Theorem progress_is_chunk_granular b rev now (s : state) :
  isSpeaking s = true ->
  storedProgress (step b rev now Pause s)
  = Some (Parsed
            (JObj [("currentChapterIndex"%string, JNum (currentChapterIndex s));
                   ("currentChunkIndex"%string, JNum (currentChunkIndex s))]))
  /\ (forall fields,
        storedProgress (step b rev now Pause s) = Some (Parsed (JObj fields)) ->
        property "currentCharIndex" fields = None)
  /\ (exists m,
        mount (storedProgress (step b rev now Pause s)) = Some m
        /\ currentPosition m
           = Position (currentChapterIndex s) (currentChunkIndex s) 0).
Proof.
  intros Hsp.
  assert (E : storedProgress (step b rev now Pause s)
              = Some (Parsed (progressRecord s))).
  { unfold step, effects. cbn [handle].
    assert (E1 : storedProgress (commit s (pause s))
                 = Some (Parsed (progressRecord s))).
    { unfold commit, saveProgressEffect, cleanupEffect, sleepTimerEffect.
      destruct s as [sp pa chap chunk char err rate timer uref wref lbt cnt
                       pend stored].
      cbn in Hsp. subst sp. cbn. repeat case_match; reflexivity. }
    destruct (commit_stored (pause s) (commit s (pause s))) as [-> | ->].
    - exact E1.
    - unfold progressRecord.
      now destruct (commit_indices s (pause s)) as (-> & -> & _). }
  rewrite E. unfold progressRecord. split; [reflexivity|]. split.
  - intros fields Hf. injection Hf as <-. reflexivity.
  - eexists. split; [reflexivity|reflexivity].
Qed.

Lemma progress_is_chunk_granular_witness :
  isSpeaking midFirstChunk = true
  /\ currentPosition midFirstChunk = Position 0 0 1
  /\ exists m,
       mount (storedProgress
                (step oneChapter TimeoutWatchdog 80 Pause midFirstChunk))
       = Some m
       /\ currentPosition m = Position 0 0 0.
Proof.
  split; [reflexivity|]. split; [reflexivity|].
  apply (proj2 (proj2 (progress_is_chunk_granular oneChapter TimeoutWatchdog
                         80 midFirstChunk eq_refl))).
Defined.

(** C10. When the stored item parses to an object whose currentChapterIndex
    is the number n, loading sets currentChapterIndex to n and
    currentChunkIndex to the stored number, or to 0 when it is absent or
    null; nothing compares them with the book, so with n at or beyond the
    number of chapters the position breaks the bounds invariant. *)
Theorem load_does_not_validate (s : state) fields (n : Z) :
  storedProgress s = Some (Parsed (JObj fields)) ->
  property "currentChapterIndex" fields = Some (JNum n) ->
  (forall k,
     property "currentChunkIndex" fields = Some (JNum k) ->
     exists s', loadProgressEffect s = Some s'
       /\ currentChapterIndex s' = n /\ currentChunkIndex s' = k
       /\ forall b : list (list (list N)),
            chapterCount b <= n ->
            validPosition b (currentPosition s') = false)
  /\ (property "currentChunkIndex" fields = None
      \/ property "currentChunkIndex" fields = Some JNull ->
      exists s', loadProgressEffect s = Some s'
        /\ currentChapterIndex s' = n /\ currentChunkIndex s' = 0
        /\ forall b : list (list (list N)),
             chapterCount b <= n ->
             validPosition b (currentPosition s') = false).
Proof.
  intros Hs Hn. unfold loadProgressEffect. rewrite Hs, Hn. split.
  - intros k ->. eexists. split; [reflexivity|]. cbn.
    repeat split. intros b Hb. now apply validPosition_beyond.
  - intros [-> | ->]; eexists; (split; [reflexivity|]); cbn;
      repeat split; intros b Hb; now apply validPosition_beyond.
Qed.

Lemma load_does_not_validate_witness :
  exists s',
    mount (Some (Parsed (JObj [("currentChapterIndex"%string, JNum 7);
                               ("currentChunkIndex"%string, JNum 5)])))
    = Some s'
    /\ currentChapterIndex s' = 7 /\ currentChunkIndex s' = 5
    /\ forall b : list (list (list N)),
         chapterCount b <= 7 ->
         validPosition b (currentPosition s') = false.
Proof.
  apply (proj1 (load_does_not_validate
                  (initialState
                     (Some (Parsed
                              (JObj [("currentChapterIndex"%string, JNum 7);
                                     ("currentChunkIndex"%string, JNum 5)]))))
                  _ 7 eq_refl eq_refl) 5 eq_refl).
Defined.

(** In the second revision the effect on [chapters], which runs after the
    load, brings the chapter index back under the number of chapters; the
    chunk index is left as loaded. *)
Lemma chaptersEffect_clamps (chapterCount : Z) (s : state) :
  currentChapterIndex (HookV2.chaptersEffect chapterCount s)
  <= chapterCount - 1
  /\ (0 < chapterCount ->
      currentChunkIndex (HookV2.chaptersEffect chapterCount s)
      = currentChunkIndex s).
Proof.
  unfold HookV2.chaptersEffect. cbn. split; [lia|].
  intros H. replace (chapterCount >? 0) with true; [done|].
  symmetry. apply Z.gtb_lt. lia.
Qed.

(** Every state the hook reaches has a status. *)
Lemma reachable_status b rev stored es :
  exists st, status (run b rev es (initialState stored)) = Some st.
Proof.
  assert (H : exclusive (run b rev es (initialState stored))).
  { assert (H0 : exclusive (initialState stored)) by reflexivity.
    revert H0. generalize (initialState stored).
    induction es as [|[now e] es IH]; intros s Hs; [exact Hs|].
    cbn [run]. apply IH. now apply exclusive_step. }
  unfold exclusive, status in *.
  destruct (isSpeaking _), (isPaused _); try discriminate; eauto.
Qed.

End HookFacts.

(** ** More about the chunker *)

Module ChunkerMore.
Import JS Chunker ChunkerFacts MoreExamples.

Lemma trim_fixed_noLeadingSpace (c : list N) :
  trim c = c -> noLeadingSpace c.
Proof.
  intros <-. apply trimEnd_noLeadingSpace, trimStart_noLeadingSpace.
Qed.

Lemma chunk_has_content (c : list N) :
  c <> [] -> trim c = c -> stripWhiteSpace c <> [].
Proof.
  intros Hne Htrim. apply trim_fixed_noLeadingSpace in Htrim.
  destruct c as [|d c]; [done|]. simpl in Htrim.
  unfold stripWhiteSpace. rewrite filter_cons_True by exact Htrim. done.
Qed.

(** X1. Every chunk of every text is non-empty, has no white space at
    either end and has at most 251 characters; and the chunks put end to
    end are the text up to white space: nothing else is lost, added or
    reordered. *)
Theorem chunks_trimmed_bounded_and_complete (text : list N) :
  Forall (fun chunk =>
            chunk <> [] /\ trim chunk = chunk
            /\ noLeadingSpace chunk /\ noLeadingSpace (rev chunk)
            /\ length chunk <= CHUNK_CHAR_LIMIT + 1) (chunkText text)
  /\ stripWhiteSpace (concat (chunkText text)) = stripWhiteSpace text.
Proof.
  destruct (chunkText_spec text) as [Hall Hstrip]. split; [|exact Hstrip].
  eapply Forall_impl; [exact Hall|]. intros chunk (Hne & Htrim & Hlen).
  split; [exact Hne|]. split; [exact Htrim|].
  split; [now apply trim_fixed_noLeadingSpace|]. split; [|exact Hlen].
  rewrite <- Htrim. unfold trim, trimEnd. rewrite rev_involutive.
  apply trimStart_noLeadingSpace.
Qed.

(** X2. A text has no chunk exactly when it is empty or all white space. *)
Theorem no_chunk_iff_blank (text : list N) :
  chunkText text = [] <-> stripWhiteSpace text = [].
Proof.
  destruct (chunkText_spec text) as [Hall Hstrip]. split.
  - intros E. rewrite E in Hstrip. rewrite <- Hstrip. reflexivity.
  - intros E. destruct (chunkText text) as [|c chunks]; [done|].
    apply Forall_inv in Hall. destruct Hall as (Hne & Htrim & _).
    pose proof (chunk_has_content c Hne Htrim) as Hc.
    rewrite E in Hstrip. simpl in Hstrip.
    unfold stripWhiteSpace in Hstrip. rewrite filter_app in Hstrip.
    apply app_eq_nil in Hstrip as [Hc' _]. done.
Qed.

Lemma no_chunk_iff_blank_witness :
  chunkText blankText = [] /\ stripWhiteSpace blankText = [].
Proof.
  split; [|reflexivity].
  apply (proj2 (no_chunk_iff_blank blankText)). reflexivity.
Defined.

Lemma substring_whole (text : list N) (e : Z) :
  length text <= e -> substring text 0 e = text.
Proof.
  intros H. unfold substring, clampIndex, length in *.
  replace (Z.to_nat (Z.min (Z.max 0 0) (Z.of_nat (List.length text))))
    with 0%nat by lia.
  replace (Z.to_nat (Z.min (Z.max e 0) (Z.of_nat (List.length text))))
    with (List.length text) by lia.
  rewrite Nat.min_0_l, Nat.max_0_l, Nat.sub_0_r. simpl. apply firstn_all.
Qed.

(** X3. A text of at most 250 characters is never cut: its only chunk is
    the text trimmed, or there is none when that is empty. *)
Theorem short_text_is_one_chunk (text : list N) :
  length text <= CHUNK_CHAR_LIMIT ->
  chunkText text = match trim text with [] => [] | t => [t] end.
Proof.
  intros Hlen. unfold chunkText, chunkTextFuel.
  destruct text as [|c text]; [reflexivity|].
  cbn [truthy List.length chunkLoop].
  assert (Hlt : (0 <? length (c :: text)) = true).
  { apply Z.ltb_lt. unfold length. simpl. lia. }
  rewrite Hlt.
  assert (Hend : chunkEndAt (c :: text) 0 = CHUNK_CHAR_LIMIT).
  { unfold chunkEndAt.
    replace (0 + CHUNK_CHAR_LIMIT <? length (c :: text)) with false; [done|].
    symmetry. apply Z.ltb_ge. lia. }
  rewrite Hend, (substring_whole _ _ Hlen).
  assert (Hstop : forall fuel acc,
            chunkLoop fuel (c :: text) CHUNK_CHAR_LIMIT acc = Some acc).
  { intros fuel acc. destruct fuel; cbn [chunkLoop];
      replace (CHUNK_CHAR_LIMIT <? length (c :: text)) with false;
      try done; symmetry; apply Z.ltb_ge; lia. }
  rewrite Hstop. now destruct (trim (c :: text)).
Qed.

Lemma short_text_is_one_chunk_witness :
  length paddedText <= CHUNK_CHAR_LIMIT
  /\ chunkText paddedText = [of_string "Hola."].
Proof.
  split; [vm_compute; discriminate|].
  rewrite (short_text_is_one_chunk paddedText); [reflexivity|].
  vm_compute. discriminate.
Defined.

End ChunkerMore.

(** ** More about the seek arithmetic *)

Module SeekMore.
Import JS Seek SeekFacts Examples MoreExamples.

(** X4. In a book whose chapters all have chunks, [skip] lands on the
    character whose distance from the start of the book is the distance of
    the position it starts from plus the offset, brought back between 0
    and the last character. *)
Theorem seek_lands_on_clamped_offset (b : list (list (list N)))
    (p : position) (charOffset : Z) :
  wellFormed b = true ->
  validPosition b p = true ->
  exists q, seek b p charOffset = Ok q
    /\ onCharacter b q = true
    /\ linear b q
       = Z.min (Z.max 0 (linear b p + charOffset)) (bookChars b - 1).
Proof. intros wf Hp. now apply seek_spec. Qed.

Lemma seek_lands_on_clamped_offset_witness :
  exists q, seek twoChapters (Position 0 1 2) (-3) = Ok q
    /\ onCharacter twoChapters q = true
    /\ linear twoChapters q
       = Z.min (Z.max 0 (linear twoChapters (Position 0 1 2) + -3))
           (bookChars twoChapters - 1).
Proof.
  apply (seek_lands_on_clamped_offset twoChapters (Position 0 1 2) (-3));
    reflexivity.
Defined.

(** X5. Two skips in a row are one skip by the sum of the offsets, when
    the first does not clamp. *)
Theorem seek_composes (b : list (list (list N))) (p : position) (m n : Z) :
  wellFormed b = true ->
  validPosition b p = true ->
  0 <= linear b p + m <= bookChars b - 1 ->
  exists q, seek b p m = Ok q /\ seek b q n = seek b p (m + n).
Proof.
  intros wf Hp Hfit.
  destruct (seek_spec b wf p m Hp) as (q & Hq & Honq & Hlinq).
  destruct (seek_spec b wf q n (onCharacter_valid b q Honq))
    as (r & Hr & Honr & Hlinr).
  destruct (seek_spec b wf p (m + n) Hp) as (r' & Hr' & Honr' & Hlinr').
  exists q. split; [exact Hq|]. rewrite Hr, Hr'. f_equal.
  apply (onCharacter_inj b); [done|done|]. lia.
Qed.

Lemma seek_composes_witness :
  0 <= linear twoChapters (Position 0 0 1) + 3 <= bookChars twoChapters - 1
  /\ exists q, seek twoChapters (Position 0 0 1) 3 = Ok q
       /\ seek twoChapters q (-5) = seek twoChapters (Position 0 0 1) (3 + -5).
Proof.
  split; [split; vm_compute; discriminate|].
  apply (seek_composes twoChapters (Position 0 0 1) 3 (-5));
    [reflexivity|reflexivity|split; vm_compute; discriminate].
Defined.

Lemma linear_le_position_le (b : list (list (list N))) (p q : position) :
  onCharacter b p = true -> onCharacter b q = true ->
  linear b p <= linear b q -> position_le p q.
Proof.
  intros Hp Hq Hle. unfold position_le.
  destruct (Z.lt_trichotomy (chapterIndex p) (chapterIndex q))
    as [H|[H|H]]; [now left| |].
  - right. split; [exact H|].
    destruct (Z.lt_trichotomy (chunkIndex p) (chunkIndex q))
      as [H'|[H'|H']]; [now left| |].
    + right. split; [exact H'|].
      unfold linear in Hle. rewrite H, H' in Hle. lia.
    + pose proof (linear_lt b q p Hq Hp). lia.
  - pose proof (linear_lt b q p Hq Hp). lia.
Qed.

(** X6. A greater offset never lands earlier in the book. *)
Theorem seek_monotone (b : list (list (list N))) (p : position) (m n : Z)
    (qm qn : position) :
  wellFormed b = true ->
  validPosition b p = true ->
  m <= n ->
  seek b p m = Ok qm -> seek b p n = Ok qn ->
  position_le qm qn.
Proof.
  intros wf Hp Hmn Hm Hn.
  destruct (seek_spec b wf p m Hp) as (q & Hq & Honq & Hlinq).
  destruct (seek_spec b wf p n Hp) as (r & Hr & Honr & Hlinr).
  assert (q = qm) by congruence. assert (r = qn) by congruence. subst.
  apply (linear_le_position_le b); [done|done|]. lia.
Qed.

Lemma seek_monotone_witness :
  position_le (Position 0 1 0) (Position 1 0 0).
Proof.
  apply (seek_monotone twoChapters (Position 0 0 1) 1 4
           (Position 0 1 0) (Position 1 0 0));
    [reflexivity|reflexivity|discriminate|reflexivity|reflexivity].
Defined.

(** X7. [skip] throws whenever the walk has to enter a chapter without
    chunks: backward from the first chunk of the chapter after it, and
    forward from the last chunk of the chapter before it. *)
Theorem seek_throws_at_empty_chapter (b : list (list (list N))) :
  (forall (c : nat) (x charOffset : Z),
     b !! c = Some [] ->
     x + charOffset < 0 ->
     seek b (Position (Z.of_nat (S c)) 0 x) charOffset = TypeError)
  /\ (forall (c k : nat) chs t (x charOffset : Z),
        b !! c = Some chs -> chs !! k = Some t ->
        S k = List.length chs ->
        b !! S c = Some [] ->
        length t <= x + charOffset ->
        seek b (Position (Z.of_nat c) (Z.of_nat k) x) charOffset
        = TypeError).
Proof.
  split.
  - intros c x off Hc Hneg. unfold seek, seekFuel.
    cbn [chapterIndex chunkIndex charIndex skipBackward].
    replace (x + off <? 0) with true by (symmetry; apply Z.ltb_lt; lia).
    cbn [Z.sub Z.opp Z.add Z.ltb Z.compare].
    replace (Z.of_nat (S c) - 1 <? 0) with false
      by (symmetry; apply Z.ltb_ge; lia).
    replace (Z.of_nat (S c) - 1) with (Z.of_nat c) by lia.
    rewrite (chunkCount_at b c [] Hc). cbn [List.length Z.of_nat Z.sub].
    unfold chunkLength. rewrite at_index_of_nat, Hc. reflexivity.
  - intros c k chs t x off Hc Hk Hlast Hnext Hge.
    pose proof (length_nonneg t) as Hnn.
    pose proof (concat_length_split b c chs Hc) as Hsplit.
    unfold seek, seekFuel.
    destruct (List.length (concat b)) as [|fuel] eqn:Hfuel; [lia|].
    cbn [chapterIndex chunkIndex charIndex skipBackward].
    replace (x + off <? 0) with false by (symmetry; apply Z.ltb_ge; lia).
    cbn [chapterIndex chunkIndex charIndex skipForward].
    rewrite (chunkLengthOr0_at b c k chs t Hc Hk).
    replace (x + off >=? length t) with true
      by (symmetry; apply Z.geb_le; lia).
    rewrite (chunkLength_at b c k chs t Hc Hk), (chunkCount_at b c chs Hc).
    replace (Z.of_nat k + 1 >=? Z.of_nat (List.length chs)) with true
      by (symmetry; apply Z.geb_le; lia).
    rewrite chapterCount_eq.
    replace (Z.of_nat c + 1 >=? Z.of_nat (List.length b)) with false.
    2:{ symmetry. apply lookup_lt_Some in Hnext.
        destruct (Z.geb_spec (Z.of_nat c + 1) (Z.of_nat (List.length b)));
          [lia|done]. }
    replace (Z.of_nat c + 1) with (Z.of_nat (S c)) by lia.
    assert (Hnone : chunkLength b (Z.of_nat (S c)) 0 = None).
    { unfold chunkLength. now rewrite at_index_of_nat, Hnext. }
    destruct fuel as [|fuel]; cbn [skipForward]; unfold chunkLengthOr0;
      rewrite Hnone; cbn [default from_option id].
    all: replace (x + off - length t >=? 0) with true
           by (symmetry; apply Z.geb_le; lia).
    all: reflexivity.
Qed.

Lemma seek_throws_at_empty_chapter_witness :
  seek emptyMiddleChapter (Position 2 0 1) (-2) = TypeError
  /\ seek emptyMiddleChapter (Position 0 0 0) 5 = TypeError.
Proof.
  split.
  - apply (proj1 (seek_throws_at_empty_chapter emptyMiddleChapter) 1%nat 1 (-2));
      reflexivity.
  - apply (proj2 (seek_throws_at_empty_chapter emptyMiddleChapter)
             0%nat 0%nat [of_string "ab"] (of_string "ab") 0 5);
      try reflexivity. discriminate.
Defined.

End SeekMore.

(** ** The loops of [skip] end, and the second revision *)

Module SeekTermination.
Import JS Seek SeekFacts Examples MoreExamples.

Section Book.
Variable b : list (list (list N)).

Lemma chunk_index_lt (c k : nat) chs t :
  b !! c = Some chs -> chs !! k = Some t ->
  (List.length (concat (take c b)) + k < List.length (concat b))%nat
  /\ (0 < List.length (concat (drop c b)) - k
      <= List.length (concat b))%nat.
Proof.
  intros Hc Hk. pose proof (concat_length_split b c chs Hc) as Hsplit.
  pose proof (lookup_lt_Some _ _ _ Hk) as Hklt.
  pose proof (concat_drop_length b c) as Hdrop.
  rewrite (drop_S _ _ _ Hc) in *. simpl in *. rewrite length_app in *. lia.
Qed.

Lemma skipBackward_ends_from_chunk (fuel : nat) :
  forall (c k : nat) (x : Z) chs t,
    b !! c = Some chs -> chs !! k = Some t ->
    (List.length (concat (take c b)) + k < fuel)%nat ->
    skipBackward b fuel (Z.of_nat c) (Z.of_nat k) x <> OutOfFuel.
Proof.
  induction fuel as [|fuel IH]; intros c k x chs t Hc Hk Hfuel; [lia|].
  cbn [skipBackward]. destruct (x <? 0); [|done].
  destruct k as [|k0].
  - replace (Z.of_nat 0 - 1 <? 0) with true by (symmetry; apply Z.ltb_lt; lia).
    destruct c as [|c0].
    + replace (Z.of_nat 0 - 1 <? 0) with true
        by (symmetry; apply Z.ltb_lt; lia). done.
    + replace (Z.of_nat (S c0) - 1 <? 0) with false
        by (symmetry; apply Z.ltb_ge; lia).
      replace (Z.of_nat (S c0) - 1) with (Z.of_nat c0) by lia.
      destruct (lookup_lt_is_Some_2 b c0) as [chs0 Hc0];
        [apply lookup_lt_Some in Hc; lia|].
      rewrite (chunkCount_at b _ _ Hc0).
      destruct chs0 as [|t0 chs0'] eqn:E.
      * cbn. unfold chunkLength. rewrite at_index_of_nat, Hc0. cbn. done.
      * rewrite <- E in *.
        assert (Hlen : (0 < List.length chs0)%nat) by (rewrite E; simpl; lia).
        destruct (lookup_lt_is_Some_2 chs0 (pred (List.length chs0)))
          as [tl Hl]; [lia|].
        replace (Z.of_nat (List.length chs0) - 1)
          with (Z.of_nat (pred (List.length chs0))) by lia.
        rewrite (chunkLength_at b _ _ _ _ Hc0 Hl).
        apply (IH c0 (pred (List.length chs0)) _ chs0 tl Hc0 Hl).
        assert (Hsplit : (List.length (concat (take (S c0) b))
                          = List.length (concat (take c0 b))
                            + List.length chs0)%nat).
        { rewrite (take_S_r _ _ _ Hc0), concat_app, length_app. simpl.
          rewrite app_nil_r. lia. }
        lia.
  - replace (Z.of_nat (S k0) - 1 <? 0) with false
      by (symmetry; apply Z.ltb_ge; lia).
    replace (Z.of_nat (S k0) - 1) with (Z.of_nat k0) by lia.
    destruct (lookup_lt_is_Some_2 chs k0) as [t0 Hk0];
      [apply lookup_lt_Some in Hk; lia|].
    rewrite (chunkLength_at b _ _ _ _ Hc Hk0).
    apply (IH c k0 _ chs t0 Hc Hk0). lia.
Qed.

Lemma skipBackward_ends (chap chunk x : Z) :
  skipBackward b (seekFuel b) chap chunk x <> OutOfFuel.
Proof.
  unfold seekFuel. cbn [skipBackward]. destruct (x <? 0); [|done].
  assert (Hgo : forall c k, 
            match chunkLength b c k with
            | Some len =>
                skipBackward b (List.length (concat b)) c k (x + len)
            | None => TypeError
            end <> OutOfFuel).
  { intros c k. destruct (chunkLength b c k) as [len|] eqn:E; [|done].
    apply chunkLength_Some in E
      as (c' & k' & chs & t & -> & -> & Hc & Hk & ->).
    apply (skipBackward_ends_from_chunk _ c' k' _ chs t Hc Hk).
    apply (chunk_index_lt c' k' chs t Hc Hk). }
  destruct (chunk - 1 <? 0); [|apply Hgo].
  destruct (chap - 1 <? 0); [done|].
  destruct (chunkCount b (chap - 1)); [apply Hgo|done].
Qed.

Lemma skipForward_ends_off_chunk (fuel : nat) (chap chunk x : Z) :
  chunkLength b chap chunk = None ->
  skipForward b (S fuel) chap chunk x <> OutOfFuel.
Proof.
  intros E. cbn [skipForward]. unfold chunkLengthOr0. rewrite E.
  now destruct (x >=? default 0 None).
Qed.

Lemma skipForward_ends_from_chunk (fuel : nat) :
  forall (c k : nat) (x : Z) chs t,
    b !! c = Some chs -> chs !! k = Some t ->
    (List.length (concat (drop c b)) - k < fuel)%nat ->
    skipForward b fuel (Z.of_nat c) (Z.of_nat k) x <> OutOfFuel.
Proof.
  induction fuel as [|fuel IH]; intros c k x chs t Hc Hk Hfuel; [lia|].
  destruct (chunk_index_lt c k chs t Hc Hk) as [_ [Hpos _]].
  assert (Hsplit : (List.length (concat (drop c b))
                    = List.length chs
                      + List.length (concat (drop (S c) b)))%nat).
  { rewrite (drop_S _ _ _ Hc). simpl. now rewrite length_app. }
  pose proof (lookup_lt_Some _ _ _ Hk) as Hklt.
  cbn [skipForward].
  destruct (x >=? chunkLengthOr0 b (Z.of_nat c) (Z.of_nat k)); [|done].
  rewrite (chunkLength_at b _ _ _ _ Hc Hk), (chunkCount_at b _ _ Hc).
  assert (Hnext : forall c' k' x',
            (chunkLength b (Z.of_nat c') (Z.of_nat k') = None
             \/ (List.length (concat (drop c' b)) - k' < fuel)%nat) ->
            skipForward b fuel (Z.of_nat c') (Z.of_nat k') x' <> OutOfFuel).
  { intros c' k' x' Hcase.
    destruct (chunkLength b (Z.of_nat c') (Z.of_nat k')) as [len|] eqn:E.
    - destruct Hcase as [|Hlt]; [done|].
      apply chunkLength_Some in E
        as (c2 & k2 & chs2 & t2 & Ec & Ek & Hc2 & Hk2 & _).
      apply Nat2Z.inj in Ec. apply Nat2Z.inj in Ek. subst c2 k2.
      now apply (IH c' k' x' chs2 t2).
    - destruct fuel as [|fuel']; [lia|].
      now apply skipForward_ends_off_chunk. }
  destruct (Z.geb_spec (Z.of_nat k + 1) (Z.of_nat (List.length chs))).
  - destruct (Z.of_nat c + 1 >=? chapterCount b).
    + repeat case_match; done.
    + replace (Z.of_nat c + 1) with (Z.of_nat (S c)) by lia.
      apply (Hnext (S c) 0%nat). right. lia.
  - replace (Z.of_nat k + 1) with (Z.of_nat (S k)) by lia.
    apply (Hnext c (S k)). right. lia.
Qed.

Lemma skipForward_ends (chap chunk x : Z) :
  skipForward b (seekFuel b) chap chunk x <> OutOfFuel.
Proof.
  unfold seekFuel.
  destruct (chunkLength b chap chunk) as [len|] eqn:E.
  - apply chunkLength_Some in E
      as (c & k & chs & t & -> & -> & Hc & Hk & _).
    apply (skipForward_ends_from_chunk _ c k x chs t Hc Hk).
    destruct (chunk_index_lt c k chs t Hc Hk) as [_ [_ Hle]]. lia.
  - now apply skipForward_ends_off_chunk.
Qed.

End Book.

(** X8. The two loops of [skip] always end: for every book, position and
    offset, also outside the bounds, [skip] gives a position or throws. *)
Theorem seek_ends (b : list (list (list N))) (p : position) (charOffset : Z) :
  (exists q, seek b p charOffset = Ok q) \/ seek b p charOffset = TypeError.
Proof.
  unfold seek.
  pose proof (skipBackward_ends b (chapterIndex p) (chunkIndex p)
                (charIndex p + charOffset)) as Hback.
  destruct (skipBackward b (seekFuel b) (chapterIndex p) (chunkIndex p)
              (charIndex p + charOffset)) as [q| |]; [|now right|done].
  pose proof (skipForward_ends b (chapterIndex q) (chunkIndex q)
                (charIndex q)) as Hfwd.
  destruct (skipForward b (seekFuel b) (chapterIndex q) (chunkIndex q)
              (charIndex q)) as [r| |]; [left; eauto|now right|done].
Qed.

End SeekTermination.

(** ** The seek arithmetic of the second revision *)

Module SeekV2Facts.
Import JS Seek SeekFacts Examples MoreExamples.

Lemma chunkLengthOr0_nonneg (b : list (list (list N))) (c k : Z) :
  0 <= chunkLengthOr0 b c k.
Proof.
  unfold chunkLengthOr0. destruct (chunkLength b c k) as [len|] eqn:E; [|done].
  apply chunkLength_Some in E as (? & ? & ? & t & _ & _ & _ & _ & ->).
  apply length_nonneg.
Qed.

Section Book.
Variable b : list (list (list N)).
Hypothesis wf : wellFormed b = true.

Lemma endPosition_at (c k : nat) chs t :
  b !! c = Some chs -> chs !! k = Some t ->
  S c = List.length b -> S k = List.length chs ->
  SeekV2.endPosition b = Position (Z.of_nat c) (Z.of_nat k) (length t).
Proof.
  intros Hc Hk Hlc Hlk. unfold SeekV2.endPosition. rewrite chapterCount_eq.
  replace (Z.of_nat (List.length b) - 1) with (Z.of_nat c) by lia.
  rewrite (chunkCount_at b _ _ Hc). cbn [default from_option id].
  replace (Z.of_nat (List.length chs) - 1) with (Z.of_nat k) by lia.
  now rewrite (chunkLengthOr0_at b _ _ _ _ Hc Hk).
Qed.

(** The forward loop of the second revision is the one of the first as
    long as the target is a character of the book, and stops one past the
    last character otherwise. *)
Lemma skipForward_v2 (fuel : nat) : forall (c k : nat) (x : Z) chs t,
  b !! c = Some chs -> chs !! k = Some t -> 0 <= x ->
  (List.length (concat (drop c b)) - k <= fuel)%nat ->
  (charsBefore b c k + x < bookChars b ->
   SeekV2.skipForward b fuel (Z.of_nat c) (Z.of_nat k) x
   = skipForward b fuel (Z.of_nat c) (Z.of_nat k) x)
  /\ (bookChars b <= charsBefore b c k + x ->
      SeekV2.skipForward b fuel (Z.of_nat c) (Z.of_nat k) x
      = Ok (SeekV2.endPosition b)).
Proof.
  induction fuel as [|fuel IH]; intros c k x chs t Hc Hk Hx Hfuel.
  all: assert (Hmu : (k < List.length chs)%nat
                     /\ (List.length (concat (drop c b))
                         = List.length chs
                           + List.length (concat (drop (S c) b)))%nat).
  all: try (split; [eapply lookup_lt_Some; eauto|];
            rewrite (drop_S _ _ _ Hc); simpl; now rewrite length_app).
  all: destruct Hmu as [Hklt Hlen].
  { lia. }
  pose proof (wf_chunk b wf _ _ _ _ Hc Hk) as Hpos.
  pose proof (charsBefore_S_chunk b _ _ _ _ Hc Hk) as HB1.
  pose proof (charsBefore_le_total b c (S k)) as Htot.
  cbn [skipForward SeekV2.skipForward].
  rewrite (chunkLengthOr0_at b _ _ _ _ Hc Hk), (chunkLength_at b _ _ _ _ Hc Hk).
  replace (length t >? 0) with true by (symmetry; apply Z.gtb_lt; lia).
  rewrite andb_true_r.
  destruct (Z.geb_spec x (length t)) as [Hge|Hlt]; [|split; [done|lia]].
  rewrite (chunkCount_at b _ _ Hc).
  destruct (Z.geb_spec (Z.of_nat k + 1) (Z.of_nat (List.length chs)))
    as [Hlast|Hmore].
  - assert (Hk1 : S k = List.length chs) by lia.
    pose proof (charsBefore_S_chapter b _ _ Hc) as HB2.
    rewrite <- Hk1 in HB2. rewrite chapterCount_eq.
    destruct (Z.geb_spec (Z.of_nat c + 1) (Z.of_nat (List.length b)))
      as [Hend|Hnext].
    + assert (Hc1 : S c = List.length b).
      { apply lookup_lt_Some in Hc. lia. }
      pose proof (charsBefore_end b) as HB3. rewrite <- Hc1 in HB3.
      split; [lia|]. intros _.
      replace (Z.of_nat (List.length b) - 1) with (Z.of_nat c) by lia.
      rewrite (chunkCount_at b _ _ Hc).
      replace (Z.of_nat (List.length chs) - 1) with (Z.of_nat k) by lia.
      rewrite (chunkLength_at b _ _ _ _ Hc Hk).
      now rewrite (endPosition_at c k chs t).
    + destruct (lookup_lt_is_Some_2 b (S c)) as [chs' Hc']; [lia|].
      destruct (wf_chapter b wf _ _ Hc') as [t' Hk'].
      replace (Z.of_nat c + 1) with (Z.of_nat (S c)) by lia.
      destruct (IH (S c) 0%nat (x - length t) chs' t' Hc' Hk') as [H1 H2];
        [lia|lia|].
      split; intros H; [apply H1|apply H2]; lia.
  - destruct (lookup_lt_is_Some_2 chs (S k)) as [t' Hk']; [lia|].
    replace (Z.of_nat k + 1) with (Z.of_nat (S k)) by lia.
    destruct (IH c (S k) (x - length t) chs t' Hc Hk') as [H1 H2];
      [lia|lia|].
    split; intros H; [apply H1|apply H2]; lia.
Qed.

End Book.

(** X9. In a book whose chapters all have chunks, the second revision of
    [skip] gives the position of the first whenever the target is a
    character of the book or before its start; past the last character it
    stops at the length of the last chunk, where the first stops on the
    last character. *)
Theorem seek_v2_agrees (b : list (list (list N))) (p : position)
    (charOffset : Z) :
  wellFormed b = true ->
  validPosition b p = true ->
  (linear b p + charOffset < bookChars b ->
   SeekV2.seek b p charOffset = seek b p charOffset)
  /\ (bookChars b <= linear b p + charOffset ->
      SeekV2.seek b p charOffset = Ok (SeekV2.endPosition b)
      /\ seek b p charOffset = Ok (lastPosition b)
      /\ charIndex (SeekV2.endPosition b) = charIndex (lastPosition b) + 1).
Proof.
  intros wf Hp.
  pose proof (validPosition_nonempty b p Hp) as Hne.
  destruct (lastPosition_onCharacter b wf Hne) as [HonL HlinL].
  destruct (seek_spec b wf p charOffset Hp) as (r & Hr & Honr & Hlinr).
  destruct (validPosition_chunk b wf p Hp)
    as (c & k & chs & t & Hceq & Hkeq & Hc & Hk & Hx).
  pose proof (concat_length_split b c chs Hc) as Hsplit.
  pose proof (lookup_lt_Some _ _ _ Hk) as Hklt.
  destruct (skipBackward_spec b wf (seekFuel b) c k (charIndex p + charOffset)
              chs t Hc Hk)
    as (c' & k' & x' & chs' & t' & Hq & Hc' & Hk' & Hx' & _ & _ & Hlin).
  { unfold seekFuel. lia. }
  destruct (skipForward_v2 b wf (seekFuel b) c' k' x' chs' t' Hc' Hk' Hx')
    as [Hsame Hpast].
  { unfold seekFuel. pose proof (concat_drop_length b c'). lia. }
  assert (Hlinp : linear b p = charsBefore b c k + charIndex p).
  { unfold linear. now rewrite Hceq, Hkeq, !Nat2Z.id. }
  pose proof (charsBefore_nonneg b c k) as Hnn.
  assert (Htot : 0 <= bookChars b - 1).
  { rewrite <- HlinL.
    destruct (onCharacter_chunk b _ HonL)
      as (cl & kl & ? & ? & ? & ? & ? & ? & ?).
    unfold linear.
    pose proof (charsBefore_nonneg b
                  (Z.to_nat (chapterIndex (lastPosition b)))
                  (Z.to_nat (chunkIndex (lastPosition b)))).
    lia. }
  assert (Hstep : seek b p charOffset
                  = skipForward b (seekFuel b) (Z.of_nat c') (Z.of_nat k') x').
  { unfold seek. now rewrite Hceq, Hkeq, Hq. }
  assert (Hstep2 : forall r',
            SeekV2.skipForward b (seekFuel b) (Z.of_nat c') (Z.of_nat k') x'
            = Ok r' ->
            SeekV2.seek b p charOffset
            = Ok (Position (chapterIndex r') (chunkIndex r')
                    (Z.max 0 (Z.min (charIndex r')
                                (chunkLengthOr0 b (chapterIndex r')
                                   (chunkIndex r')))))).
  { intros r' E. unfold SeekV2.seek. rewrite Hceq, Hkeq, Hq.
    cbn [chapterIndex chunkIndex charIndex]. now rewrite E. }
  split.
  - intros Hin. rewrite Hr.
    rewrite (Hstep2 r); [|rewrite Hsame by lia; now rewrite <- Hstep].
    destruct (onCharacter_chunk b r Honr)
      as (cr & kr & chsr & tr & Ecr & Ekr & Hcr & Hkr & Hxr).
    rewrite Ecr, Ekr, (chunkLengthOr0_at b _ _ _ _ Hcr Hkr).
    destruct r as [rc rk rx]. cbn in *. subst rc rk. do 2 f_equal. lia.
  - intros Hout. split; [|split].
    + rewrite (Hstep2 (SeekV2.endPosition b)); [|apply Hpast; lia].
      assert (E : chunkLengthOr0 b (chapterIndex (SeekV2.endPosition b))
                    (chunkIndex (SeekV2.endPosition b))
                  = charIndex (SeekV2.endPosition b)) by reflexivity.
      assert (Hnn' : 0 <= charIndex (SeekV2.endPosition b))
        by apply chunkLengthOr0_nonneg.
      rewrite E. destruct (SeekV2.endPosition b) as [ec ek ex].
      cbn in *. do 2 f_equal. lia.
    + rewrite Hr. f_equal. apply (onCharacter_inj b); [done|done|]. lia.
    + unfold SeekV2.endPosition, lastPosition.
      cbn [chapterIndex chunkIndex charIndex]. lia.
Qed.

Lemma seek_v2_agrees_witness :
  SeekV2.seek twoChapters (Position 0 0 1) 4 = seek twoChapters (Position 0 0 1) 4
  /\ SeekV2.seek twoChapters (Position 0 0 1) 100 = Ok (Position 1 1 2)
  /\ seek twoChapters (Position 0 0 1) 100 = Ok (Position 1 1 1).
Proof.
  split.
  - apply (proj1 (seek_v2_agrees twoChapters (Position 0 0 1) 4
                    eq_refl eq_refl)). reflexivity.
  - destruct (proj2 (seek_v2_agrees twoChapters (Position 0 0 1) 100
                       eq_refl eq_refl)) as (H1 & H2 & _);
      [vm_compute; discriminate|].
    split; [exact H1|exact H2].
Defined.

End SeekV2Facts.

Module SeekV2Forward.
Import JS Seek SeekFacts SeekV2Facts Examples MoreExamples.

Section Book.
Variable b : list (list (list N)).

Local Abbreviation inChapter := (SeekV2.inChapter b).

Lemma skipForward_v2_stays (fuel : nat) : forall (c k : nat) (x : Z),
  inChapter c k -> 0 <= x ->
  (List.length (concat (drop c b)) - k <= fuel)%nat ->
  exists (c' k' : nat) (x' : Z),
    SeekV2.skipForward b fuel (Z.of_nat c) (Z.of_nat k) x
    = Ok (Position (Z.of_nat c') (Z.of_nat k') x')
    /\ inChapter c' k' /\ 0 <= x'.
Proof.
  induction fuel as [|fuel IH]; intros c k x (chs & Hc & Hk) Hx Hfuel.
  all: destruct Hk as [[t Hk]|[-> ->]].
  all: try (assert (Hnone : chunkLengthOr0 b (Z.of_nat c) (Z.of_nat 0) = 0)
              by (unfold chunkLengthOr0, chunkLength;
                  now rewrite at_index_of_nat, Hc);
            cbn [SeekV2.skipForward]; rewrite Hnone, andb_false_r;
            exists c, 0%nat, x; split; [done|]; split; [|done];
            exists []; split; [done|]; now right).
  all: assert (Hmu : (k < List.length chs)%nat
                     /\ (List.length (concat (drop c b))
                         = List.length chs
                           + List.length (concat (drop (S c) b)))%nat)
         by (split; [eapply lookup_lt_Some; eauto|];
             rewrite (drop_S _ _ _ Hc); simpl; now rewrite length_app).
  all: destruct Hmu as [Hklt Hlen].
  { lia. }
  pose proof (length_nonneg t) as Hnn.
  cbn [SeekV2.skipForward].
  rewrite (chunkLengthOr0_at b _ _ _ _ Hc Hk).
  destruct (Z.geb_spec x (length t)) as [Hge|Hlt]; cbn [andb].
  2:{ exists c, k, x. split; [done|]. split; [|done].
      exists chs. split; [done|]. left. eauto. }
  destruct (Z.gtb_spec (length t) 0) as [Hpos|Hzero].
  2:{ exists c, k, x. split; [done|]. split; [|done].
      exists chs. split; [done|]. left. eauto. }
  rewrite (chunkCount_at b _ _ Hc).
  destruct (Z.geb_spec (Z.of_nat k + 1) (Z.of_nat (List.length chs)))
    as [Hlast|Hmore].
  - rewrite chapterCount_eq.
    destruct (Z.geb_spec (Z.of_nat c + 1) (Z.of_nat (List.length b)))
      as [Hend|Hnext].
    + assert (Hc1 : S c = List.length b).
      { apply lookup_lt_Some in Hc. lia. }
      replace (Z.of_nat (List.length b) - 1) with (Z.of_nat c) by lia.
      rewrite (chunkCount_at b _ _ Hc).
      replace (Z.of_nat (List.length chs) - 1) with (Z.of_nat k) by lia.
      rewrite (chunkLength_at b _ _ _ _ Hc Hk).
      exists c, k, (length t). split; [done|]. split; [|done].
      exists chs. split; [done|]. left. eauto.
    + destruct (lookup_lt_is_Some_2 b (S c)) as [chs' Hc']; [lia|].
      replace (Z.of_nat c + 1) with (Z.of_nat (S c)) by lia.
      apply (IH (S c) 0%nat (x - length t)); [|lia|lia].
      exists chs'. split; [done|].
      destruct chs' as [|t' chs']; [now right|left; simpl; eauto].
  - destruct (lookup_lt_is_Some_2 chs (S k)) as [t' Hk']; [lia|].
    replace (Z.of_nat k + 1) with (Z.of_nat (S k)) by lia.
    apply (IH c (S k) (x - length t)); [|lia|lia].
    exists chs. split; [done|]. left. eauto.
Qed.

Lemma validPosition_inChapter (p : position) :
  validPosition b p = true ->
  exists c k : nat,
    chapterIndex p = Z.of_nat c /\ chunkIndex p = Z.of_nat k
    /\ inChapter c k.
Proof.
  unfold validPosition. intros H.
  destruct (at_index b (chapterIndex p)) as [chs|] eqn:Hc; [|discriminate].
  apply at_index_Some in Hc as (c & Hceq & Hc).
  destruct (at_index chs (chunkIndex p)) as [t|] eqn:Hk.
  - apply at_index_Some in Hk as (k & Hkeq & Hk).
    exists c, k. split; [done|]. split; [done|].
    exists chs. split; [done|]. left. eauto.
  - destruct chs; [|discriminate].
    apply andb_prop in H as [H1 _]. apply Z.eqb_eq in H1.
    exists c, 0%nat. split; [done|]. split; [lia|].
    exists []. split; [done|]. now right.
Qed.

Lemma inChapter_valid (c k : nat) (x : Z) :
  inChapter c k ->
  validPosition b
    (Position (Z.of_nat c) (Z.of_nat k)
       (Z.max 0 (Z.min x (chunkLengthOr0 b (Z.of_nat c) (Z.of_nat k)))))
  = true.
Proof.
  intros (chs & Hc & [[t Hk]|[-> ->]]); unfold validPosition;
    cbn [chapterIndex chunkIndex charIndex]; rewrite at_index_of_nat, Hc.
  - rewrite at_index_of_nat, Hk, (chunkLengthOr0_at b _ _ _ _ Hc Hk).
    pose proof (length_nonneg t).
    apply andb_true_intro. split; apply Z.leb_le; lia.
  - assert (E : chunkLengthOr0 b (Z.of_nat c) (Z.of_nat 0) = 0).
    { unfold chunkLengthOr0, chunkLength. now rewrite at_index_of_nat, Hc. }
    rewrite E. cbn. apply Z.eqb_eq. lia.
Qed.

End Book.

(** X10. In the second revision a forward [skip] never throws, whatever
    the book: from a position within the bounds and an offset that does
    not go before the start of the chunk, it gives a position within the
    bounds. *)
Theorem seek_v2_forward_stays_valid (b : list (list (list N)))
    (p : position) (charOffset : Z) :
  validPosition b p = true ->
  0 <= charIndex p + charOffset ->
  exists q, SeekV2.seek b p charOffset = Ok q /\ validPosition b q = true.
Proof.
  intros Hp Hx.
  destruct (validPosition_inChapter b p Hp) as (c & k & Hceq & Hkeq & Hin).
  unfold SeekV2.seek, seekFuel. cbn [skipBackward].
  replace (charIndex p + charOffset <? 0) with false
    by (symmetry; apply Z.ltb_ge; lia).
  cbn [chapterIndex chunkIndex charIndex]. rewrite Hceq, Hkeq.
  destruct (skipForward_v2_stays b (S (List.length (concat b))) c k
              (charIndex p + charOffset) Hin Hx)
    as (c' & k' & x' & -> & Hin' & Hx').
  { pose proof (concat_drop_length b c). lia. }
  eexists. split; [reflexivity|].
  cbn [chapterIndex chunkIndex charIndex]. now apply inChapter_valid.
Qed.

Lemma seek_v2_forward_stays_valid_witness :
  seek emptyMiddleChapter (Position 0 0 0) 5 = TypeError
  /\ exists q, SeekV2.seek emptyMiddleChapter (Position 0 0 0) 5 = Ok q
       /\ validPosition emptyMiddleChapter q = true.
Proof.
  split; [reflexivity|].
  apply (seek_v2_forward_stays_valid emptyMiddleChapter (Position 0 0 0) 5);
    [reflexivity|discriminate].
Defined.

End SeekV2Forward.

(** ** More about the playback hook *)

Module HookMore.
Import JS Seek Hook HookAux Player HookFacts Examples MoreExamples.

(** *** What the effects do in each status *)

Lemma commit_frame prev s :
  utteranceCount (commit prev s) = utteranceCount s
  /\ pendingSpeak (commit prev s) = pendingSpeak s
  /\ playbackRate (commit prev s) = playbackRate s
  /\ lastBoundaryTime (commit prev s) = lastBoundaryTime s.
Proof.
  unfold commit, sleepTimerEffect, cleanupEffect, saveProgressEffect.
  repeat case_match; cbn; done.
Qed.

Lemma effects_frame prev s :
  utteranceCount (effects prev s) = utteranceCount s
  /\ pendingSpeak (effects prev s) = pendingSpeak s
  /\ playbackRate (effects prev s) = playbackRate s
  /\ lastBoundaryTime (effects prev s) = lastBoundaryTime s.
Proof.
  unfold effects.
  destruct (commit_frame s (commit prev s)) as (-> & -> & -> & ->).
  apply commit_frame.
Qed.

Lemma saveProgressEffect_stores prev s :
  saveProgressEffect prev s
  = setStoredProgress (storedProgress (saveProgressEffect prev s)) s.
Proof.
  unfold saveProgressEffect. case_match; now destruct s.
Qed.

Lemma cleanupEffect_active prev s :
  active s = true -> cleanupEffect prev s = s.
Proof.
  unfold active, cleanupEffect. intros H.
  destruct (isSpeaking s), (isPaused s); try discriminate;
    cbn; now rewrite ?andb_false_r.
Qed.

Lemma sleepTimerEffect_steady prev s :
  steady s = true -> sleepTimerEffect prev s = s.
Proof.
  unfold steady, timerRunning, sleepTimerEffect. intros H.
  destruct (negb (sleepTimer_eqb _ _ && _)); [|done].
  destruct (sleepTimer s) as [[t|]|]; [|done|done].
  destruct (isSpeaking s); cbn in *; [|done].
  rewrite orb_false_r in H. apply Z.ltb_lt in H.
  replace (t <=? 0) with false; [done|]. symmetry. apply Z.leb_gt. lia.
Qed.

Lemma steady_active s : steady s = true -> active s = true.
Proof.
  unfold steady, active. destruct (isSpeaking s), (isPaused s); cbn;
    try done; now rewrite ?andb_false_r.
Qed.

Lemma commit_steady prev s :
  steady s = true ->
  commit prev s = setStoredProgress (storedProgress (commit prev s)) s.
Proof.
  intros H. unfold commit.
  set (s1 := saveProgressEffect prev s).
  assert (E1 : s1 = setStoredProgress (storedProgress s1) s)
    by apply saveProgressEffect_stores.
  assert (H1 : steady s1 = true) by (rewrite E1; exact H).
  rewrite (cleanupEffect_active prev s1 (steady_active s1 H1)).
  rewrite (sleepTimerEffect_steady prev s1 H1). exact E1.
Qed.

Lemma steady_setStoredProgress i s :
  steady (setStoredProgress i s) = steady s.
Proof. reflexivity. Qed.

Lemma effects_steady prev s :
  steady s = true ->
  effects prev s = setStoredProgress (storedProgress (effects prev s)) s.
Proof.
  intros H. unfold effects.
  rewrite (commit_steady prev s H) at 1 2.
  set (c1 := setStoredProgress (storedProgress (commit prev s)) s).
  assert (H1 : steady c1 = true) by exact H.
  rewrite (commit_steady s c1 H1) at 1. now destruct s.
Qed.

Lemma commit_same_deps prev s :
  isSpeaking prev = isSpeaking s -> isPaused prev = isPaused s ->
  currentChapterIndex prev = currentChapterIndex s ->
  currentChunkIndex prev = currentChunkIndex s ->
  sleepTimer prev = sleepTimer s ->
  commit prev s = s.
Proof.
  intros H1 H2 H3 H4 H5. unfold commit.
  assert (E1 : saveProgressEffect prev s = s).
  { unfold saveProgressEffect.
    now rewrite H1, H2, H3, H4, !eqb_refl, !Z.eqb_refl. }
  rewrite E1.
  assert (E2 : cleanupEffect prev s = s).
  { unfold cleanupEffect. now rewrite H1, H2, !eqb_refl. }
  rewrite E2. unfold sleepTimerEffect.
  now rewrite H1, H5, eqb_refl, sleepTimer_eqb_refl.
Qed.

Lemma effects_same_deps prev s :
  isSpeaking prev = isSpeaking s -> isPaused prev = isPaused s ->
  currentChapterIndex prev = currentChapterIndex s ->
  currentChunkIndex prev = currentChunkIndex s ->
  sleepTimer prev = sleepTimer s ->
  effects prev s = s.
Proof.
  intros. unfold effects. rewrite (commit_same_deps prev s) by done.
  apply commit_same.
Qed.

Lemma commit_idle prev s :
  isSpeaking s = false -> isPaused s = false ->
  commit prev s = s \/ commit prev s = setUtteranceRef None (clearWatchdog s).
Proof.
  intros H1 H2. unfold commit.
  assert (E1 : saveProgressEffect prev s = s).
  { unfold saveProgressEffect. now rewrite H1, H2, andb_false_r. }
  rewrite E1.
  assert (E3 : forall x, isSpeaking x = false -> sleepTimerEffect prev x = x).
  { intros x Hx. unfold sleepTimerEffect. rewrite Hx.
    destruct (negb _); [|done]. now destruct (sleepTimer x) as [[t|]|]. }
  unfold cleanupEffect. destruct (_ && _ && _).
  - right. apply E3. now destruct s.
  - left. now apply E3.
Qed.

Lemma status_flags s st :
  status s = Some st ->
  match st with
  | Idle => isSpeaking s = false /\ isPaused s = false
  | Speaking => isSpeaking s = true /\ isPaused s = false
  | Paused => isSpeaking s = false /\ isPaused s = true
  end.
Proof.
  unfold status. destruct (isSpeaking s), (isPaused s); intros E;
    simplify_eq; done.
Qed.

Lemma step_steady b rev now e s :
  steady (handle b rev now e s) = true ->
  exists i, step b rev now e s = setStoredProgress i (handle b rev now e s).
Proof.
  intros H. eexists. unfold step. now apply effects_steady.
Qed.

(** *** Pause and resume *)

(** X11. Pausing and then resuming gives back a Speaking hook at the same
    position, but with no watchdog: [pause] clears it and [resume] does not
    start one. *)
Theorem pause_then_resume b rev n1 n2 (s : state) :
  timerRunning s = true ->
  status (step b rev n1 Pause s) = Some Paused
  /\ watchdogTimerRef (step b rev n1 Pause s) = None
  /\ status (run b rev [(n1, Pause); (n2, Resume)] s) = Some Speaking
  /\ currentPosition (run b rev [(n1, Pause); (n2, Resume)] s)
     = currentPosition s
  /\ utteranceRef (run b rev [(n1, Pause); (n2, Resume)] s) = utteranceRef s
  /\ watchdogTimerRef (run b rev [(n1, Pause); (n2, Resume)] s) = None.
Proof.
  intros Ht. cbn [run].
  destruct (step_steady b rev n1 Pause s eq_refl) as [i1 E1].
  cbn [handle] in E1. rewrite E1.
  destruct (step_steady b rev n2 Resume (setStoredProgress i1 (pause s)))
    as [i2 E2].
  { unfold steady, timerRunning in *. cbn. now rewrite Ht. }
  cbn [handle] in E2. rewrite E2. now destruct s.
Qed.

Lemma pause_then_resume_witness :
  timerRunning (playingFirstChunk TimeoutWatchdog) = true
  /\ watchdogTimerRef (playingFirstChunk TimeoutWatchdog) <> None
  /\ status (run oneChapter TimeoutWatchdog [(60, Pause); (90, Resume)]
               (playingFirstChunk TimeoutWatchdog)) = Some Speaking
  /\ watchdogTimerRef
       (run oneChapter TimeoutWatchdog [(60, Pause); (90, Resume)]
          (playingFirstChunk TimeoutWatchdog)) = None.
Proof.
  split; [reflexivity|]. split; [vm_compute; discriminate|].
  destruct (pause_then_resume oneChapter TimeoutWatchdog 60 90
              (playingFirstChunk TimeoutWatchdog) eq_refl)
    as (_ & _ & H1 & _ & _ & H2).
  split; [exact H1|exact H2].
Defined.

(** *** Restarts: the 50 ms timeout *)

Lemma commit_goes_idle prev s :
  isSpeaking prev = true -> isSpeaking s = false -> isPaused s = false ->
  commit prev s = setUtteranceRef None (clearWatchdog s).
Proof.
  intros Hp H1 H2. unfold commit.
  assert (E1 : saveProgressEffect prev s = s).
  { unfold saveProgressEffect. now rewrite H1, H2, andb_false_r. }
  rewrite E1.
  assert (E2 : cleanupEffect prev s = setUtteranceRef None (clearWatchdog s)).
  { unfold cleanupEffect. now rewrite Hp, H1, H2. }
  rewrite E2. unfold sleepTimerEffect.
  destruct (negb _); [|done].
  destruct (sleepTimer _) as [[t|]|]; [|done|done].
  now replace (isSpeaking (setUtteranceRef None (clearWatchdog s))) with false.
Qed.

Lemma effects_goes_idle prev s :
  isSpeaking prev = true -> isSpeaking s = false -> isPaused s = false ->
  effects prev s = setUtteranceRef None (clearWatchdog s).
Proof.
  intros Hp H1 H2. unfold effects.
  rewrite (commit_goes_idle prev s Hp H1 H2).
  destruct (commit_idle s (setUtteranceRef None (clearWatchdog s)) H1 H2)
    as [-> | ->]; reflexivity.
Qed.

Lemma substringFrom_0 (t : list N) : substringFrom t 0 = t.
Proof.
  unfold substringFrom, substring, clampIndex, length.
  replace (Z.to_nat (Z.min (Z.max 0 0) (Z.of_nat (List.length t))))
    with 0%nat by lia.
  replace (Z.to_nat (Z.min (Z.max (Z.of_nat (List.length t)) 0)
                       (Z.of_nat (List.length t))))
    with (List.length t) by lia.
  rewrite Nat.min_0_l, Nat.max_0_l, Nat.sub_0_r. simpl. apply firstn_all.
Qed.

Lemma speak_text b rev now c k x (s : state) chs t :
  at_index b c = Some chs -> at_index chs k = Some t ->
  truthy (substringFrom t x) = true ->
  let u := Utterance (utteranceCount s) c k x (substringFrom t x) in
  speak b rev now c k x s
  = armWatchdog rev now u
      (setUtteranceRef (Some u)
         (setUtteranceCount (S (utteranceCount s)) (clearWatchdog s))).
Proof.
  intros Hc Hk Ht. unfold speak. rewrite Hc. cbn. rewrite Hk. cbn.
  now rewrite Ht.
Qed.

Lemma speak_no_text b rev now c k x (s : state) :
  (forall chs t, at_index b c = Some chs -> at_index chs k = Some t ->
                 truthy (substringFrom t x) = false) ->
  speak b rev now c k x s = setIsSpeaking false (clearWatchdog s).
Proof.
  intros H. unfold speak.
  destruct (at_index b c) as [chs|] eqn:Hc; cbn; [|done].
  destruct (at_index chs k) as [t|] eqn:Hk; cbn; [|done].
  now rewrite (H chs t eq_refl Hk).
Qed.

(** X12. The timeout of a restart that finds the hook not speaking any more
    (paused or stopped in the 50 ms) drops the restart and does nothing
    else: no utterance is made. *)
Theorem stale_restart_is_dropped b rev now (s : state) :
  isSpeaking s = false ->
  step b rev now SpeakTimeout s = setPendingSpeak (tail (pendingSpeak s)) s.
Proof.
  intros H. unfold step. cbn [handle]. unfold onSpeakTimeout.
  destruct (pendingSpeak s) as [|p rest] eqn:E.
  - rewrite effects_same_deps by done. destruct s; cbn in *; now subst.
  - cbn [isSpeaking setPendingSpeak]. rewrite H. cbn [tail].
    now apply effects_same_deps.
Qed.

Lemma stale_restart_is_dropped_witness :
  isSpeaking pausedBeforeRestart = false
  /\ pendingSpeak pausedBeforeRestart = [Position 0 0 0]
  /\ step oneChapter TimeoutWatchdog 50 SpeakTimeout pausedBeforeRestart
     = setPendingSpeak [] pausedBeforeRestart.
Proof.
  split; [reflexivity|]. split; [reflexivity|].
  exact (stale_restart_is_dropped oneChapter TimeoutWatchdog 50
           pausedBeforeRestart eq_refl).
Defined.

(** X13. The timeout of a restart, with the hook still speaking, at a
    position whose chunk has text left from the offset: a new utterance for
    that text becomes the current one with its watchdog, and the position is
    not moved. *)
Theorem restart_speaks_chunk b rev now (s : state) p rest chs t :
  isSpeaking s = true -> isPaused s = false -> timerRunning s = true ->
  pendingSpeak s = p :: rest ->
  at_index b (chapterIndex p) = Some chs ->
  at_index chs (chunkIndex p) = Some t ->
  truthy (substringFrom t (charIndex p)) = true ->
  let u := Utterance (utteranceCount s) (chapterIndex p) (chunkIndex p)
             (charIndex p) (substringFrom t (charIndex p)) in
  let s' := step b rev now SpeakTimeout s in
  status s' = Some Speaking
  /\ utteranceRef s' = Some u
  /\ utteranceCount s' = S (utteranceCount s)
  /\ pendingSpeak s' = rest
  /\ (exists delay, watchdogTimerRef s' = Some (Watchdog u delay))
  /\ currentPosition s' = currentPosition s.
Proof.
  intros Hsp Hpa Ht Hpend Hc Hk Htext u s'.
  destruct (step_steady b rev now SpeakTimeout s) as [i E].
  - cbn [handle]. unfold onSpeakTimeout. rewrite Hpend.
    cbn [isSpeaking setPendingSpeak]. rewrite Hsp.
    rewrite (speak_text _ _ _ _ _ _ _ _ _ Hc Hk Htext).
    unfold steady, timerRunning in *.
    destruct rev; cbn; now rewrite Hsp, Ht.
  - subst s'. rewrite E. cbn [handle]. unfold onSpeakTimeout. rewrite Hpend.
    cbn [isSpeaking setPendingSpeak]. rewrite Hsp.
    rewrite (speak_text _ _ _ _ _ _ _ _ _ Hc Hk Htext).
    unfold status.
    destruct rev; cbn; rewrite Hsp, Hpa; split_all; eauto.
Qed.

Lemma restart_speaks_chunk_witness :
  status (step oneChapter TimeoutWatchdog 50 SpeakTimeout startedSecondChunk)
  = Some Speaking
  /\ utteranceRef
       (step oneChapter TimeoutWatchdog 50 SpeakTimeout startedSecondChunk)
     = Some lastChunkUtterance.
Proof.
  destruct (restart_speaks_chunk oneChapter TimeoutWatchdog 50
              startedSecondChunk (Position 0 1 0) []
              [of_string "ab"; of_string "cd"] (of_string "cd")
              eq_refl eq_refl eq_refl eq_refl eq_refl eq_refl eq_refl)
    as (H1 & H2 & _).
  split; [exact H1|exact H2].
Defined.



(** *** Chapter navigation *)

Lemma jumpToChapter_idle c (s s' : state) :
  isSpeaking s = false -> isPaused s = false ->
  s' = effects s (jumpToChapter c false s) ->
  status s' = Some Idle
  /\ pendingSpeak s' = pendingSpeak s
  /\ currentPosition s' = Position c 0 0.
Proof.
  intros Hsp Hpa ->. unfold status, currentPosition.
  destruct (effects_not_speaking s (jumpToChapter c false s) eq_refl)
    as (-> & -> & _).
  destruct (effects_indices s (jumpToChapter c false s)) as (-> & -> & ->).
  destruct (effects_frame s (jumpToChapter c false s)) as (_ & -> & _).
  done.
Qed.

(** X15. The chapter buttons keep the chapter index inside the book: a move
    is by exactly one chapter to its first chunk and character, and at the
    last (first) chapter 'next' ('previous') changes nothing at all. *)
Theorem chapter_navigation_stays_in_book b rev now (s : state) :
  0 <= currentChapterIndex s < chapterCount b ->
  let next := step b rev now NextChapter s in
  let prev := step b rev now PrevChapter s in
  0 <= currentChapterIndex next < chapterCount b
  /\ 0 <= currentChapterIndex prev < chapterCount b
  /\ (currentChapterIndex s < chapterCount b - 1 ->
      currentPosition next = Position (currentChapterIndex s + 1) 0 0)
  /\ (0 < currentChapterIndex s ->
      currentPosition prev = Position (currentChapterIndex s - 1) 0 0)
  /\ (chapterCount b - 1 <= currentChapterIndex s -> next = s)
  /\ (currentChapterIndex s <= 0 -> prev = s).
Proof.
  intros Hin next prev. subst next prev. unfold step, currentPosition.
  destruct (effects_indices s (handle b rev now NextChapter s))
    as (-> & -> & ->).
  destruct (effects_indices s (handle b rev now PrevChapter s))
    as (-> & -> & ->).
  cbn [handle]. unfold handleNextChapter, handlePrevChapter, jumpToChapter.
  destruct (Z.ltb_spec (currentChapterIndex s) (chapterCount b - 1));
    destruct (Z.gtb_spec (currentChapterIndex s) 0);
    destruct (isSpeaking s || isPaused s); cbn; split_all;
    try lia; try done; intros; try lia;
    unfold effects; now rewrite !commit_same.
Qed.

Lemma chapter_navigation_stays_in_book_witness :
  (0 <= currentChapterIndex (playingFirstChunk TimeoutWatchdog)
   < chapterCount oneChapter)
  /\ step oneChapter TimeoutWatchdog 60 NextChapter
       (playingFirstChunk TimeoutWatchdog)
     = playingFirstChunk TimeoutWatchdog
  /\ step oneChapter TimeoutWatchdog 60 PrevChapter
       (playingFirstChunk TimeoutWatchdog)
     = playingFirstChunk TimeoutWatchdog.
Proof.
  assert (Hin : 0 <= currentChapterIndex (playingFirstChunk TimeoutWatchdog)
                < chapterCount oneChapter).
  { vm_compute. split; [discriminate|reflexivity]. }
  destruct (chapter_navigation_stays_in_book oneChapter TimeoutWatchdog 60
              (playingFirstChunk TimeoutWatchdog) Hin)
    as (_ & _ & _ & _ & H1 & H2).
  split; [exact Hin|].
  split; [apply H1|apply H2]; vm_compute; discriminate.
Defined.

(** X16. A chapter button pressed while playing or paused leaves the hook
    Speaking (a paused hook resumes) with a restart pending at the start of
    the new chapter; the utterance and its watchdog are left for that
    restart to replace. Pressed while Idle it only moves the position. *)
Theorem chapter_change_restarts_playback b rev now (s : state) :
  exclusive s -> timerRunning s = true ->
  currentChapterIndex s < chapterCount b - 1 ->
  let s' := step b rev now NextChapter s in
  let start := Position (currentChapterIndex s + 1) 0 0 in
  currentPosition s' = start
  /\ if active s
     then status s' = Some Speaking
          /\ pendingSpeak s' = pendingSpeak s ++ [start]
          /\ utteranceRef s' = utteranceRef s
          /\ watchdogTimerRef s' = watchdogTimerRef s
     else status s' = Some Idle /\ pendingSpeak s' = pendingSpeak s.
Proof.
  intros Hex Ht Hlt s' start. subst s' start.
  assert (E : handle b rev now NextChapter s
              = jumpToChapter (currentChapterIndex s + 1) (active s) s).
  { cbn [handle]. unfold handleNextChapter.
    now replace (currentChapterIndex s <? chapterCount b - 1) with true
      by (symmetry; apply Z.ltb_lt; lia). }
  destruct (active s) eqn:Ha.
  - destruct (step_steady b rev now NextChapter s) as [i Ei].
    + rewrite E. unfold steady, timerRunning in *. cbn. now rewrite Ht.
    + rewrite Ei, E. done.
  - unfold active in Ha. apply orb_false_elim in Ha as [Hsp Hpa].
    unfold step. rewrite E.
    destruct (jumpToChapter_idle (currentChapterIndex s + 1) s _ Hsp Hpa
                eq_refl) as (H1 & H2 & H3).
    done.
Qed.

Lemma chapter_change_restarts_playback_witness :
  status pausedInFirstChapter = Some Paused
  /\ status (step twoChapters TimeoutWatchdog 70 NextChapter
               pausedInFirstChapter) = Some Speaking
  /\ currentPosition (step twoChapters TimeoutWatchdog 70 NextChapter
                        pausedInFirstChapter) = Position 1 0 0.
Proof.
  assert (Hex : exclusive pausedInFirstChapter) by (vm_compute; reflexivity).
  assert (Ht : timerRunning pausedInFirstChapter = true)
    by (vm_compute; reflexivity).
  assert (Hlt : currentChapterIndex pausedInFirstChapter
                < chapterCount twoChapters - 1) by (vm_compute; reflexivity).
  assert (Ha : active pausedInFirstChapter = true)
    by (vm_compute; reflexivity).
  destruct (chapter_change_restarts_playback twoChapters TimeoutWatchdog 70
              pausedInFirstChapter Hex Ht Hlt) as (H1 & H2).
  rewrite Ha in H2. destruct H2 as (H2 & _).
  split; [vm_compute; reflexivity|]. split; [exact H2|exact H1].
Defined.

(** *** The end of a segment *)

(** X17. The end of a segment reported while the hook is not speaking
    (paused or stopped in the meantime) only clears the watchdog: the
    position does not advance. *)
Theorem end_ignored_when_not_speaking b rev now u (s : state) :
  isSpeaking s = false ->
  step b rev now (EngineEnd u) s = clearWatchdog s.
Proof.
  intros H. unfold step. cbn [handle]. unfold onend.
  cbn [isSpeaking clearWatchdog setWatchdogTimerRef]. rewrite H. cbn [negb].
  now apply effects_same_deps.
Qed.

Lemma end_ignored_when_not_speaking_witness :
  currentPosition
    (step oneChapter TimeoutWatchdog 20 (EngineEnd firstChunkUtterance)
       pausedBeforeRestart)
  = Position 0 0 0.
Proof.
  assert (H : isSpeaking pausedBeforeRestart = false)
    by (vm_compute; reflexivity).
  rewrite (end_ignored_when_not_speaking oneChapter TimeoutWatchdog 20
             firstChunkUtterance pausedBeforeRestart H).
  vm_compute. reflexivity.
Defined.

Lemma onend_last_chunk b rev now u (s : state) n :
  isSpeaking s = true ->
  chunkCount b (uChapter u) = Some n -> n <= uChunk u + 1 ->
  onend b rev now u s
  = match sleepTimer s with
    | Some EndOfChapter => setSleepTimer None (pause (clearWatchdog s))
    | _ =>
        if uChapter u + 1 <? chapterCount b then
          speak b rev now (uChapter u + 1) 0 0
            (setCurrentCharIndex 0
               (setCurrentChunkIndex 0
                  (setCurrentChapterIndex (uChapter u + 1)
                     (clearWatchdog s))))
        else setIsSpeaking false (clearWatchdog s)
    end.
Proof.
  intros Hsp Hn Hle. unfold onend.
  cbn [isSpeaking clearWatchdog setWatchdogTimerRef]. rewrite Hsp, Hn.
  cbn [negb].
  replace (uChunk u + 1 <? n) with false by (symmetry; apply Z.ltb_ge; lia).
  reflexivity.
Qed.

(** X18. The end of the last segment of a chapter that is not the last,
    while Speaking without the 'end-of-chapter' timer: the position becomes
    the start of the next chapter; when that chapter starts with a chunk
    with text the hook speaks it, and when that chapter has no chunk
    playback ends there, Idle, although the book goes on. *)
Theorem end_of_chapter_moves_to_next b rev now u (s : state) n :
  status s = Some Speaking -> timerRunning s = true ->
  sleepTimer s <> Some EndOfChapter ->
  chunkCount b (uChapter u) = Some n -> n <= uChunk u + 1 ->
  uChapter u + 1 < chapterCount b ->
  let s' := step b rev now (EngineEnd u) s in
  currentPosition s' = Position (uChapter u + 1) 0 0
  /\ (forall chs t,
        at_index b (uChapter u + 1) = Some chs ->
        at_index chs 0 = Some t -> truthy t = true ->
        status s' = Some Speaking
        /\ utteranceRef s'
           = Some (Utterance (utteranceCount s) (uChapter u + 1) 0 0 t))
  /\ (at_index b (uChapter u + 1) = Some [] ->
      status s' = Some Idle /\ utteranceRef s' = None /\ error s' = error s).
Proof.
  intros Hst Ht Htimer Hn Hle Hnext s'. subst s'.
  apply status_Speaking in Hst as [Hsp Hpa].
  assert (E : handle b rev now (EngineEnd u) s
              = speak b rev now (uChapter u + 1) 0 0
                  (setCurrentCharIndex 0
                     (setCurrentChunkIndex 0
                        (setCurrentChapterIndex (uChapter u + 1)
                           (clearWatchdog s))))).
  { cbn [handle]. rewrite (onend_last_chunk b rev now u s n Hsp Hn Hle).
    replace (uChapter u + 1 <? chapterCount b) with true
      by (symmetry; apply Z.ltb_lt; lia).
    destruct (sleepTimer s) as [[t|]|]; done. }
  split_all.
  - unfold step, currentPosition.
    destruct (effects_indices s (handle b rev now (EngineEnd u) s))
      as (-> & -> & ->).
    rewrite E.
    match goal with
    | |- context [speak ?b' ?r ?n' ?c ?k ?x ?t] =>
        destruct (speak_indices b' r n' c k x t) as (-> & -> & ->)
    end.
    reflexivity.
  - intros chs t Hc Hk Htext.
    rewrite <- (substringFrom_0 t) in Htext.
    destruct (step_steady b rev now (EngineEnd u) s) as [i Ei].
    + rewrite E, (speak_text _ _ _ _ _ _ _ _ _ Hc Hk Htext).
      unfold steady, timerRunning in *.
      destruct rev; cbn; now rewrite Hsp, Ht.
    + rewrite Ei, E, (speak_text _ _ _ _ _ _ _ _ _ Hc Hk Htext).
      rewrite substringFrom_0. unfold status.
      destruct rev; cbn; rewrite Hsp, Hpa; done.
  - intros Hc. unfold step. rewrite E.
    rewrite speak_no_text.
    + rewrite effects_goes_idle; [|exact Hsp|reflexivity|exact Hpa].
      unfold status. cbn. now rewrite Hpa.
    + intros chs t Hc' Hk. rewrite Hc in Hc'. injection Hc' as <-.
      discriminate.
Qed.

Lemma end_of_chapter_moves_to_next_witness :
  chapterCount emptyMiddleChapter = 3
  /\ status (step emptyMiddleChapter TimeoutWatchdog 900
               (EngineEnd firstChunkUtterance) playingBeforeEmptyChapter)
     = Some Idle
  /\ currentPosition
       (step emptyMiddleChapter TimeoutWatchdog 900
          (EngineEnd firstChunkUtterance) playingBeforeEmptyChapter)
     = Position 1 0 0.
Proof.
  assert (Hst : status playingBeforeEmptyChapter = Some Speaking)
    by (vm_compute; reflexivity).
  assert (Ht : timerRunning playingBeforeEmptyChapter = true)
    by (vm_compute; reflexivity).
  assert (Htimer : sleepTimer playingBeforeEmptyChapter <> Some EndOfChapter)
    by (vm_compute; discriminate).
  destruct (end_of_chapter_moves_to_next emptyMiddleChapter TimeoutWatchdog
              900 firstChunkUtterance playingBeforeEmptyChapter 1
              Hst Ht Htimer eq_refl) as (H1 & _ & H2).
  { vm_compute. discriminate. }
  { vm_compute. reflexivity. }
  split; [reflexivity|]. split; [|exact H1].
  now destruct (H2 eq_refl).
Defined.

(** X19. With the sleep timer at 'end-of-chapter', the end of the last
    segment of any chapter pauses where it is and clears the timer; no
    utterance is made for the next chapter. *)
Theorem chapter_timer_pauses_at_chapter_end b rev now u (s : state) n :
  status s = Some Speaking -> sleepTimer s = Some EndOfChapter ->
  chunkCount b (uChapter u) = Some n -> n <= uChunk u + 1 ->
  let s' := step b rev now (EngineEnd u) s in
  status s' = Some Paused
  /\ sleepTimer s' = None
  /\ currentPosition s' = currentPosition s
  /\ watchdogTimerRef s' = None
  /\ utteranceCount s' = utteranceCount s.
Proof.
  intros Hst Htimer Hn Hle s'. subst s'.
  apply status_Speaking in Hst as [Hsp Hpa].
  destruct (step_steady b rev now (EngineEnd u) s) as [i Ei].
  - cbn [handle]. rewrite (onend_last_chunk b rev now u s n Hsp Hn Hle).
    now rewrite Htimer.
  - rewrite Ei. cbn [handle].
    rewrite (onend_last_chunk b rev now u s n Hsp Hn Hle).
    now rewrite Htimer.
Qed.

Lemma chapter_timer_pauses_at_chapter_end_witness :
  chapterCount emptyMiddleChapter = 3
  /\ status (step emptyMiddleChapter TimeoutWatchdog 900
               (EngineEnd firstChunkUtterance) playingUntilChapterEnd)
     = Some Paused
  /\ sleepTimer (step emptyMiddleChapter TimeoutWatchdog 900
                   (EngineEnd firstChunkUtterance) playingUntilChapterEnd)
     = None.
Proof.
  assert (Hst : status playingUntilChapterEnd = Some Speaking)
    by (vm_compute; reflexivity).
  assert (Htimer : sleepTimer playingUntilChapterEnd = Some EndOfChapter)
    by (vm_compute; reflexivity).
  destruct (chapter_timer_pauses_at_chapter_end emptyMiddleChapter
              TimeoutWatchdog 900 firstChunkUtterance playingUntilChapterEnd
              1 Hst Htimer eq_refl) as (H1 & H2 & _).
  { vm_compute. discriminate. }
  split; [reflexivity|]. split; [exact H1|exact H2].
Defined.

(** *** Word boundaries *)

Lemma substringFrom_length (t : list N) (x : Z) :
  0 <= x -> length (substringFrom t x) = Z.max 0 (length t - x).
Proof.
  intros H. unfold substringFrom, substring, clampIndex, length.
  rewrite length_take, length_drop. lia.
Qed.

(** X20. A word boundary of an utterance of the current chunk puts the
    position on the character of the chunk the word starts at: the start
    offset of the utterance plus the index in its text. Boundaries of other
    kinds do not move the position. *)
Theorem word_boundary_stays_on_chunk b rev now u charIdx (s : state) :
  issued b u -> 0 <= charIdx < length (uText u) ->
  uChapter u = currentChapterIndex s -> uChunk u = currentChunkIndex s ->
  let s' := step b rev now (EngineBoundary u "word" charIdx) s in
  currentPosition s'
  = Position (currentChapterIndex s) (currentChunkIndex s)
      (uStart u + charIdx)
  /\ onCharacter b (currentPosition s') = true
  /\ (forall name, String.eqb name "word" = false ->
      currentPosition (step b rev now (EngineBoundary u name charIdx) s)
      = currentPosition s).
Proof.
  intros (chs & t & Hc & Hk & Hstart & Htext) Hidx Hchap Hchunk s'.
  subst s'.
  assert (E : forall name,
            currentPosition (step b rev now (EngineBoundary u name charIdx) s)
            = currentPosition (onboundary rev now u name charIdx s)).
  { intros name. unfold step, currentPosition.
    now destruct (effects_indices s
                    (handle b rev now (EngineBoundary u name charIdx) s))
      as (-> & -> & ->). }
  assert (E1 : currentPosition (onboundary rev now u "word" charIdx s)
               = Position (currentChapterIndex s) (currentChunkIndex s)
                   (uStart u + charIdx)).
  { unfold onboundary. now destruct rev. }
  split_all.
  - now rewrite E, E1.
  - rewrite E, E1. unfold onCharacter, chunkLength. cbn.
    rewrite <- Hchap, <- Hchunk, Hc. cbn. rewrite Hk. cbn.
    rewrite Htext, substringFrom_length in Hidx by done.
    apply andb_true_intro. split; [apply Z.leb_le|apply Z.ltb_lt]; lia.
  - intros name Hname. rewrite E. unfold onboundary. rewrite Hname.
    now destruct rev.
Qed.

Lemma word_boundary_stays_on_chunk_witness :
  currentPosition
    (step oneChapter TimeoutWatchdog 70
       (EngineBoundary firstChunkUtterance "word" 1)
       (playingFirstChunk TimeoutWatchdog))
  = Position 0 0 1.
Proof.
  assert (Hi : issued oneChapter firstChunkUtterance).
  { exists [of_string "ab"; of_string "cd"], (of_string "ab").
    split_all; [reflexivity|reflexivity|discriminate|reflexivity]. }
  assert (Hidx : 0 <= 1 < length (uText firstChunkUtterance)).
  { vm_compute. split; [discriminate|reflexivity]. }
  destruct (word_boundary_stays_on_chunk oneChapter TimeoutWatchdog 70
              firstChunkUtterance 1 (playingFirstChunk TimeoutWatchdog)
              Hi Hidx eq_refl eq_refl) as (H & _).
  exact H.
Defined.

(** *** Skipping *)

(** X21. [skip] changes nothing while the hook is Idle, and nothing when
    one of its loops reads a chunk that does not exist: the exception leaves
    before any state is set. *)
Theorem skip_does_nothing_when_idle_or_failing b rev now seconds (s : state) :
  status s = Some Idle
  \/ seek b (currentPosition s) (charOffsetOf seconds (playbackRate s))
     = TypeError ->
  step b rev now (Skip seconds) s = s.
Proof.
  intros H.
  assert (E : handle b rev now (Skip seconds) s = s).
  { cbn [handle]. unfold skip. destruct H as [H|H].
    - apply status_flags in H as [-> ->]. reflexivity.
    - rewrite H. now destruct (negb _ && negb _). }
  unfold step. rewrite E. unfold effects. now rewrite !commit_same.
Qed.

Lemma skip_does_nothing_when_idle_or_failing_witness :
  step emptyMiddleChapter TimeoutWatchdog 100 (Skip 15)
    playingBeforeEmptyChapter
  = playingBeforeEmptyChapter.
Proof.
  apply skip_does_nothing_when_idle_or_failing.
  right. vm_compute. reflexivity.
Defined.

(** X22. [skip] while Paused resumes: the hook is Speaking at the position
    the loops give, with a restart pending there, and the error is kept. *)
Theorem skip_while_paused_plays b rev now seconds (s : state) q :
  status s = Some Paused -> timerRunning s = true ->
  seek b (currentPosition s) (charOffsetOf seconds (playbackRate s)) = Ok q ->
  let s' := step b rev now (Skip seconds) s in
  status s' = Some Speaking
  /\ currentPosition s' = q
  /\ pendingSpeak s' = pendingSpeak s ++ [q]
  /\ error s' = error s.
Proof.
  intros Hst Ht Hq s'. subst s'.
  apply status_flags in Hst as [Hsp Hpa].
  assert (E : handle b rev now (Skip seconds) s
              = speakLater q
                  (setIsSpeaking true
                     (setIsPaused false
                        (setCurrentCharIndex (charIndex q)
                           (setCurrentChunkIndex (chunkIndex q)
                              (setCurrentChapterIndex (chapterIndex q) s)))))).
  { cbn [handle]. unfold skip. now rewrite Hq, Hsp, Hpa. }
  destruct (step_steady b rev now (Skip seconds) s) as [i Ei].
  - rewrite E. unfold steady, timerRunning in *. cbn. now rewrite Ht.
  - rewrite Ei, E. now destruct q.
Qed.

Lemma skip_while_paused_plays_witness :
  status pausedInFirstChapter = Some Paused
  /\ status (step twoChapters TimeoutWatchdog 70 (Skip 1)
               pausedInFirstChapter) = Some Speaking
  /\ currentPosition (step twoChapters TimeoutWatchdog 70 (Skip 1)
                        pausedInFirstChapter) = Position 1 1 1.
Proof.
  assert (Hst : status pausedInFirstChapter = Some Paused)
    by (vm_compute; reflexivity).
  assert (Ht : timerRunning pausedInFirstChapter = true)
    by (vm_compute; reflexivity).
  assert (Hq : seek twoChapters (currentPosition pausedInFirstChapter)
                 (charOffsetOf 1 (playbackRate pausedInFirstChapter))
               = Ok (Position 1 1 1)) by (vm_compute; reflexivity).
  destruct (skip_while_paused_plays twoChapters TimeoutWatchdog 70 1
              pausedInFirstChapter (Position 1 1 1) Hst Ht Hq)
    as (H1 & H2 & _).
  split; [exact Hst|]. split; [exact H1|exact H2].
Defined.

(** *** Invariants of the reachable states *)

Lemma speak_stored b rev now c k x (s : state) :
  storedProgress (speak b rev now c k x s) = storedProgress s.
Proof. unfold speak, armWatchdog. repeat case_match; reflexivity. Qed.

Lemma onend_stored b rev now u (s : state) :
  storedProgress (onend b rev now u s) = storedProgress s.
Proof.
  unfold onend. repeat case_match; rewrite ?speak_stored; reflexivity.
Qed.

Lemma handle_stored b rev now e (s : state) :
  storedProgress (handle b rev now e s) = storedProgress s.
Proof.
  destruct e; cbn [handle]; try reflexivity.
  - unfold jumpToChapter. now destruct playOnJump.
  - unfold handleNextChapter, jumpToChapter. repeat case_match; reflexivity.
  - unfold handlePrevChapter, jumpToChapter. repeat case_match; reflexivity.
  - unfold skip. repeat case_match; reflexivity.
  - unfold onSpeakTimeout.
    repeat case_match; rewrite ?speak_stored; reflexivity.
  - unfold onboundary. repeat case_match; reflexivity.
  - apply onend_stored.
  - unfold onwatchdog. repeat case_match; rewrite ?onend_stored; reflexivity.
  - unfold onSleepTick. repeat case_match; reflexivity.
Qed.

Lemma commit_progressInStep prev s :
  (isSpeaking prev = isSpeaking s -> isPaused prev = isPaused s ->
   currentChapterIndex prev = currentChapterIndex s ->
   currentChunkIndex prev = currentChunkIndex s -> progressInStep s) ->
  progressInStep (commit prev s).
Proof.
  intros H. unfold commit.
  assert (H1 : progressInStep (saveProgressEffect prev s)).
  { unfold saveProgressEffect.
    destruct (isSpeaking s || isPaused s) eqn:Ha.
    - rewrite andb_true_r.
      destruct (negb _) eqn:Hd; [intros _; reflexivity|].
      apply negb_false_iff in Hd.
      apply andb_prop in Hd as [Hd H4]. apply andb_prop in Hd as [Hd H3].
      apply andb_prop in Hd as [Hd1 Hd2].
      apply H; [now apply eqb_prop|now apply eqb_prop|lia|lia].
    - rewrite andb_false_r. unfold progressInStep, active. now rewrite Ha. }
  set (s1 := saveProgressEffect prev s) in *.
  assert (H2 : progressInStep (cleanupEffect prev s1)).
  { unfold cleanupEffect. now destruct (_ && _ && _). }
  set (s2 := cleanupEffect prev s1) in *.
  unfold sleepTimerEffect. destruct (negb _); [|exact H2].
  destruct (sleepTimer s2) as [[t|]|]; [|exact H2|exact H2].
  destruct (isSpeaking s2) eqn:Hsp; cbn [negb]; [|exact H2].
  destruct (t <=? 0); [|exact H2].
  intros _. unfold progressInStep, active in H2. rewrite Hsp in H2.
  exact (H2 eq_refl).
Qed.

Lemma step_progressInStep b rev now e (s : state) :
  progressInStep s -> progressInStep (step b rev now e s).
Proof.
  intros H. unfold step, effects.
  apply commit_progressInStep. intros _ _ _ _.
  apply commit_progressInStep. intros H1 H2 H3 H4.
  unfold progressInStep, active, progressRecord in *.
  rewrite <- H1, <- H2, <- H3, <- H4, handle_stored. exact H.
Qed.

(** X23. Whatever the events, while the hook is playing or paused the item
    stored under the book's progress key is the record of the current
    chapter and chunk: the save effect keeps it in step. *)
Theorem stored_progress_in_step b rev stored es (s0 : state) :
  mount stored = Some s0 ->
  active (run b rev es s0) = true ->
  storedProgress (run b rev es s0)
  = Some (Parsed (progressRecord (run b rev es s0))).
Proof.
  intros Hm. change (progressInStep (run b rev es s0)).
  assert (H0 : progressInStep s0).
  { unfold mount, loadProgressEffect in Hm. cbn in Hm.
    repeat case_match; simplify_eq; intros Ha; discriminate Ha. }
  clear Hm. revert s0 H0.
  induction es as [|[now e] es IH]; intros s0 H0; [exact H0|].
  cbn [run]. apply IH. now apply step_progressInStep.
Qed.

Lemma stored_progress_in_step_witness :
  storedProgress pausedInFirstChapter
  = Some (Parsed (progressRecord pausedInFirstChapter)).
Proof.
  apply (stored_progress_in_step twoChapters TimeoutWatchdog None
           [(0, Play 0 0); (50, SpeakTimeout); (60, Pause)]
           (initialState None)).
  - reflexivity.
  - vm_compute. reflexivity.
Defined.

(** X24. Whatever the events, a watchdog timer held by the hook watches the
    current utterance, and that utterance was made by [speak] before. *)
Theorem watchdog_watches_current_utterance b rev stored es w :
  watchdogTimerRef (run b rev es (initialState stored)) = Some w ->
  utteranceRef (run b rev es (initialState stored)) = Some (wUtterance w)
  /\ (uId (wUtterance w)
      < utteranceCount (run b rev es (initialState stored)))%nat.
Proof.
  intros H. pose proof (reachable_armed b rev stored es) as Ha.
  unfold armed in Ha. now rewrite H in Ha.
Qed.

Lemma watchdog_watches_current_utterance_witness :
  utteranceRef (playingFirstChunk TimeoutWatchdog)
  = Some firstChunkUtterance.
Proof.
  destruct (watchdog_watches_current_utterance oneChapter TimeoutWatchdog
              None [(0, Play 0 0); (50, SpeakTimeout)]
              (Watchdog firstChunkUtterance (watchdogTimeout 2 1)))
    as [H _]; [vm_compute; reflexivity|exact H].
Defined.

(** *** The play/pause button of the player *)

(** X25. The play/pause button toggles: Speaking becomes Paused, and Paused
    or Idle becomes Speaking, at the same chapter and chunk; from Idle the
    chunk is restarted from its first character. *)
Theorem play_pause_toggles b rev now (s : state) :
  exclusive s -> timerRunning s = true ->
  let s' := step b rev now (handlePlayPause s) s in
  status s' = Some (if isSpeaking s then Paused else Speaking)
  /\ currentChapterIndex s' = currentChapterIndex s
  /\ currentChunkIndex s' = currentChunkIndex s
  /\ (status s = Some Idle ->
      currentCharIndex s' = 0
      /\ pendingSpeak s'
         = pendingSpeak s
           ++ [Position (currentChapterIndex s) (currentChunkIndex s) 0]).
Proof.
  intros Hex Ht s'. subst s'. unfold exclusive in Hex.
  destruct (step_steady b rev now (handlePlayPause s) s) as [i Ei].
  - unfold handlePlayPause, steady, timerRunning in *.
    destruct (isSpeaking s), (isPaused s); cbn; try done; now rewrite Ht.
  - rewrite Ei. unfold handlePlayPause, status.
    destruct (isSpeaking s), (isPaused s); cbn; try done.
Qed.

Lemma play_pause_toggles_witness :
  status (playingFirstChunk TimeoutWatchdog) = Some Speaking
  /\ status (step oneChapter TimeoutWatchdog 60
               (handlePlayPause (playingFirstChunk TimeoutWatchdog))
               (playingFirstChunk TimeoutWatchdog)) = Some Paused.
Proof.
  split; [reflexivity|].
  destruct (play_pause_toggles oneChapter TimeoutWatchdog 60
              (playingFirstChunk TimeoutWatchdog) eq_refl eq_refl)
    as (H & _).
  exact H.
Defined.

End HookMore.

(** ** Facts about the player and the library *)

Module PlayerFacts.
Import JS Seek Hook Player SeekFacts Examples MoreExamples.

Lemma spokenChars_spec (chunks : list (list N)) (count : nat) :
  forall (i : nat) (acc : Z),
    (i <= List.length chunks)%nat ->
    spokenChars chunks i count acc
    = if (i + count <=? List.length chunks)%nat
      then Ok (acc + sumLengths (take count (drop i chunks)))
      else TypeError.
Proof.
  induction count as [|count IH]; intros i acc Hi.
  - cbn [spokenChars]. rewrite Nat.add_0_r.
    replace (i <=? List.length chunks)%nat with true
      by (symmetry; apply Nat.leb_le; lia).
    rewrite take_0. cbn. now rewrite Z.add_0_r.
  - cbn [spokenChars]. destruct (chunks !! i) as [t|] eqn:E.
    + apply lookup_lt_Some in E as Hlt. rewrite IH by exact Hlt.
      replace (S i + count)%nat with (i + S count)%nat by lia.
      destruct (i + S count <=? List.length chunks)%nat; [|done].
      rewrite (drop_S _ _ _ E), firstn_cons.
      change (sumLengths (t :: ?l)) with (length t + sumLengths l).
      f_equal. lia.
    + apply lookup_ge_None_1 in E.
      now replace (i + S count <=? List.length chunks)%nat with false
        by (symmetry; apply Nat.leb_gt; lia).
Qed.

Lemma fold_left_lengths (chunks : list (list N)) (acc : Z) :
  fold_left (fun acc chunk => acc + length chunk) chunks acc
  = acc + sumLengths chunks.
Proof.
  revert acc. induction chunks as [|t chunks IH]; intros acc;
    cbn [fold_left].
  - cbn. lia.
  - rewrite IH.
    change (sumLengths (t :: chunks)) with (length t + sumLengths chunks).
    lia.
Qed.

Lemma percentage_bounds (spoken total : Z) :
  0 <= spoken <= total -> 0 < total ->
  (0 <= inject_Z spoken / inject_Z total * 100)%Q
  /\ (inject_Z spoken / inject_Z total * 100 <= 100)%Q.
Proof.
  intros H Ht. destruct total as [|t|t]; [lia| |lia].
  unfold Qle, Qdiv, Qmult, Qinv, inject_Z. cbn. split; nia.
Qed.

(** X26. The progress within the chapter: at a position within the bounds
    of the book it is computed without an exception and lies between 0 and
    100; with a chunk index beyond the number of chunks of a chapter that
    has text (a stored progress the load effect took as it was), computing
    it reads the length of a chunk that does not exist. *)
Theorem chapter_progress_bounds (b : list (list (list N))) (p : position) :
  (validPosition b p = true ->
   exists q, chapterProgressPercentage b p = Ok q
             /\ (0 <= q)%Q /\ (q <= 100)%Q)
  /\ (forall chs,
        at_index b (chapterIndex p) = Some chs ->
        sumLengths chs <> 0 ->
        Z.of_nat (List.length chs) < chunkIndex p ->
        chapterProgressPercentage b p = TypeError).
Proof.
  unfold validPosition, chapterProgressPercentage. split.
  - intros H.
    destruct (at_index b (chapterIndex p)) as [chs|]; [|done].
    destruct chs as [|t0 chs0] eqn:Echs; [exists 0%Q; done|].
    rewrite <- Echs in *. clear Echs t0 chs0.
    rewrite fold_left_lengths, Z.add_0_l.
    destruct (Z.eqb_spec (sumLengths chs) 0) as [E0|E0]; [exists 0%Q; done|].
    destruct (at_index chs (chunkIndex p)) as [t|] eqn:Ek;
      [|destruct chs; done].
    apply at_index_Some in Ek as (k & Ek & Hk). rewrite Ek, Nat2Z.id.
    apply lookup_lt_Some in Hk as Hlt.
    rewrite spokenChars_spec by lia. cbn [Nat.add].
    replace (k <=? List.length chs)%nat with true
      by (symmetry; apply Nat.leb_le; lia).
    rewrite drop_0, Z.add_0_l. eexists. split; [reflexivity|].
    apply andb_prop in H as [H1 H2]. apply Z.leb_le in H1, H2.
    pose proof (sumLengths_nonneg (take k chs)).
    pose proof (sumLengths_nonneg chs).
    pose proof (sumLengths_take_S chs _ t Hk) as HS.
    pose proof (sumLengths_take_le chs (S k) (List.length chs) Hlt) as Hle.
    rewrite firstn_all in Hle.
    apply percentage_bounds; lia.
  - intros chs Hc Hsum Hk. rewrite Hc.
    destruct chs as [|t0 chs0] eqn:Echs; [done|].
    rewrite <- Echs in *. clear Echs t0 chs0.
    rewrite fold_left_lengths, Z.add_0_l.
    destruct (Z.eqb_spec (sumLengths chs) 0) as [E0|E0]; [done|].
    rewrite spokenChars_spec by lia. cbn [Nat.add].
    now replace (Z.to_nat (chunkIndex p) <=? List.length chs)%nat with false
      by (symmetry; apply Nat.leb_gt; lia).
Qed.

Lemma chapter_progress_bounds_witness :
  chapterProgressPercentage twoChapters (Position 0 1 1) = Ok (3 / 5 * 100)%Q
  /\ (exists q, chapterProgressPercentage twoChapters (Position 0 1 1) = Ok q
                /\ (0 <= q)%Q /\ (q <= 100)%Q)
  /\ chapterProgressPercentage oneChapter (Position 0 5 0) = TypeError.
Proof.
  split; [reflexivity|]. split.
  - exact (proj1 (chapter_progress_bounds twoChapters (Position 0 1 1))
             eq_refl).
  - apply (proj2 (chapter_progress_bounds oneChapter (Position 0 5 0))
             [of_string "ab"; of_string "cd"]).
    + reflexivity.
    + vm_compute. discriminate.
    + vm_compute. reflexivity.
Defined.

(** *** The voices offered *)

Lemma filter_nonempty {A} (f : A -> bool) (l : list A) (x : A) :
  In x l -> f x = true -> List.filter f l <> [].
Proof.
  intros Hin Hf E.
  assert (H : In x (List.filter f l)) by (apply filter_In; done).
  rewrite E in H. destruct H.
Qed.

(** X27. When the engine has voices, the voices listed are some of them and
    never none: the Spanish ones not from Spain when there is one, else the
    Spanish ones when there is one, else all. The voice selected is one of
    the listed: the saved one when it is listed, else the first. Nothing is
    set while the engine has no voice. *)
Theorem voices_listed_and_selected (available : list voice)
    (saved : option string) :
  match handleVoicesChanged available saved with
  | None => available = []
  | Some (listed, selected) =>
      listed <> []
      /\ (forall v, In v listed -> In v available)
      /\ (exists v, In v listed /\ voiceURI v = selected)
      /\ (forall w, In w available -> String.prefix "es-" (lang w) = true ->
          forall v, In v listed -> String.prefix "es-" (lang v) = true)
      /\ (forall w, In w available -> String.prefix "es-" (lang w) = true ->
          String.prefix "es-ES" (lang w) = false ->
          forall v, In v listed -> String.prefix "es-ES" (lang v) = false)
      /\ (forall uri v, saved = Some uri -> uri <> ""%string ->
          In v listed -> voiceURI v = uri -> selected = uri)
      /\ ((forall uri v, saved = Some uri -> In v listed ->
           voiceURI v <> uri) ->
          exists v rest, listed = v :: rest /\ selected = voiceURI v)
  end.
Proof.
  unfold handleVoicesChanged. destruct available as [|first rest]; [done|].
  set (available := first :: rest).
  set (latAm := List.filter _ available).
  set (spanish := List.filter (fun v => String.prefix "es-" (lang v))
                    available).
  set (listed1 := match latAm with [] => spanish | _ => latAm end).
  set (listed := match listed1 with [] => available | _ => listed1 end).
  set (kept := match saved with Some uri => _ | None => false end).
  assert (HlatAm : forall v, In v latAm ->
            In v available /\ String.prefix "es-" (lang v) = true
            /\ String.prefix "es-ES" (lang v) = false).
  { intros v Hv. apply filter_In in Hv as [Hin Hv].
    apply andb_prop in Hv as [H1 H2]. apply negb_true_iff in H2. done. }
  assert (Hspanish : forall v, In v spanish ->
            In v available /\ String.prefix "es-" (lang v) = true).
  { intros v Hv. now apply filter_In in Hv. }
  assert (Hne : listed <> []).
  { subst listed. destruct listed1; done. }
  assert (Hsub : forall v, In v listed -> In v available).
  { subst listed listed1. intros v Hv.
    destruct latAm as [|l1 latAm'] eqn:E1.
    - destruct spanish as [|s1 spanish'] eqn:E2; [exact Hv|].
      now apply Hspanish.
    - now apply HlatAm. }
  assert (Hes : forall w, In w available ->
            String.prefix "es-" (lang w) = true ->
            forall v, In v listed -> String.prefix "es-" (lang v) = true).
  { intros w Hw Hlang v Hv.
    assert (Hs : spanish <> []) by exact (filter_nonempty _ _ w Hw Hlang).
    subst listed listed1.
    destruct latAm as [|l1 latAm'] eqn:E1.
    - destruct spanish as [|s1 spanish'] eqn:E2; [done|]. now apply Hspanish.
    - now apply HlatAm. }
  assert (Hlat : forall w, In w available ->
            String.prefix "es-" (lang w) = true ->
            String.prefix "es-ES" (lang w) = false ->
            forall v, In v listed -> String.prefix "es-ES" (lang v) = false).
  { intros w Hw Hlang Hspain v Hv.
    assert (Hl : latAm <> []).
    { apply (filter_nonempty _ _ w Hw). now rewrite Hlang, Hspain. }
    subst listed listed1.
    destruct latAm as [|l1 latAm'] eqn:E1; [done|]. now apply HlatAm. }
  split_all; try assumption.
  - destruct kept eqn:Hk.
    + subst kept. destruct saved as [uri|]; [|done].
      apply andb_prop in Hk as [_ Hk].
      apply existsb_exists in Hk as (v & Hv & Heq).
      apply String.eqb_eq in Heq. now exists v.
    + destruct listed as [|v l]; [done|]. exists v. split; [now left|done].
  - intros uri v -> Hne' Hv Huri.
    assert (Hk : kept = true).
    { subst kept. apply andb_true_intro. split.
      - apply negb_true_iff, String.eqb_neq, Hne'.
      - apply existsb_exists. exists v. split; [exact Hv|].
        now apply String.eqb_eq. }
    now rewrite Hk.
  - intros Hnot.
    assert (Hk : kept = false).
    { subst kept. destruct saved as [uri|]; [|done].
      apply andb_false_intro2. apply not_true_is_false. intros Hex.
      apply existsb_exists in Hex as (v & Hv & Heq).
      apply String.eqb_eq in Heq. now apply (Hnot uri v). }
    rewrite Hk. destruct listed as [|v l]; [done|]. now exists v, l.
Qed.

End PlayerFacts.

(** ** Facts about the library and the parser's chapters *)

Module LibraryFacts.
Import JS Seek Hook Library ChunkerFacts SeekFacts Examples MoreExamples.

Lemma progressKey_inj (a b : string) : progressKey a = progressKey b -> a = b.
Proof. unfold progressKey. cbn. intros H. now simplify_eq. Qed.

Lemma trimmed_has_content (text : list N) :
  truthy (trim text) = true -> stripWhiteSpace (trim text) <> [].
Proof.
  intros H.
  pose proof (trimEnd_noLeadingSpace (trimStart text)
                (trimStart_noLeadingSpace text)) as Hlead.
  fold (trim text) in Hlead.
  destruct (trim text) as [|d c]; [done|]. simpl in Hlead.
  unfold stripWhiteSpace. rewrite filter_cons_True by exact Hlead. done.
Qed.

Lemma chapterOfParagraphs_has_content texts chapter :
  chapterOfParagraphs texts = Some chapter -> stripWhiteSpace chapter <> [].
Proof.
  unfold chapterOfParagraphs.
  destruct (omap _ texts) as [|first rest] eqn:E; [done|].
  intros [= <-].
  assert (Hin : first ∈ omap
            (fun t : option (list N) =>
               match t with
               | Some text => if truthy (trim text) then Some (trim text)
                              else None
               | None => None
               end) texts) by (rewrite E; left).
  apply list_elem_of_omap in Hin as (t & _ & Ht).
  destruct t as [text|]; [|done].
  destruct (truthy (trim text)) eqn:Htext; [|done].
  injection Ht as <-.
  rewrite stripWhiteSpace_app. intros Happ.
  apply app_eq_nil in Happ as [Happ _].
  now apply (trimmed_has_content text).
Qed.

(** X28. The chapters the parser keeps all have text, so the chunks the
    hook makes of them form a well-formed book: every chapter has a chunk
    and no chunk is empty. *)
Theorem parsed_book_is_wellFormed (items : list (list (option (list N))))
    (title : string) (coverUrl : option string) (filename : string) :
  wellFormed
    (chapterChunksOf
       (EpubData title coverUrl (chaptersOfSpine items) filename))
  = true.
Proof.
  unfold chapterChunksOf. cbn [chapters].
  apply chunked_book_wellFormed. apply Forall_forall. intros chapter Hin.
  unfold chaptersOfSpine in Hin.
  apply list_elem_of_omap in Hin as (texts & _ & Ht).
  exact (chapterOfParagraphs_has_content texts chapter Ht).
Qed.

(** X29. The library holds one book per file name: adding a parsed book
    whose file name is already there changes nothing, and adding and
    deleting keep the file names distinct. *)
Theorem library_has_one_book_per_file (books : list epubData) (e : epubData)
    (name : string) (storage : gmap string item) :
  NoDup (map filename books) ->
  NoDup (map filename (addBook books e))
  /\ In (filename e) (map filename (addBook books e))
  /\ (In (filename e) (map filename books) -> addBook books e = books)
  /\ NoDup (map filename (fst (handleBookDelete name (books, storage))))
  /\ ~ In name (map filename (fst (handleBookDelete name (books, storage)))).
Proof.
  intros Hnd.
  assert (Hex : existsb (fun book => String.eqb (filename book) (filename e))
                  books = true
                <-> In (filename e) (map filename books)).
  { rewrite existsb_exists, in_map_iff. split.
    - intros (x & Hx & Heq). apply String.eqb_eq in Heq. now exists x.
    - intros (x & Heq & Hx). exists x. split; [done|].
      now apply String.eqb_eq. }
  unfold addBook, handleBookDelete. cbn [fst].
  split_all.
  - destruct (existsb _ books) eqn:E; [exact Hnd|].
    rewrite map_app. apply NoDup_app. split_all; [exact Hnd| |].
    + intros x Hx Hx'. cbn in Hx'. apply list_elem_of_In in Hx, Hx'.
      destruct Hx' as [<-|[]].
      apply Hex in Hx. congruence.
    + cbn. apply NoDup_singleton.
  - destruct (existsb _ books) eqn:E; [now apply Hex|].
    rewrite map_app. apply in_or_app. right. now left.
  - intros Hin. apply Hex in Hin. now rewrite Hin.
  - clear Hex. induction books as [|x books IH]; [constructor|].
    cbn [List.filter]. apply NoDup_cons in Hnd as [Hx Hnd].
    destruct (negb _); [|now apply IH].
    cbn. apply NoDup_cons. split; [|now apply IH].
    intros Hin. apply Hx. apply list_elem_of_In. apply list_elem_of_In in Hin.
    apply in_map_iff in Hin as (y & Hy & Hin). apply filter_In in Hin as [Hin _].
    apply in_map_iff. now exists y.
  - intros Hin. apply in_map_iff in Hin as (y & Hy & Hin).
    apply filter_In in Hin as [_ Hin]. apply negb_true_iff in Hin.
    apply String.eqb_neq in Hin. done.
Qed.

Lemma library_has_one_book_per_file_witness :
  addBook [holaBook] holaBook = [holaBook]
  /\ fst (handleBookDelete "hola.epub" ([holaBook], ∅)) = [].
Proof.
  assert (Hnd : NoDup (map filename [holaBook])).
  { apply NoDup_singleton. }
  destruct (library_has_one_book_per_file [holaBook] holaBook "hola.epub" ∅
              Hnd) as (_ & _ & H & _).
  split; [apply H; now left|reflexivity].
Defined.

(** X30. Deleting a book removes it from the library and its progress from
    the storage, and nothing of any other book: opened again, the deleted
    book starts at the beginning, and the others where they were. *)
Theorem delete_forgets_only_that_book (name : string)
    (books : list epubData) (storage : gmap string item) :
  let after := handleBookDelete name (books, storage) in
  (forall e, In e (fst after) <-> In e books /\ filename e <> name)
  /\ (forall e, filename e = name ->
      openBook (snd after) e = Some (initialState None))
  /\ (forall e, filename e <> name ->
      openBook (snd after) e = openBook storage e).
Proof.
  cbn. split_all.
  - intros e. rewrite filter_In, negb_true_iff, String.eqb_neq. done.
  - intros e <-. unfold openBook. now rewrite lookup_delete_eq.
  - intros e Hne. unfold openBook. rewrite lookup_delete_ne; [done|].
    intros Heq. apply progressKey_inj in Heq. congruence.
Qed.

End LibraryFacts.
